(** * hf_model_checker: memory estimation and quantization selection

    A shallow embedding of [src/hf_model_checker.py] and the properties of
    its estimator, selector, classifier, file grouper and repository
    analyzer.

    Conventions of the embedding:
    - a Python [float] is a binary64 number: Rocq's primitive [float], whose
      operations round to nearest-even exactly as CPython's do;
    - a Python [int] is a [Z]; it becomes a float by rounding
      ([float_of_int]).  CPython raises [OverflowError] for magnitudes from
      2^1024 on, the embedding returns an infinity there; byte counts of
      files are far below that bound;
    - a Python [str] is a [string] of 8-bit characters, and [upper] maps the
      letters a-z (file names and quantization labels are ASCII); likewise
      [lower] maps the letters A-Z and [strip] removes ASCII white space
      (the line typed at the prompt is ASCII);
    - a [dict] is an association list in insertion order with distinct keys,
      since the program depends on the iteration order of its dicts;
    - the label of [get_performance_label] is kept as its verdict and its
      two figures; the substring tests of the analyzer on the label are
      tests on its markup ([LabelFacts.label_has_text]);
    - [list.sort] with a key is a stable insertion sort (on keys without
      NaN every stable sort yields the same list), [min] and [max] with a
      key are folds from the left that keep the first of equals;
    - console output, progress tasks and calls of the hub API are recorded
      as a trace of events, and the function ends by returning or by an
      uncaught exception. *)

From Stdlib Require Import ZArith List Bool String Ascii Lia Floats.
From Stdlib Require Import Permutation Sorted Setoid.
From Stdlib Require Uint63.
Import ListNotations.

Set Warnings "-inexact-float".

Local Open Scope string_scope.
Local Open Scope list_scope.

(* ================================================================== *)
(** ** Python strings *)

Module PyStr.

(** [c.upper()] for one ASCII character. *)
Definition upper_char (c : ascii) : ascii :=
  let n := N_of_ascii c in
  if ((97 <=? n) && (n <=? 122))%N then ascii_of_N (n - 32) else c.

(** [s.upper()] *)
Fixpoint upper (s : string) : string :=
  match s with
  | EmptyString => EmptyString
  | String c t => String (upper_char c) (upper t)
  end.

(** [s.startswith(p)] *)
Definition startswith (s p : string) : bool := prefix p s.

(** [needle in hay] *)
Fixpoint contains (needle hay : string) : bool :=
  if prefix needle hay then true
  else match hay with
       | EmptyString => false
       | String _ t => contains needle t
       end.

(** [s.endswith(suffix)] *)
Fixpoint endswith (s suffix : string) : bool :=
  if String.eqb s suffix then true
  else match s with
       | EmptyString => false
       | String _ t => endswith t suffix
       end.

(** [s.rstrip(ch)] for a one-character argument. *)
Fixpoint rstrip (ch : ascii) (s : string) : string :=
  match s with
  | EmptyString => EmptyString
  | String c t =>
      match rstrip ch t with
      | EmptyString => if Ascii.eqb c ch then EmptyString else String c EmptyString
      | t' => String c t'
      end
  end.

(** [s.split(sep)] and [s.split(sep, maxsplit)] for a non-empty [sep]:
    a left-to-right scan for non-overlapping occurrences.  [skip] counts
    the characters of a matched separator still to be passed over, [cur]
    is the piece being collected. *)
Fixpoint split_go (sep : string) (maxsplit : option nat) (skip : nat)
         (cur s : string) : list string :=
  match s with
  | EmptyString => [cur]
  | String c t =>
      match skip with
      | S k => split_go sep maxsplit k cur t
      | O =>
          match maxsplit with
          | Some O => [(cur ++ s)%string]
          | _ =>
              if prefix sep s
              then cur :: split_go sep (option_map pred maxsplit)
                                   (String.length sep - 1) EmptyString t
              else split_go sep maxsplit 0 (cur ++ String c EmptyString)%string t
          end
      end
  end.

Definition split (s sep : string) : list string :=
  split_go sep None 0 EmptyString s.

Definition split_max (s sep : string) (maxsplit : nat) : list string :=
  split_go sep (Some maxsplit) 0 EmptyString s.

(** [sep.join(parts)] *)
Fixpoint join (sep : string) (parts : list string) : string :=
  match parts with
  | [] => EmptyString
  | [p] => p
  | p :: rest => (p ++ sep ++ join sep rest)%string
  end.

Definition is_lower (c : ascii) : bool :=
  let n := N_of_ascii c in ((97 <=? n) && (n <=? 122))%N.

(** Does [s] hold a letter of a-z? *)
Fixpoint has_lower (s : string) : bool :=
  match s with
  | EmptyString => false
  | String c t => is_lower c || has_lower t
  end.

(** Do all characters of [s] pass [p]? *)
Fixpoint all_chars (p : ascii -> bool) (s : string) : bool :=
  match s with
  | EmptyString => true
  | String c t => p c && all_chars p t
  end.

(** Is [c] a character of [s]? *)
Fixpoint char_in (c : ascii) (s : string) : bool :=
  match s with
  | EmptyString => false
  | String d t => Ascii.eqb c d || char_in c t
  end.

(** [s[k:]] *)
Fixpoint skip_chars (k : nat) (s : string) : string :=
  match k, s with
  | O, _ => s
  | S _, EmptyString => EmptyString
  | S k', String _ t => skip_chars k' t
  end.

(** [c.isspace()] for an ASCII character: tab, line feed, vertical tab,
    form feed, carriage return, the separators 28 to 31 and the space. *)
Definition is_space (c : ascii) : bool :=
  let n := N_of_ascii c in
  (((9 <=? n) && (n <=? 13)) || ((28 <=? n) && (n <=? 32)))%N.

(** [s.lstrip()] and [s.rstrip()] without argument, and [s.strip()]. *)
Fixpoint lstrip_space (s : string) : string :=
  match s with
  | EmptyString => EmptyString
  | String c t => if is_space c then lstrip_space t else s
  end.

Fixpoint rstrip_space (s : string) : string :=
  match s with
  | EmptyString => EmptyString
  | String c t =>
      match rstrip_space t with
      | EmptyString => if is_space c then EmptyString else String c EmptyString
      | t' => String c t'
      end
  end.

Definition strip (s : string) : string := rstrip_space (lstrip_space s).

(** [c.lower()] for one ASCII character, and [s.lower()]. *)
Definition lower_char (c : ascii) : ascii :=
  let n := N_of_ascii c in
  if ((65 <=? n) && (n <=? 90))%N then ascii_of_N (n + 32) else c.

Fixpoint lower (s : string) : string :=
  match s with
  | EmptyString => EmptyString
  | String c t => String (lower_char c) (lower t)
  end.

End PyStr.

(* ================================================================== *)
(** ** Python numbers *)

Module PyNum.

Local Open Scope float_scope.

(** [float(n)] of an int: the nearest binary64 number. *)
Definition float_of_int (z : Z) : float :=
  SF2Prim (binary_normalize prec emax z 0%Z false).

(** A value that is an [int] at some call sites and a [float] at others. *)
Inductive number : Type :=
| Int (z : Z)
| Float (x : float).

Definition to_float (n : number) : float :=
  match n with
  | Int z => float_of_int z
  | Float x => x
  end.

(** [n / d] with [d] an int that is a power of two (here always 1024**3).
    For a float [n] this is the float division by [float(d)].  For an int
    [n] CPython returns the correctly rounded quotient of the two
    integers, which for a power-of-two [d] is [float(n) / float(d)]:
    scaling by a power of two commutes with rounding. *)
Definition truediv (n : number) (d : Z) : float :=
  to_float n / float_of_int d.

(** [a >= b] and [a > b] on floats: false when either side is a NaN. *)
Definition ge (a b : float) : bool := b <=? a.
Definition gt (a b : float) : bool := b <? a.

(** [max(a, b)]: the first argument unless the second is greater. *)
Definition max2 (a b : float) : float := if gt b a then b else a.

(** 1024 ** 3 *)
Definition GiB : Z := 1024 ^ 3.

Definition sf_is_nan (x : spec_float) : bool :=
  match x with
  | S754_nan => true
  | _ => false
  end.

(** Not a NaN and not negative (a zero of either sign counts). *)
Definition sf_nonneg (x : spec_float) : bool :=
  match x with
  | S754_zero _ => true
  | S754_infinity s => negb s
  | S754_nan => false
  | S754_finite s _ _ => negb s
  end.

Definition nonneg (x : float) : Prop := sf_nonneg (Prim2SF x) = true.

(** The mantissa [p] shifted left by [k] bits. *)
Definition shl (p : positive) (k : nat) : positive := Nat.iter k xO p.

(** The binary64 form of a whole number [n] below 2^53: a mantissa of 53
    bits and its exponent. *)
Definition canon_e (n : positive) : Z := (Zpos (digits2_pos n) - 53)%Z.
Definition canon_m (n : positive) : positive :=
  shl n (Z.to_nat (53 - Zpos (digits2_pos n))).

(** A number that is neither an infinity nor a NaN; and one that is
    greater than zero besides. *)
Definition sf_finite (x : spec_float) : bool :=
  match x with
  | S754_zero _ | S754_finite _ _ _ => true
  | _ => false
  end.

Definition sf_positive (x : spec_float) : bool :=
  match x with
  | S754_finite false _ _ => true
  | _ => false
  end.

Definition finite (x : float) : Prop := sf_finite (Prim2SF x) = true.
Definition positive_finite (x : float) : Prop := sf_positive (Prim2SF x) = true.

End PyNum.

Import PyStr PyNum.

Notation "a >=? b" := (ge a b) (at level 70) : float_scope.
Notation "a >? b" := (gt a b) (at level 70) : float_scope.

(* ================================================================== *)
(** ** Data model *)

(** One entry of a repository listing ([RepoSibling]): [rfilename], [size]. *)
Record RemoteFile : Type := mkFile { rfilename : string; size : Z }.

(** [QUANT_MULTIPLIERS]: the items of the dict loaded from
    quant_multipliers.json, in the order of the file. *)
Definition multipliers : Type := list (string * float).

(** The four outcomes of [get_performance_label]. *)
Inductive verdict : Type := GPU_Ready | Too_large | Will_be_slow | Ready.

(** The string [get_performance_label] returns is a colour markup around
    the verdict followed by "(needs xGB, yGB RAM available)" (VRAM for
    GPU-Ready), both figures printed to two decimals.  The record keeps the
    verdict and the two figures; [label_markup] is the text before the
    parenthesis. *)
Record perf_label : Type :=
  mkLabel { label_verdict : verdict; label_needs : float; label_available : float }.

Definition label_markup (v : verdict) : string :=
  match v with
  | GPU_Ready => "[green]GPU-Ready[/green]"
  | Too_large => "[red]Too large[/red]"
  | Will_be_slow => "[yellow]Will be slow[/yellow]"
  | Ready => "[green]Ready[/green]"
  end.

(** [word in performance_label], for the words the analyzer looks for:
    "Too large", "GPU-Ready", "Ready", "Will be slow" and "slow".  Such a
    word is in the label exactly when it is in the markup, whatever the
    two figures are ([label_has_text] below). *)
Definition label_has (word : string) (p : perf_label) : bool :=
  contains word (label_markup (label_verdict p)).

(** The characters of a float printed with [:.2f]: digits, point, sign,
    and the letters of "inf" and "nan". *)
Definition numeric_char (c : ascii) : bool := char_in c "0123456789.-infa".

(** The characters of a label after its markup. *)
Definition tail_char (c : ascii) : bool :=
  char_in c " (needs0123456789.-infaGB,VRAMvailble)".

Section LabelText.

(** [format(x, '.2f')] *)
Variable fmt : float -> string.

(** The text of a label after its markup. *)
Definition label_tail (p : perf_label) : string :=
  (" (needs " ++ fmt (label_needs p) ++ "GB, " ++ fmt (label_available p)
   ++ match label_verdict p with
      | GPU_Ready => "GB VRAM available)"
      | _ => "GB RAM available)"
      end)%string.

(** The whole string returned by [get_performance_label]. *)
Definition label_text (p : perf_label) : string :=
  (label_markup (label_verdict p) ++ label_tail p)%string.

End LabelText.

(** A value of the [grouped] dict: {'size': float, 'files': list}. *)
Record Group : Type := mkGroup { group_size : float; group_files : list RemoteFile }.

(** The [grouped] dict, in insertion order. *)
Definition groups : Type := list (string * Group).

(** An element of [viable_quants]: (quant_type, file_size_gb, label). *)
Definition viable_quant : Type := (string * float * perf_label)%type.

Definition vq_name (v : viable_quant) : string := fst (fst v).
Definition vq_size (v : viable_quant) : float := snd (fst v).
Definition vq_perf (v : viable_quant) : perf_label := snd v.

Section Checker.

Local Open Scope float_scope.

Variable QUANT_MULTIPLIERS : multipliers.

(** *** estimate_ram_requirement *)

(** The loop of lines 48-51: the multiplier of the first key found in
    [file_upper], [overhead_multiplier] unchanged when there is none. *)
Fixpoint scan_multiplier (file_upper : string) (items : multipliers)
         (overhead_multiplier : float) : float :=
  match items with
  | [] => overhead_multiplier
  | (quant, mult) :: rest =>
      if contains quant file_upper then mult
      else scan_multiplier file_upper rest overhead_multiplier
  end.

Definition estimate_ram_requirement (file_name : string)
           (file_size_bytes : number) : float :=
  let size_gb := truediv file_size_bytes GiB in
  let file_upper := upper file_name in
  let overhead_multiplier := scan_multiplier file_upper QUANT_MULTIPLIERS 2.5 in
  let base_ram := size_gb * overhead_multiplier in
  let attention_overhead := size_gb * 0.1 in
  base_ram + attention_overhead.

(** *** get_best_quantization *)

Definition too_large_msg : string := "Model too large for available memory".

(** [k in available_quants] *)
Definition str_in (k : string) (l : list string) : bool :=
  existsb (String.eqb k) l.

(** The dict comprehension of lines 34-35. *)
Fixpoint filtered_quants (items : multipliers) (available_quants : list string)
  : multipliers :=
  match items with
  | [] => []
  | (k, v) :: rest =>
      if str_in k available_quants
      then (k, v) :: filtered_quants rest available_quants
      else filtered_quants rest available_quants
  end.

(** The loop of lines 37-40, appending to [suitable_quants]. *)
Fixpoint suitable_loop (items : multipliers) (model_size_gb max_memory : float)
         (suitable_quants : list string) : list string :=
  match items with
  | [] => suitable_quants
  | (quant, multiplier) :: rest =>
      let required_memory := model_size_gb * (multiplier + 0.1) in
      suitable_loop rest model_size_gb max_memory
        (if required_memory <=? max_memory
         then suitable_quants ++ [quant] else suitable_quants)
  end.

Definition get_best_quantization (available_ram_gb available_vram_gb
           model_size_gb : float) (available_quants : list string) : string :=
  let max_memory := max2 available_ram_gb available_vram_gb in
  let filtered := filtered_quants QUANT_MULTIPLIERS available_quants in
  let suitable_quants := suitable_loop filtered model_size_gb max_memory [] in
  match suitable_quants with
  | [] => too_large_msg
  | _ :: _ => last suitable_quants too_large_msg
  end.

(** *** get_performance_label *)

Definition get_performance_label (estimated_ram_needed user_ram_gb vram_gb : float)
  : perf_label :=
  if vram_gb >=? estimated_ram_needed
  then mkLabel GPU_Ready estimated_ram_needed vram_gb
  else if estimated_ram_needed >? user_ram_gb
  then mkLabel Too_large estimated_ram_needed user_ram_gb
  else if estimated_ram_needed >? user_ram_gb * 0.5
  then mkLabel Will_be_slow estimated_ram_needed user_ram_gb
  else mkLabel Ready estimated_ram_needed user_ram_gb.

(** *** group_split_files *)

(** Lines 77-87: the size variant read off the upper-cased file name. *)
Definition size_variant_of (filename_upper : string) : string :=
  if contains "_L" filename_upper then "_L"
  else if contains "_M" filename_upper then "_M"
  else if contains "_S" filename_upper then "_S"
  else if contains "_XS" filename_upper then "_XS"
  else if contains "_XXS" filename_upper then "_XXS"
  else "".

(** The inner loop of lines 75-89 over [QUANT_MULTIPLIERS.keys()];
    [None] when no key is found. *)
Fixpoint find_quant_type (filename_upper : string) (keys : list string)
  : option string :=
  match keys with
  | [] => None
  | base_quant :: rest =>
      if contains base_quant filename_upper
      then Some (base_quant ++ size_variant_of filename_upper)%string
      else find_quant_type filename_upper rest
  end.

Definition quant_type_of (f : RemoteFile) : option string :=
  find_quant_type (upper (rfilename f)) (map fst QUANT_MULTIPLIERS).

(** [k in d] *)
Definition dict_mem (k : string) (d : groups) : bool :=
  existsb (fun kv => String.eqb k (fst kv)) d.

(** [d[k] = change(d[k])] for a key that is present. *)
Fixpoint dict_update (k : string) (change : Group -> Group) (d : groups) : groups :=
  match d with
  | [] => []
  | (k', g) :: rest =>
      if String.eqb k k' then (k', change g) :: rest
      else (k', g) :: dict_update k change rest
  end.

(** Lines 94-95. *)
Definition add_file (f : RemoteFile) (g : Group) : Group :=
  mkGroup (group_size g + float_of_int (size f)) (group_files g ++ [f]).

(** One turn of the loop over [files].  [if quant_type] holds for a
    string that is neither [None] nor empty. *)
Definition group_step (grouped : groups) (f : RemoteFile) : groups :=
  match quant_type_of f with
  | Some (String _ _ as quant_type) =>
      let grouped :=
        if dict_mem quant_type grouped then grouped
        else grouped ++ [(quant_type, mkGroup 0 [])] in
      dict_update quant_type (add_file f) grouped
  | _ => grouped
  end.

Definition group_split_files (files : list RemoteFile) : groups :=
  fold_left group_step files [].

End Checker.

(* ================================================================== *)
(** ** Effects of the analyzer *)

(** How a line of the "Viable Quantizations" row is coloured. *)
Inductive colour : Type := Green | Yellow | Cyan.

(** The value column of a table row. *)
Inductive cell : Type :=
| Text (s : string)
| GB2 (x : float)                 (** f"{x:.2f}GB" *)
| Label (p : perf_label)          (** a performance label *)
| QuantLines (rows : list (string * float * colour * string)).
                                  (** the joined [quants_display] lines *)

(** A [rich] table: its rows, (property, value). *)
Definition table : Type := list (string * cell).

(** What the analyzer does that can be observed, in order; the calls of
    the program's own estimator, classifier and grouper are recorded too. *)
Inductive event : Type :=
| Print (text : string)                              (** console.print(text) *)
| PrintPanel (t : table)                             (** console.print(Panel(table, ...)) *)
| AddTask (description : string)                     (** progress.add_task *)
| ModelInfo (repo_id : string) (files_metadata : bool)  (** api.model_info *)
| SystemMemory                                       (** get_system_memory() *)
| EstimateRam (file_name : string) (bytes : number)  (** estimate_ram_requirement *)
| PerformanceLabel (need ram vram : float)           (** get_performance_label *)
| GroupSplitFiles (files : list RemoteFile).         (** group_split_files *)

(** How a call ends: by [return] (or by reaching the end of the body), or
    by an exception that nothing catches. *)
Inductive exit : Type := Returned | Raised (exc : string).

Inductive outcome (A : Type) : Type :=
| Value (a : A)
| Exit (e : exit).
Arguments Value {A} a.
Arguments Exit {A} e.

(** A computation: the events so far, then a value to go on with or the
    way the function was left. *)
Definition Run (A : Type) : Type := (list event * outcome A)%type.

Definition ret {A} (a : A) : Run A := ([], Value a).

Definition bind {A B} (m : Run A) (k : A -> Run B) : Run B :=
  match m with
  | (t, Value a) => let (t', r) := k a in (t ++ t', r)
  | (t, Exit e) => (t, Exit e)
  end.

Definition emit (e : event) : Run unit := ([e], Value tt).
Definition return_ {A} : Run A := ([], Exit Returned).
Definition raise {A} (exc : string) : Run A := ([], Exit (Raised exc)).

(** The trace of a call and the way it ends; reaching the end of the body
    is a return. *)
Definition finish {A} (r : Run A) : list event * exit :=
  match r with
  | (t, Value _) => (t, Returned)
  | (t, Exit e) => (t, e)
  end.

(** try: [m] except Exception: [handler] *)
Definition try_except {A} (m handler : Run A) : Run A :=
  match m with
  | (t, Exit (Raised _)) => let (t', r) := handler in (t ++ t', r)
  | _ => m
  end.

Notation "x <- m ;; k" := (bind m (fun x => k))
  (at level 61, m at next level, right associativity).
Notation "' pat <- m ;; k" := (bind m (fun x => match x with pat => k end))
  (at level 61, pat pattern, m at next level, right associativity).
Notation "m ;;; k" := (bind m (fun _ => k))
  (at level 61, right associativity).

(** The two collaborators of the analyzer: the hub API, whose [model_info]
    returns the listing of a repository or raises ([None]), and the
    probe of the machine's memory, (ram_gb, vram_gb). *)
Record World : Type := mkWorld {
  model_info : string -> bool -> option (list RemoteFile);
  system_memory : float * float
}.

Definition invalid_url_msg : string :=
  "[red]URL is not a valid Hugging Face model URL.[/red]".
Definition not_found_title : string :=
  String (ascii_of_nat 10) "[yellow]Model Not Found[/yellow]".
Definition not_found_msg : string :=
  "[red]The model you're looking for does not exist or it's not public.[/red]".
Definition no_gguf_msg : string := "[red]No GGUF files found in repository[/red]".
Definition no_model_files_msg (extensions : list string) : string :=
  ("[red]No model files (" ++ join ", " extensions
     ++ ") found in the specified repo/subfolder.[/red]")%string.

Section Analyzer.

Local Open Scope float_scope.

Variable QUANT_MULTIPLIERS : multipliers.
Variable world : World.

Definition api_model_info (repo_id : string) (files_metadata : bool)
  : Run (list RemoteFile) :=
  emit (ModelInfo repo_id files_metadata) ;;;
  match model_info world repo_id files_metadata with
  | Some siblings => ret siblings
  | None => raise "Exception"
  end.

Definition get_system_memory : Run (float * float) :=
  emit SystemMemory ;;; ret (system_memory world).

Definition call_estimate (file_name : string) (bytes : number) : Run float :=
  emit (EstimateRam file_name bytes) ;;;
  ret (estimate_ram_requirement QUANT_MULTIPLIERS file_name bytes).

Definition call_label (need ram vram : float) : Run perf_label :=
  emit (PerformanceLabel need ram vram) ;;;
  ret (get_performance_label need ram vram).

Definition call_group (files : list RemoteFile) : Run groups :=
  emit (GroupSplitFiles files) ;;;
  ret (group_split_files QUANT_MULTIPLIERS files).

(** [l[i]] *)
Definition item (l : list string) (i : nat) : Run string :=
  match nth_error l i with
  | Some x => ret x
  | None => raise "IndexError"
  end.

(** [a, b = s.split(sep, 1)] *)
Definition split_pair (s sep : string) : Run (string * string) :=
  match split_max s sep 1 with
  | [a; b] => ret (a, b)
  | _ => raise "ValueError"
  end.

(** Lines 138-153: the report on one file. *)
Definition blob_report {A} (file_path : string) (target_file : RemoteFile)
           (ram_gb vram_gb : float) : Run A :=
  let file_size_gb := truediv (Int (size target_file)) GiB in
  estimated_ram_needed <- call_estimate file_path (Int (size target_file)) ;;
  performance_label <- call_label estimated_ram_needed ram_gb vram_gb ;;
  emit (PrintPanel [("File", Text file_path);
                    ("Size", GB2 file_size_gb);
                    ("RAM Available", GB2 ram_gb);
                    ("VRAM Available", GB2 vram_gb);
                    ("Performance", Label performance_label)]) ;;;
  return_.

(** The loop of lines 171-177 over [grouped_files.items()]. *)
Fixpoint viable_loop (items : groups) (ram_gb vram_gb : float)
         (viable_quants : list viable_quant) : Run (list viable_quant) :=
  match items with
  | [] => ret viable_quants
  | (quant_type, group) :: rest =>
      let file_size_gb := group_size group / float_of_int GiB in
      estimated_ram_needed <- call_estimate quant_type (Float (group_size group)) ;;
      performance_label <- call_label estimated_ram_needed ram_gb vram_gb ;;
      viable_loop rest ram_gb vram_gb
        (if label_has "Too large" performance_label then viable_quants
         else viable_quants ++ [(quant_type, file_size_gb, performance_label)])
  end.

(** [viable_quants.sort(key=lambda x: x[1])]: a stable sort, each element
    going behind those already placed whose size is not greater. *)
Fixpoint insert_by_size (x : viable_quant) (sorted : list viable_quant)
  : list viable_quant :=
  match sorted with
  | [] => [x]
  | y :: rest =>
      if vq_size x <? vq_size y then x :: y :: rest
      else y :: insert_by_size x rest
  end.

Definition sort_by_size (l : list viable_quant) : list viable_quant :=
  fold_left (fun sorted x => insert_by_size x sorted) l [].

(** [min(l, key=lambda x: x[1])] and [max(l, key=lambda x: x[1])]: the
    first element of least (greatest) size; [None] stands for the
    ValueError of an empty list. *)
Definition min_by_size (l : list viable_quant) : option viable_quant :=
  match l with
  | [] => None
  | x :: rest =>
      Some (fold_left (fun best y => if vq_size y <? vq_size best then y else best)
                      rest x)
  end.

Definition max_by_size (l : list viable_quant) : option viable_quant :=
  match l with
  | [] => None
  | x :: rest =>
      Some (fold_left (fun best y => if vq_size y >? vq_size best then y else best)
                      rest x)
  end.

Definition is_gpu_ready (v : viable_quant) : bool := label_has "GPU-Ready" (vq_perf v).
Definition is_plain_ready (v : viable_quant) : bool :=
  label_has "Ready" (vq_perf v) && negb (label_has "GPU-Ready" (vq_perf v)).
Definition is_slow (v : viable_quant) : bool := label_has "Will be slow" (vq_perf v).

(** Lines 189-202: the element of [viable_quants] that is recommended. *)
Definition recommended_quant (viable_quants : list viable_quant)
  : option viable_quant :=
  let gpu_ready_quants := filter is_gpu_ready viable_quants in
  let ready_quants := filter is_plain_ready viable_quants in
  let slow_quants := filter is_slow viable_quants in
  if forallb is_slow viable_quants then min_by_size viable_quants
  else match gpu_ready_quants with
       | _ :: _ => max_by_size gpu_ready_quants
       | [] =>
           match ready_quants with
           | _ :: _ => max_by_size ready_quants
           | [] => min_by_size slow_quants
           end
       end.

(** Lines 205-212: one display line per viable quantization. *)
Definition quant_line (v : viable_quant) : string * float * colour * string :=
  let perf := vq_perf v in
  let shown := label_markup (label_verdict perf) in
  if label_has "GPU-Ready" perf then (vq_name v, vq_size v, Green, shown)
  else if label_has "slow" perf then (vq_name v, vq_size v, Yellow, shown)
  else (vq_name v, vq_size v, Cyan, shown).

(** Lines 189-217: the report on a repository with viable quantizations;
    [table] already holds the two rows of lines 185-186. *)
Definition viable_report (viable_quants : list viable_quant) (table : table)
  : Run unit :=
  match recommended_quant viable_quants with
  | None => raise "ValueError"
  | Some best =>
      let recommended := vq_name best in
      let table := table ++
        [("Viable Quantizations", QuantLines (map quant_line viable_quants));
         ("Recommended Quantization",
          Text ("[bold blue]" ++ recommended ++ "[/bold blue]")%string)] in
      emit (PrintPanel table)
  end.

Definition truthy (s : option string) : bool :=
  match s with
  | Some (String _ _) => true
  | _ => false
  end.

(** The loop of lines 222-226. *)
Definition weights_step (extensions : list string) (subfolder : option string)
           (total_size_bytes : Z) (f : RemoteFile) : Z :=
  if existsb (endswith (rfilename f)) extensions then
    if truthy subfolder
       && negb (startswith (rfilename f)
                           (match subfolder with Some p => p | None => "" end))
    then total_size_bytes
    else (total_size_bytes + size f)%Z
  else total_size_bytes.

(** Lines 219-245: the report on plain weight files. *)
Definition weights_report (repo_id : string) (subfolder : option string)
           (all_files : list RemoteFile) (ram_gb vram_gb : float) : Run unit :=
  let extensions := [".safetensors"; ".bin"] in
  let total_size_bytes :=
    fold_left (weights_step extensions subfolder) all_files 0%Z in
  if (total_size_bytes =? 0)%Z then
    emit (Print (no_model_files_msg extensions)) ;;; return_
  else
    estimated_ram_needed <- call_estimate repo_id (Int total_size_bytes) ;;
    performance_label <- call_label estimated_ram_needed ram_gb vram_gb ;;
    let total_size_gb := truediv (Int total_size_bytes) GiB in
    emit (PrintPanel [("Model Size", GB2 total_size_gb);
                      ("RAM Available", GB2 ram_gb);
                      ("VRAM Available", GB2 vram_gb);
                      ("Performance", Label performance_label)]).

(** Lines 163-186: the GGUF branch, giving [viable_quants] and [table]. *)
Definition gguf_scan (repo_id : string) (all_files : list RemoteFile)
           (ram_gb vram_gb : float) : Run (list viable_quant * table) :=
  if contains "GGUF" (upper repo_id) then
    let gguf_files := filter (fun f => endswith (rfilename f) ".gguf") all_files in
    match gguf_files with
    | [] => emit (Print no_gguf_msg) ;;; return_
    | _ :: _ =>
        grouped_files <- call_group gguf_files ;;
        viable_quants <- viable_loop grouped_files ram_gb vram_gb [] ;;
        ret (sort_by_size viable_quants,
             [("RAM Available", GB2 ram_gb); ("VRAM Available", GB2 vram_gb)])
    end
  else ret ([], []).

(** Lines 155-245: the analysis of the whole repository. *)
Definition repository_analysis (path_part repo_id : string)
           (ram_gb vram_gb : float) : Run unit :=
  ' (repo_id, subfolder) <-
      (if contains "/tree/main/" path_part
       then ' (r, sub) <- split_pair path_part "/tree/main/" ;; ret (r, Some sub)
       else ret (repo_id, None)) ;;
  emit (AddTask ("Analyzing repository: " ++ repo_id ++ "...")%string) ;;;
  all_files <- api_model_info repo_id true ;;
  ' (viable_quants, table) <- gguf_scan repo_id all_files ram_gb vram_gb ;;
  match viable_quants with
  | _ :: _ => viable_report viable_quants table
  | [] => weights_report repo_id subfolder all_files ram_gb vram_gb
  end.

(** Lines 130-153: the single-file branch.  It leaves the function after
    its report when the file is in the listing, and otherwise hands the
    repository id it split off to the code below. *)
Definition blob_branch (path_part repo_id : string) (ram_gb vram_gb : float)
  : Run string :=
  if contains "/blob/main/" path_part then
    ' (repo_id, file_path) <- split_pair path_part "/blob/main/" ;;
    emit (AddTask ("Fetching info for " ++ file_path ++ "...")%string) ;;;
    all_files <- api_model_info repo_id true ;;
    match find (fun f => String.eqb (rfilename f) file_path) all_files with
    | Some target_file => blob_report file_path target_file ram_gb vram_gb
    | None => ret repo_id
    end
  else ret repo_id.

(** Lines 103-108: [path_part] and [repo_id] of a URL. *)
Definition parse_url (repo_url : string) : Run (string * string) :=
  let repo_url := rstrip "/" repo_url in
  let parts := split repo_url "huggingface.co/" in
  path_part <- item parts 1 ;;
  repo_id <-
    (if contains "/tree/main/" path_part
     then item (split path_part "/tree/main/") 0
     else if contains "/blob/main/" path_part
     then item (split path_part "/blob/main/") 0
     else ret path_part) ;;
  ret (path_part, repo_id).

Definition analyze (repo_url : string) : Run unit :=
  if negb (contains "huggingface.co/" repo_url) then
    emit (Print invalid_url_msg) ;;; return_
  else
    ' (path_part, repo_id) <- parse_url repo_url ;;
    try_except (_ <- api_model_info repo_id false ;; ret tt)
               (emit (Print not_found_title) ;;;
                emit (Print not_found_msg) ;;; return_) ;;;
    emit (AddTask "Analyzing system resources...") ;;;
    ' (ram_gb, vram_gb) <- get_system_memory ;;
    repo_id <- blob_branch path_part repo_id ram_gb vram_gb ;;
    repository_analysis path_part repo_id ram_gb vram_gb.

(** [analyze_huggingface_url(repo_url)]: its trace and the way it ends. *)
Definition analyze_huggingface_url (repo_url : string) : list event * exit :=
  finish (analyze repo_url).

End Analyzer.

(* ================================================================== *)
(** ** The memory probe and the script *)

(** What [get_system_memory] reads: the total of [psutil.virtual_memory()]
    in bytes, and the [total_memory] of the current CUDA device when
    [torch.cuda.is_available()]. *)
Record Machine : Type := mkMachine { ram_bytes : Z; cuda_bytes : option Z }.

(** Lines 24-29: the pair (ram_gb, vram_gb) that [get_system_memory]
    returns. *)
Definition system_memory_of (m : Machine) : float * float :=
  let ram_gb := truediv (Int (ram_bytes m)) GiB in
  let vram_gb :=
    match cuda_bytes m with
    | Some total_memory => truediv (Int total_memory) GiB
    | None => 0%float
    end in
  (ram_gb, vram_gb).

(** How the script ends: by reaching its last line, by [sys.exit] with a
    status, or by an exception that nothing catches. *)
Inductive script_end : Type :=
| Finished
| SysExit (status : Z)
| Uncaught (exc : string).

Definition config_missing_msg : string :=
  "[red]Error:[/red] quant_multipliers.json not found!".
Definition config_hint_msg : string :=
  "Please ensure the file exists in the same directory as the script.".
Definition prompt_msg : string :=
  String (ascii_of_nat 10)
    "[bold cyan]Enter a Hugging Face model URL (or 'exit' to quit):[/bold cyan]".
Definition analyzing_msg (url : string) : string :=
  (String (ascii_of_nat 10) "[yellow]Analyzing:[/yellow] " ++ url)%string.

(** Lines 15-21 and 247-257: the script.  [config] is the table read from
    quant_multipliers.json, [None] when the file does not exist; [line] is
    what [input()] returns, [None] when it raises EOFError.  [sys.exit()]
    without argument leaves with status 0. *)
Definition script (config : option multipliers) (world : World)
           (line : option string) : list event * script_end :=
  match config with
  | None => ([Print config_missing_msg; Print config_hint_msg], SysExit 1)
  | Some QUANT_MULTIPLIERS =>
      match line with
      | None => ([Print prompt_msg], Uncaught "EOFError")
      | Some line =>
          let url := strip line in
          if String.eqb (lower url) "exit" then ([Print prompt_msg], SysExit 0)
          else
            match url with
            | EmptyString => ([Print prompt_msg], Finished)
            | String _ _ =>
                let (t, e) := analyze_huggingface_url QUANT_MULTIPLIERS world url in
                let t := Print prompt_msg :: Print (analyzing_msg url) :: t in
                match e with
                | Returned => (t ++ [Print ""], Finished)
                | Raised exc => (t, Uncaught exc)
                end
            end
      end
  end.

(* ================================================================== *)
(** ** Notions used in the statements *)

(** The distinct elements of a list in the order of their first
    occurrences. *)
Fixpoint first_occurrences (l : list string) : list string :=
  match l with
  | [] => []
  | x :: rest => x :: filter (fun y => negb (String.eqb y x)) (first_occurrences rest)
  end.

(** The running float sum [0.0 + s1 + s2 + ...] of the sizes of files, as
    [group['size'] += f.size] builds it. *)
Definition float_sum (files : list RemoteFile) : float :=
  fold_left (fun acc f => (acc + float_of_int (size f))%float) files 0%float.

(** The running float sum [0.0 + x1 + x2 + ...] of a list of floats. *)
Definition float_total (xs : list float) : float :=
  fold_left (fun acc x => (acc + x)%float) xs 0%float.

(** No file has a negative size. *)
Definition sizes_nonneg (files : list RemoteFile) : Prop :=
  Forall (fun f => (0 <= size f)%Z) files.

(** The exact number of bytes of a list of files. *)
Definition total_bytes (files : list RemoteFile) : Z :=
  fold_right (fun f acc => (size f + acc)%Z) 0%Z files.

Section Notions.

Local Open Scope float_scope.

Variable QUANT_MULTIPLIERS : multipliers.

(** The first item of the table, in stored order, whose key occurs in
    [file_upper]. *)
Definition first_key (file_upper : string) : option (string * float) :=
  find (fun kv => contains (fst kv) file_upper) QUANT_MULTIPLIERS.

(** Does the upper-cased name of [f] contain some key of the table? *)
Definition matches_some_key (f : RemoteFile) : bool :=
  existsb (fun kv => contains (fst kv) (upper (rfilename f))) QUANT_MULTIPLIERS.

(** The label under which the grouper files [f]: its [quant_type] when
    that is a non-empty string. *)
Definition grouped_label (f : RemoteFile) : option string :=
  match quant_type_of QUANT_MULTIPLIERS f with
  | Some (String c r) => Some (String c r)
  | _ => None
  end.

(** Is [f] filed under some label? *)
Definition is_grouped (f : RemoteFile) : bool :=
  match grouped_label f with
  | Some _ => true
  | None => false
  end.

Definition has_label (label : string) (f : RemoteFile) : bool :=
  match grouped_label f with
  | Some l => String.eqb l label
  | None => false
  end.

(** The files of the input filed under [label], in input order. *)
Definition members (label : string) (files : list RemoteFile) : list RemoteFile :=
  filter (has_label label) files.

(** The labels of the files that are filed, in input order. *)
Definition labels_of (files : list RemoteFile) : list string :=
  flat_map (fun f => match grouped_label f with
                     | Some l => [l]
                     | None => []
                     end) files.

(** The group the grouper is to build for [label]: the files of that
    label in input order, and the running float sum of their sizes. *)
Definition group_of (files : list RemoteFile) (label : string) : string * Group :=
  (label, mkGroup (float_sum (members label files)) (members label files)).

(** What one group of the viable list is computed from (lines 172-174). *)
Definition group_entry (ram_gb vram_gb : float) (kv : string * Group) : viable_quant :=
  (fst kv,
   group_size (snd kv) / float_of_int GiB,
   get_performance_label
     (estimate_ram_requirement QUANT_MULTIPLIERS (fst kv) (Float (group_size (snd kv))))
     ram_gb vram_gb).

End Notions.

(** All member files of all groups. *)
Definition all_members (g : groups) : list RemoteFile :=
  flat_map (fun kv => group_files (snd kv)) g.

Definition is_too_large (v : viable_quant) : bool :=
  label_has "Too large" (vq_perf v).

Definition verdict_eqb (a b : verdict) : bool :=
  match a, b with
  | GPU_Ready, GPU_Ready | Too_large, Too_large
  | Will_be_slow, Will_be_slow | Ready, Ready => true
  | _, _ => false
  end.

Definition verdict_of (v : viable_quant) : verdict := label_verdict (vq_perf v).

(** The elements of [l] classified [d], in the order of [l]. *)
Definition with_verdict (d : verdict) (l : list viable_quant) : list viable_quant :=
  filter (fun v => verdict_eqb (verdict_of v) d) l.

(** The size of [v] is a number (not a NaN). *)
Definition sized (v : viable_quant) : Prop := is_nan (vq_size v) = false.

(** The files of a listing whose names end in ".gguf" (line 164). *)
Definition gguf_files_of (all_files : list RemoteFile) : list RemoteFile :=
  filter (fun f => endswith (rfilename f) ".gguf") all_files.

Definition size_le (a b : viable_quant) : Prop :=
  (vq_size a <=? vq_size b)%float = true.

(** [r] is an element of [l] of least size. *)
Definition smallest_of (l : list viable_quant) (r : viable_quant) : Prop :=
  In r l /\ forall v, In v l -> size_le r v.

(** [r] is an element of [l] of greatest size. *)
Definition largest_of (l : list viable_quant) (r : viable_quant) : Prop :=
  In r l /\ forall v, In v l -> size_le v r.

(** The rule by which one of the viable quantizations is recommended. *)
Definition recommendation_rule (viable : list viable_quant) (r : viable_quant) : Prop :=
  let all_slow := Forall (fun v => verdict_of v = Will_be_slow) viable in
  let gpu_ready := with_verdict GPU_Ready viable in
  let plain_ready := with_verdict Ready viable in
  let slow := with_verdict Will_be_slow viable in
  (all_slow -> smallest_of viable r)
  /\ (~ all_slow -> gpu_ready <> [] -> largest_of gpu_ready r)
  /\ (~ all_slow -> gpu_ready = [] -> plain_ready <> [] -> largest_of plain_ready r)
  /\ (~ all_slow -> gpu_ready = [] -> plain_ready = [] -> smallest_of slow r).


(** Estimation, classification, grouping and table rendering. *)
Definition is_analysis_step (e : event) : bool :=
  match e with
  | EstimateRam _ _ | PerformanceLabel _ _ _ | GroupSplitFiles _ | PrintPanel _ => true
  | _ => false
  end.

Definition is_print (e : event) : bool :=
  match e with
  | Print _ => true
  | _ => false
  end.

(** What the user gets to see: messages and panels. *)
Definition is_output (e : event) : bool :=
  match e with
  | Print _ | PrintPanel _ => true
  | _ => false
  end.

Definition outputs (t : list event) : list event := filter is_output t.

(** The five things the analyzer can tell the user. *)
Definition is_report (out : list event) : Prop :=
  out = [Print invalid_url_msg]
  \/ out = [Print not_found_title; Print not_found_msg]
  \/ out = [Print no_gguf_msg]
  \/ out = [Print (no_model_files_msg [".safetensors"; ".bin"])]
  \/ exists t, out = [PrintPanel t].

(** The subfolder of lines 155-157: what follows the first "/tree/main/". *)
Definition subfolder_of (path_part : string) : option string :=
  if contains "/tree/main/" path_part then
    match split_max path_part "/tree/main/" 1 with
    | [_; subfolder] => Some subfolder
    | _ => None
    end
  else None.

(** Does the loop of lines 222-226 add the size of [f]? *)
Definition counted (subfolder : option string) (f : RemoteFile) : bool :=
  existsb (endswith (rfilename f)) [".safetensors"; ".bin"]
  && match subfolder with
     | Some (String c p) => startswith (rfilename f) (String c p)
     | _ => true
     end.

(** The calls made by the loop of lines 171-177, in order. *)
Definition scan_events (T : multipliers) (ram_gb vram_gb : float) (items : groups)
  : list event :=
  flat_map (fun kv =>
              let bytes := Float (group_size (snd kv)) in
              [EstimateRam (fst kv) bytes;
               PerformanceLabel (estimate_ram_requirement T (fst kv) bytes)
                                ram_gb vram_gb]) items.

(** The two exceptions the analyzer can end with: the IndexError of
    [parts[1]] and whatever [api.model_info] raises. *)
Definition escaping (exc : string) : Prop := exc = "IndexError" \/ exc = "Exception".

(** A part of the analyzer that has told the user nothing if it goes on
    or raises, and one thing if it returns. *)
Definition step {A} (m : Run A) : Prop :=
  match snd m with
  | Value _ => outputs (fst m) = []
  | Exit Returned => is_report (outputs (fst m))
  | Exit (Raised exc) => outputs (fst m) = [] /\ escaping exc
  end.

(** A part of the analyzer that has told the user one thing unless it
    raises. *)
Definition concluded {A} (m : Run A) : Prop :=
  match snd m with
  | Value _ | Exit Returned => is_report (outputs (fst m))
  | Exit (Raised exc) => outputs (fst m) = [] /\ escaping exc
  end.

(** [s] is [a], then the first occurrence of [sep] in [s], then [b]: no
    occurrence of [sep] in [s] starts further left. *)
Definition first_cut (sep s a b : string) : Prop :=
  s = (a ++ sep ++ b)%string
  /\ forall a' b', s = (a' ++ sep ++ b')%string -> String.length a <= String.length a'.

(** The size variants, in the order in which the grouper looks for them. *)
Definition size_variants : list string := ["_L"; "_M"; "_S"; "_XS"; "_XXS"].

(** The first size variant found in an upper-cased file name; the empty
    string when there is none. *)
Definition first_variant (file_upper : string) : string :=
  match find (fun v => contains v file_upper) size_variants with
  | Some v => v
  | None => ""
  end.

(** The label of a file by the rule of the grouper, stated on the table:
    the first key, in stored order, found in the upper-cased name,
    followed by the first size variant found there; none when no key is
    found or when the label comes out empty. *)
Definition key_label (T : multipliers) (f : RemoteFile) : option string :=
  match first_key T (upper (rfilename f)) with
  | Some (k, _) =>
      match (k ++ first_variant (upper (rfilename f)))%string with
      | EmptyString => None
      | String c r => Some (String c r)
      end
  | None => None
  end.

Definition has_key_label (T : multipliers) (label : string) (f : RemoteFile) : bool :=
  match key_label T f with
  | Some l => String.eqb l label
  | None => false
  end.

(** The labels of the files that have one, in input order. *)
Definition key_labels (T : multipliers) (files : list RemoteFile) : list string :=
  flat_map (fun f => match key_label T f with
                     | Some l => [l]
                     | None => []
                     end) files.




(** A part of the analyzer that does not end with the exception of a
    lookup. *)
Definition no_lookup_exception {A} (m : Run A) : Prop :=
  snd m <> Exit (Raised "Exception").


(* ================================================================== *)
(** ** Sample data *)

Module Sample.

Local Open Scope float_scope.

(** The three files of the specification's worked example. *)
Definition q4_part1 : RemoteFile := mkFile "model-Q4_K_M-00001.gguf" (4 * GiB).
Definition q4_part2 : RemoteFile := mkFile "model-Q4_K_M-00002.gguf" (4 * GiB).
Definition q8_file : RemoteFile := mkFile "model-Q8_0.gguf" (9 * GiB).
Definition example_files : list RemoteFile := [q4_part1; q4_part2; q8_file].

(** A table whose keys carry the size variant, and one with base keys. *)
Definition suffix_keys : multipliers := [("Q4_K_M", 1.3); ("Q8_0", 2)].
Definition base_keys : multipliers := [("Q4_K", 1.3); ("Q8_0", 2)].

(** A table with a lower-case key, and a file whose name holds that key. *)
Definition lower_keys : multipliers := [("q4_k", 1.3)].
Definition lower_file : RemoteFile := mkFile "model-q4_k.gguf" (3 * GiB).

(** A table with an empty key, and a file without a size variant. *)
Definition empty_key : multipliers := [("", 1)].
Definition plain_file : RemoteFile := mkFile "weights.gguf" 5.

(** Three parts of one quantization whose sizes do not add up exactly in
    binary64. *)
Definition huge_files : list RemoteFile :=
  [mkFile "big-Q8_0-1.gguf" (2 ^ 53); mkFile "big-Q8_0-2.gguf" 1;
   mkFile "big-Q8_0-3.gguf" 1].

(** A hub with two public repositories: plain weights, and the GGUF files
    of the worked example; and a machine with 64 GB of RAM and a 12 GB GPU. *)
Definition hub (repo_id : string) (files_metadata : bool) : option (list RemoteFile) :=
  if String.eqb repo_id "org/m" then Some [mkFile "model.safetensors" GiB]
  else if String.eqb repo_id "org/m-GGUF" then Some example_files
  else None.

Definition world : World := mkWorld hub (64, 12).

Definition missing_blob_url : string :=
  "https://huggingface.co/org/m/blob/main/missing.bin".

(** The URL of a file below a subfolder view of org/m. *)
Definition nested_blob_url : string :=
  "https://huggingface.co/org/m/tree/main/sub/blob/main/f.bin".


(** A hub whose repository org/docs-GGUF holds no GGUF file. *)
Definition docs_hub (repo_id : string) (files_metadata : bool)
  : option (list RemoteFile) :=
  if String.eqb repo_id "org/docs-GGUF" then Some [mkFile "README.md" 1024]
  else None.

(** The hub above on a machine with 4 GB of RAM and no GPU. *)
Definition small_world : World := mkWorld hub (4, 0).

End Sample.

(* ================================================================== *)
(** ** Proof automation *)

(** Case analysis on the comparisons of exponents and mantissas in
    [SFcompare]. *)
Ltac sf_cases :=
  repeat match goal with
    | H : context [Z.compare ?a ?b] |- _ => destruct (Z.compare_spec a b); subst
    | |- context [Z.compare ?a ?b] => destruct (Z.compare_spec a b); subst
    | H : context [Pos.compare_cont Eq ?a ?b] |- _ =>
        change (Pos.compare_cont Eq a b) with (Pos.compare a b) in H;
        destruct (Pos.compare_spec a b); subst
    | |- context [Pos.compare_cont Eq ?a ?b] =>
        change (Pos.compare_cont Eq a b) with (Pos.compare a b);
        destruct (Pos.compare_spec a b); subst
    end;
  simpl in *; try reflexivity; try discriminate; try lia.

(* ================================================================== *)
(** ** Strings: substrings and upper case *)

Module PyStrFacts.

Lemma prefix_app (p s : string) :
  prefix p s = true <-> exists r, s = (p ++ r)%string.
Proof.
  revert s; induction p as [|c p IH]; intros s; simpl.
  - split; [exists s; reflexivity | destruct s; reflexivity].
  - destruct s as [|d s].
    + split; [discriminate | intros [r Hr]; discriminate].
    + simpl. destruct (ascii_dec c d) as [->|Hcd].
      * rewrite IH. split; intros [r Hr]; exists r.
        -- now rewrite Hr.
        -- now inversion Hr.
      * split; [discriminate|]. intros [r Hr]. inversion Hr. congruence.
Qed.

(** [needle in hay] holds exactly when [hay] is some text, [needle], and
    some more text. *)
Lemma contains_spec (needle hay : string) :
  contains needle hay = true <->
  exists before after, hay = (before ++ needle ++ after)%string.
Proof.
  induction hay as [|c hay IH]; cbn [contains].
  - destruct (prefix needle "") eqn:E.
    + split; [intros _|reflexivity].
      apply prefix_app in E. destruct E as [r Hr].
      exists "", r. exact Hr.
    + split; [discriminate|]. intros (b & a & H).
      destruct b; [|discriminate]. simpl in H.
      assert (prefix needle "" = true) by (apply prefix_app; eauto).
      congruence.
  - destruct (prefix needle (String c hay)) eqn:E.
    + split; [intros _|reflexivity].
      apply prefix_app in E. destruct E as [r Hr].
      exists "", r. exact Hr.
    + rewrite IH. split.
      * intros (b & a & H). exists (String c b), a. simpl. now rewrite H.
      * intros (b & a & H). destruct b as [|d b].
        -- simpl in H.
           assert (prefix needle (String c hay) = true) by (apply prefix_app; eauto).
           congruence.
        -- inversion H. eauto.
Qed.

Lemma upper_char_not_lower (c : ascii) : is_lower (upper_char c) = false.
Proof.
  destruct c as [[] [] [] [] [] [] [] []]; reflexivity.
Qed.

Lemma upper_char_fixed (c : ascii) : is_lower c = false -> upper_char c = c.
Proof.
  unfold upper_char, is_lower. intros ->. reflexivity.
Qed.

Lemma upper_not_lower (s : string) : has_lower (upper s) = false.
Proof.
  induction s as [|c s IH]; simpl; [reflexivity|].
  now rewrite upper_char_not_lower, IH.
Qed.

Lemma upper_fixed (s : string) : has_lower s = false -> upper s = s.
Proof.
  induction s as [|c s IH]; simpl; [reflexivity|].
  intros H. apply orb_false_iff in H. destruct H as [Hc Hs].
  now rewrite upper_char_fixed, IH.
Qed.

Lemma upper_idempotent (s : string) : upper (upper s) = upper s.
Proof. apply upper_fixed, upper_not_lower. Qed.

Lemma has_lower_app (a b : string) :
  has_lower (a ++ b) = has_lower a || has_lower b.
Proof.
  induction a as [|c a IH]; simpl; [reflexivity|].
  now rewrite IH, orb_assoc.
Qed.

(** A text with a lower-case letter is found in no upper-cased text. *)
Lemma lower_never_in_upper (k s : string) :
  has_lower k = true -> contains k (upper s) = false.
Proof.
  intros Hk. destruct (contains k (upper s)) eqn:E; [|reflexivity].
  apply contains_spec in E. destruct E as (b & a & H).
  pose proof (upper_not_lower s) as Hu.
  rewrite H, !has_lower_app, Hk, orb_true_r in Hu. simpl in Hu. discriminate.
Qed.

Lemma upper_app (a b : string) : upper (a ++ b) = (upper a ++ upper b)%string.
Proof.
  induction a as [|c a IH]; simpl; [reflexivity|]. now rewrite IH.
Qed.

(** Upper-casing keeps occurrences. *)
Lemma contains_upper (k s : string) :
  contains k s = true -> contains (upper k) (upper s) = true.
Proof.
  intros H. apply contains_spec in H. destruct H as (b & a & ->).
  apply contains_spec. exists (upper b), (upper a).
  now rewrite !upper_app.
Qed.

Lemma str_append_assoc (a b c : string) : ((a ++ b) ++ c = a ++ b ++ c)%string.
Proof. induction a as [|x a IH]; simpl; [reflexivity|]. now rewrite IH. Qed.

Lemma str_append_nil (s : string) : (s ++ "")%string = s.
Proof. induction s as [|c s IH]; simpl; [reflexivity|]. now rewrite IH. Qed.

Lemma split_go_nonempty (sep : string) (maxsplit : option nat) (skip : nat)
      (cur s : string) :
  split_go sep maxsplit skip cur s <> [].
Proof.
  revert maxsplit skip cur.
  induction s as [|c s IH]; intros maxsplit skip cur; cbn [split_go].
  - discriminate.
  - destruct skip; [|apply IH].
    destruct maxsplit as [[|n]|]; try discriminate;
      destruct (prefix sep (String c s)); try discriminate; apply IH.
Qed.

Lemma split_go_rest (sep : string) (k : nat) (cur s : string) :
  split_go sep (Some 0) k cur s = [(cur ++ skip_chars k s)%string].
Proof.
  revert k cur. induction s as [|c s IH]; intros k cur; cbn [split_go].
  - destruct k; simpl; now rewrite str_append_nil.
  - destruct k; [reflexivity | apply IH].
Qed.

Lemma skip_chars_app (a b : string) : skip_chars (String.length a) (a ++ b) = b.
Proof. induction a as [|c a IH]; simpl; [destruct b; reflexivity | exact IH]. Qed.

(** [s.split(sep, 1)] of a text that contains [sep] has two parts: what is
    before the first occurrence and what is after it. *)
Lemma split_max_once (sep s : string) :
  sep <> "" -> contains sep s = true ->
  exists a b, split_max s sep 1 = [a; b] /\ s = (a ++ sep ++ b)%string.
Proof.
  intros Hsep. unfold split_max.
  assert (H : forall cur, contains sep s = true ->
            exists a b, split_go sep (Some 1) 0 cur s = [(cur ++ a)%string; b]
                        /\ s = (a ++ sep ++ b)%string).
  { induction s as [|c s IH]; intros cur Hc.
    - cbn [contains] in Hc. destruct sep; [congruence | discriminate].
    - cbn [contains] in Hc. cbn [split_go].
      destruct (prefix sep (String c s)) eqn:E.
      + apply PyStrFacts.prefix_app in E. destruct E as [r Hr].
        exists "", r. split; [|exact Hr].
        rewrite str_append_nil. f_equal. cbn [option_map pred].
        rewrite split_go_rest. simpl. f_equal.
        destruct sep as [|d sep]; [congruence|]. simpl in Hr.
        injection Hr as _ ->. simpl. rewrite Nat.sub_0_r. apply skip_chars_app.
      + destruct (IH (cur ++ String c "")%string Hc) as (a & b & H1 & H2).
        exists (String c a), b. split.
        * rewrite H1. f_equal. now rewrite str_append_assoc.
        * simpl. now rewrite H2. }
  intros Hc. destruct (H "" Hc) as (a & b & H1 & H2). exists a, b. auto.
Qed.

End PyStrFacts.

(* ================================================================== *)
(** ** The text of a performance label *)

Module LabelFacts.

Lemma all_chars_app (p : ascii -> bool) (a b : string) :
  all_chars p (a ++ b) = all_chars p a && all_chars p b.
Proof.
  induction a as [|c a IH]; simpl; [reflexivity|]. now rewrite IH, andb_assoc.
Qed.

Lemma all_chars_weaken (p q : ascii -> bool) (s : string) :
  (forall c, p c = true -> q c = true) -> all_chars p s = true -> all_chars q s = true.
Proof.
  intros Hpq. induction s as [|c s IH]; simpl; [reflexivity|].
  intros H. apply andb_true_iff in H. destruct H as [Hc Hs].
  now rewrite (Hpq c Hc), IH.
Qed.

(** A text with a character that [hay] does not have is not in [hay]. *)
Lemma contains_foreign_char (p : ascii -> bool) (needle hay : string) :
  all_chars p hay = true -> all_chars p needle = false -> contains needle hay = false.
Proof.
  intros Hh Hn. destruct (contains needle hay) eqn:E; [|reflexivity].
  apply PyStrFacts.contains_spec in E. destruct E as (b & a & ->).
  rewrite !all_chars_app, Hn, andb_false_r in Hh. discriminate.
Qed.

(** Two ways of cutting one text. *)
Lemma app_cut (a b x y : string) :
  (a ++ b = x ++ y)%string ->
  exists mid, (x = a ++ mid /\ b = mid ++ y)%string \/ (a = x ++ mid /\ y = mid ++ b)%string.
Proof.
  revert x. induction a as [|c a IH]; intros x H; simpl in *.
  - exists x. left. auto.
  - destruct x as [|d x]; simpl in *.
    + exists (String c a). right. auto.
    + injection H as -> H. destruct (IH x H) as [mid [[-> ->]|[-> ->]]];
        exists mid; [left | right]; auto.
Qed.

Lemma char_in_app (c : ascii) (a b : string) :
  char_in c (a ++ b) = char_in c a || char_in c b.
Proof.
  induction a as [|x a IH]; simpl; [reflexivity|]. now rewrite IH, orb_assoc.
Qed.

(** The last character of a text is in each of its non-empty ends. *)
Lemma last_char_in_end (a pre mid : string) (c : ascii) :
  (a ++ String c "" = pre ++ mid)%string -> mid <> "" -> char_in c mid = true.
Proof.
  revert pre. induction a as [|y a IH]; intros pre H Hmid; simpl in H.
  - destruct pre as [|x pre]; simpl in H.
    + subst mid. simpl. now rewrite Ascii.eqb_refl.
    + injection H as _ H. destruct pre, mid; simpl in H; congruence.
  - destruct pre as [|x pre]; simpl in H.
    + subst mid. simpl. rewrite char_in_app. simpl.
      now rewrite Ascii.eqb_refl, !orb_true_r.
    + injection H as _ H. eauto.
Qed.

(** An occurrence of [needle] in [a ++ b] lies in [a] or in [b] when [a]
    ends with a character that [needle] does not have. *)
Lemma contains_across (needle a b : string) (c : ascii) :
  char_in c needle = false ->
  contains needle ((a ++ String c "") ++ b)
  = contains needle (a ++ String c "") || contains needle b.
Proof.
  intros Hc. apply eq_true_iff_eq. rewrite orb_true_iff. split.
  - intros H. apply PyStrFacts.contains_spec in H. destruct H as (pre & post & H).
    destruct (app_cut _ _ _ _ H) as [mid [[-> Hb]|[Ha Hpost]]].
    + right. apply PyStrFacts.contains_spec. exists mid, post. exact Hb.
    + destruct (app_cut _ _ _ _ Hpost) as [mid' [[-> ->]|[-> ->]]].
      * left. apply PyStrFacts.contains_spec. exists pre, mid'. exact Ha.
      * destruct mid as [|d mid].
        -- right. apply PyStrFacts.contains_spec. exists "", post. reflexivity.
        -- exfalso. rewrite char_in_app in Hc. apply orb_false_iff in Hc.
           destruct Hc as [Hc _].
           rewrite (last_char_in_end a pre (String d mid) c Ha) in Hc; discriminate.
  - intros [H|H]; apply PyStrFacts.contains_spec in H; destruct H as (pre & post & H);
      apply PyStrFacts.contains_spec.
    + exists pre, (post ++ b)%string. rewrite H. now rewrite !PyStrFacts.str_append_assoc.
    + exists ((a ++ String c "") ++ pre)%string, post. rewrite H.
      now rewrite !PyStrFacts.str_append_assoc.
Qed.

Section LabelTextFacts.

Variable fmt : float -> string.
Hypothesis fmt_numeric : forall x, all_chars numeric_char (fmt x) = true.

Lemma label_tail_chars (p : perf_label) : all_chars tail_char (label_tail fmt p) = true.
Proof.
  assert (Hnum : forall x, all_chars tail_char (fmt x) = true).
  { intros x. apply (all_chars_weaken numeric_char); [|apply fmt_numeric].
    intros [[] [] [] [] [] [] [] []]; simpl; intros H; try discriminate H; reflexivity. }
  unfold label_tail. rewrite !all_chars_app, !Hnum.
  destruct (label_verdict p); reflexivity.
Qed.

(** The five words the analyzer looks for are in the whole label exactly
    when they are in its markup. *)
Lemma label_has_text (word : string) (p : perf_label) :
  In word ["Too large"; "GPU-Ready"; "Ready"; "Will be slow"; "slow"] ->
  contains word (label_text fmt p) = label_has word p.
Proof.
  intros Hw. unfold label_text, label_has.
  assert (Htail : contains word (label_tail fmt p) = false).
  { apply (contains_foreign_char tail_char); [apply label_tail_chars|].
    simpl in Hw. decompose [or] Hw; subst; try reflexivity. contradiction. }
  assert (Hsplit : exists a, label_markup (label_verdict p) = (a ++ String "]" "")%string).
  { destruct (label_verdict p); simpl;
      [exists "[green]GPU-Ready[/green" | exists "[red]Too large[/red"
       | exists "[yellow]Will be slow[/yellow" | exists "[green]Ready[/green"];
      reflexivity. }
  destruct Hsplit as [a Ha]. rewrite Ha, contains_across, Htail, orb_false_r.
  - reflexivity.
  - simpl in Hw. decompose [or] Hw; subst; try reflexivity. contradiction.
Qed.

End LabelTextFacts.

(** The same for a formatter that prints every figure as "0.00". *)
Example label_has_text_constant (p : perf_label) :
  contains "Ready" (label_text (fun _ => "0.00") p) = label_has "Ready" p.
Proof.
  apply label_has_text; [reflexivity | simpl; auto].
Qed.

End LabelFacts.

(* ================================================================== *)
(** ** Order of binary64 numbers *)

Module PyFloatFacts.

Local Open Scope float_scope.

Lemma SFleb_trans (x y z : spec_float) :
  SFleb x y = true -> SFleb y z = true -> SFleb x z = true.
Proof.
  unfold SFleb, SFcompare.
  destruct x as [[]|[]| |[] mx ex], y as [[]|[]| |[] my ey], z as [[]|[]| |[] mz ez];
    simpl; intros Hxy Hyz; try reflexivity; try discriminate; sf_cases.
Qed.

Lemma SFltb_false_leb (x y : spec_float) :
  sf_is_nan x = false -> sf_is_nan y = false ->
  SFltb x y = false -> SFleb y x = true.
Proof.
  unfold SFleb, SFltb, SFcompare.
  destruct x as [[]|[]| |[] mx ex], y as [[]|[]| |[] my ey];
    simpl; intros Hx Hy H; try reflexivity; try discriminate; sf_cases.
Qed.

Lemma SFltb_leb (x y : spec_float) : SFltb x y = true -> SFleb x y = true.
Proof.
  unfold SFleb, SFltb. destruct (SFcompare x y) as [[]|]; easy.
Qed.

Lemma SFleb_refl (x : spec_float) : sf_is_nan x = false -> SFleb x x = true.
Proof.
  unfold SFleb, SFcompare.
  destruct x as [[]|[]| |[] mx ex]; simpl; intros H;
    try reflexivity; try discriminate; sf_cases.
Qed.

(** The same on primitive floats, through their specification. *)

Lemma is_nan_spec (x : float) : is_nan x = sf_is_nan (Prim2SF x).
Proof.
  unfold is_nan. rewrite eqb_spec. unfold SFeqb.
  destruct (Prim2SF x) as [[]|[]| |[] m e] eqn:E; simpl; try reflexivity.
  all: rewrite Z.compare_refl;
    change (Pos.compare_cont Eq m m) with (Pos.compare m m);
    rewrite Pos.compare_refl; reflexivity.
Qed.

Lemma leb_trans (x y z : float) :
  (x <=? y) = true -> (y <=? z) = true -> (x <=? z) = true.
Proof. rewrite !leb_spec. apply SFleb_trans. Qed.

Lemma ltb_false_leb (x y : float) :
  is_nan x = false -> is_nan y = false -> (x <? y) = false -> (y <=? x) = true.
Proof. rewrite !is_nan_spec, ltb_spec, leb_spec. apply SFltb_false_leb. Qed.

Lemma ltb_leb (x y : float) : (x <? y) = true -> (x <=? y) = true.
Proof. rewrite ltb_spec, leb_spec. apply SFltb_leb. Qed.

Lemma leb_refl (x : float) : is_nan x = false -> (x <=? x) = true.
Proof. rewrite is_nan_spec, leb_spec. apply SFleb_refl. Qed.

(** Two floats are different when their specifications are. *)
Lemma neq_by_spec (x y : float) : Prim2SF x <> Prim2SF y -> x <> y.
Proof. intros H E. apply H. now rewrite E. Qed.

End PyFloatFacts.

(* ================================================================== *)
(** ** Binary64: sums of sizes *)

Module Binary64Facts.

Local Open Scope Z_scope.

(** *** Sums of non-negative numbers are numbers *)

Lemma shr_1_nonneg (mrs : shr_record) : 0 <= shr_m mrs -> 0 <= shr_m (shr_1 mrs).
Proof.
  destruct mrs as [m r s]. simpl.
  destruct m as [|[p|p|]|[p|p|]]; simpl; lia.
Qed.

Lemma iter_pos_invariant {A} (P : A -> Prop) (f : A -> A) :
  (forall x, P x -> P (f x)) -> forall n x, P x -> P (iter_pos f n x).
Proof.
  intros Hf. induction n as [n IH|n IH|]; intros x Hx; simpl; auto.
Qed.

Lemma shr_nonneg (mrs : shr_record) (e n : Z) :
  0 <= shr_m mrs -> 0 <= shr_m (fst (shr mrs e n)).
Proof.
  intros H. destruct n; simpl; auto.
  apply (iter_pos_invariant (fun r => 0 <= shr_m r)); auto using shr_1_nonneg.
Qed.

Lemma shr_fexp_nonneg (m e : Z) (l : location) :
  0 <= m -> 0 <= shr_m (fst (shr_fexp prec emax m e l)).
Proof.
  intros H. unfold shr_fexp. apply shr_nonneg.
  destruct l as [|[]]; simpl; exact H.
Qed.

Lemma round_nearest_even_nonneg (m : Z) (l : location) :
  0 <= m -> 0 <= round_nearest_even m l.
Proof.
  intros H. destruct l as [|[]]; simpl; try lia.
  destruct (Z.even m); lia.
Qed.

Lemma binary_round_aux_nonneg (m e : Z) (l : location) :
  0 <= m -> sf_nonneg (binary_round_aux prec emax false m e l) = true.
Proof.
  intros H. unfold binary_round_aux.
  pose proof (shr_fexp_nonneg m e l H) as H1.
  destruct (shr_fexp prec emax m e l) as [mrs' e']. simpl in H1.
  pose proof (shr_fexp_nonneg _ e' loc_Exact
                (round_nearest_even_nonneg _ (loc_of_shr_record mrs') H1)) as H2.
  destruct (shr_fexp prec emax _ e' loc_Exact) as [mrs'' e'']. simpl in H2.
  destruct (shr_m mrs'') as [|p|p]; simpl; try reflexivity; [|lia].
  destruct (_ <=? _); reflexivity.
Qed.

Lemma binary_round_nonneg (m : positive) (e : Z) :
  sf_nonneg (binary_round prec emax false m e) = true.
Proof.
  unfold binary_round. destruct (shl_align m e _) as [mz ez].
  apply binary_round_aux_nonneg. lia.
Qed.

Lemma binary_normalize_nonneg (m e : Z) :
  0 <= m -> sf_nonneg (binary_normalize prec emax m e false) = true.
Proof.
  intros H. destruct m as [|p|p]; simpl; [reflexivity | apply binary_round_nonneg | lia].
Qed.

Lemma SFadd_nonneg (x y : spec_float) :
  sf_nonneg x = true -> sf_nonneg y = true -> sf_nonneg (SFadd prec emax x y) = true.
Proof.
  destruct x as [sx|[]| |[] mx ex], y as [sy|[]| |[] my ey]; simpl;
    try discriminate; try reflexivity; intros _ _.
  - destruct sx, sy; reflexivity.
  - apply binary_round_nonneg.
Qed.

Lemma SFdiv_nonneg (x y : spec_float) (my : positive) (ey : Z) :
  sf_nonneg x = true -> y = S754_finite false my ey ->
  sf_nonneg (SFdiv prec emax x y) = true.
Proof.
  intros Hx ->. destruct x as [sx|[]| |[] mx ex]; simpl in *;
    try discriminate; try reflexivity.
  unfold SFdiv_core_binary.
  set (m' := match _ with Z0 => _ | Zpos _ => _ | Zneg _ => _ end).
  assert (Hm' : 0 <= m').
  { subst m'. destruct (_ - _ - _) eqn:E; try lia.
    apply Z.shiftl_nonneg. lia. }
  pose proof (Z_div_mod m' (Zpos my) eq_refl) as Hdiv.
  destruct (Z.div_eucl m' (Zpos my)) as [q r].
  apply binary_round_aux_nonneg. nia.
Qed.

Lemma SFldexp_nonneg (x : spec_float) (e : Z) :
  sf_nonneg x = true -> sf_nonneg (SFldexp prec emax x e) = true.
Proof.
  destruct x as [sx|[]| |[] mx ex]; simpl; try discriminate; try reflexivity.
  intros _. apply binary_round_nonneg.
Qed.

Local Open Scope float_scope.

Lemma SF2Prim_nonneg (x : spec_float) : sf_nonneg x = true -> nonneg (SF2Prim x).
Proof.
  unfold nonneg. destruct x as [[]|[]| |[] m e]; simpl; try discriminate;
    intros _; try reflexivity.
  rewrite Z_ldexp_spec, of_uint63_spec.
  apply SFldexp_nonneg, binary_normalize_nonneg.
  apply Uint63.to_Z_bounded.
Qed.

Lemma float_of_int_nonneg (z : Z) : (0 <= z)%Z -> nonneg (float_of_int z).
Proof.
  intros H. apply SF2Prim_nonneg, binary_normalize_nonneg, H.
Qed.

Lemma add_nonneg (x y : float) : nonneg x -> nonneg y -> nonneg (x + y).
Proof. unfold nonneg. rewrite add_spec. apply SFadd_nonneg. Qed.

Lemma nonneg_not_nan (x : float) : nonneg x -> is_nan x = false.
Proof.
  unfold nonneg, is_nan. rewrite eqb_spec. unfold SFeqb.
  destruct (Prim2SF x) as [[]|[]| |[] m e]; simpl; try discriminate; try reflexivity.
  intros _. rewrite Z.compare_refl.
  change (Pos.compare_cont Eq m m) with (Pos.compare m m).
  now rewrite Pos.compare_refl.
Qed.

Local Close Scope float_scope.

(** *** Whole numbers below 2^53 add without rounding *)

Lemma iter_pos_nat {A} (f : A -> A) (n : positive) (x : A) :
  iter_pos f n x = Nat.iter (Pos.to_nat n) f x.
Proof.
  revert x. induction n as [n IH|n IH|]; intros x; cbn [iter_pos].
  - rewrite !IH, Pos2Nat.inj_xI.
    replace (S (2 * Pos.to_nat n))%nat with (S (Pos.to_nat n + Pos.to_nat n))%nat by lia.
    now rewrite Nat.iter_succ_r, Nat.iter_add.
  - rewrite !IH, Pos2Nat.inj_xO.
    replace (2 * Pos.to_nat n)%nat with (Pos.to_nat n + Pos.to_nat n)%nat by lia.
    now rewrite Nat.iter_add.
  - reflexivity.
Qed.

Lemma pos_iter_shl (p n : positive) : Pos.iter xO p n = shl p (Pos.to_nat n).
Proof. unfold shl. now rewrite Pos2Nat.inj_iter. Qed.

Lemma shl_succ (p : positive) (k : nat) : shl p (S k) = xO (shl p k).
Proof. reflexivity. Qed.

Lemma shl_value (p : positive) (k : nat) : Zpos (shl p k) = Zpos p * 2 ^ Z.of_nat k.
Proof.
  induction k as [|k IH]; [simpl; lia|].
  rewrite shl_succ, Pos2Z.inj_xO, IH, Nat2Z.inj_succ, Z.pow_succ_r; lia.
Qed.

Lemma shl_digits (p : positive) (k : nat) :
  Zpos (digits2_pos (shl p k)) = Zpos (digits2_pos p) + Z.of_nat k.
Proof.
  induction k as [|k IH]; [simpl; lia|].
  rewrite shl_succ. cbn [digits2_pos]. rewrite Pos2Z.inj_succ, IH. lia.
Qed.

Lemma shr_shl (p : positive) (k : nat) :
  Nat.iter k shr_1 (Build_shr_record (Zpos (shl p k)) false false)
  = Build_shr_record (Zpos p) false false.
Proof.
  induction k as [|k IH]; [reflexivity|].
  rewrite Nat.iter_succ_r, shl_succ. exact IH.
Qed.

Lemma digits2_pos_bounds (p : positive) :
  2 ^ (Zpos (digits2_pos p) - 1) <= Zpos p < 2 ^ Zpos (digits2_pos p).
Proof.
  induction p as [p IH|p IH|]; cbn [digits2_pos]; [| |simpl; lia].
  all: rewrite Pos2Z.inj_succ;
    replace (Z.succ (Zpos (digits2_pos p)) - 1) with (Z.succ (Zpos (digits2_pos p) - 1)) by lia;
    rewrite !Z.pow_succ_r by lia; lia.
Qed.

(** A positive number is determined by its value: shifting back. *)
Lemma shl_inj_value (p q : positive) (k : nat) :
  Zpos q = Zpos p * 2 ^ Z.of_nat k -> q = shl p k.
Proof. intros H. apply Pos2Z.inj. now rewrite shl_value. Qed.

(** *** Rounding a number that needs none *)

Lemma shr_fexp_exact (m : positive) (e : Z) :
  digits2_pos m = 53%positive -> -1074 <= e <= 971 ->
  shr_fexp prec emax (Zpos m) e loc_Exact
  = (Build_shr_record (Zpos m) false false, e).
Proof.
  intros Hd He. unfold shr_fexp, shr. cbn [Zdigits2]. rewrite Hd.
  replace (fexp prec emax (53 + e) - e) with 0; [reflexivity|].
  unfold fexp, emin, prec, emax. lia.
Qed.

Lemma binary_round_aux_exact (m : positive) (e : Z) :
  digits2_pos m = 53%positive -> -1074 <= e <= 971 ->
  binary_round_aux prec emax false (Zpos m) e loc_Exact = S754_finite false m e.
Proof.
  intros Hd He. unfold binary_round_aux.
  pose proof (shr_fexp_exact m e Hd He) as Hs.
  rewrite Hs. cbn [shr_m loc_of_shr_record round_nearest_even]. rewrite Hs.
  cbn [shr_m]. unfold prec, emax.
  destruct (Z.leb_spec e (1024 - 53)); [reflexivity | lia].
Qed.

(** [M * 2^E] is the number [m * 2^e] with [m] of 53 bits: rounding it
    gives [m], [e]. *)
Lemma binary_round_exact (M : positive) (E : Z) (m : positive) (e : Z) :
  digits2_pos m = 53%positive -> -1074 <= e <= 971 ->
  Zpos M * 2 ^ (E - Z.min E e) = Zpos m * 2 ^ (e - Z.min E e) ->
  binary_round prec emax false M E = S754_finite false m e.
Proof.
  intros Hd He Heq. unfold binary_round.
  destruct (Z.le_gt_cases e E) as [Hle|Hgt].
  - (* the mantissa is shifted left *)
    rewrite Z.min_r in Heq by lia. rewrite Z.sub_diag, Z.mul_1_r in Heq.
    assert (Hm : m = shl M (Z.to_nat (E - e))).
    { apply shl_inj_value. rewrite Z2Nat.id by lia. lia. }
    assert (HdM : Zpos (digits2_pos M) + E = 53 + e).
    { pose proof (shl_digits M (Z.to_nat (E - e))) as H.
      rewrite <- Hm, Hd, Z2Nat.id in H by lia. lia. }
    rewrite HdM.
    replace (fexp prec emax (53 + e)) with e
      by (unfold fexp, emin, prec, emax; lia).
    unfold shl_align.
    destruct (e - E) as [|d|d] eqn:Ed; try lia.
    + assert (E = e) by lia. subst E. rewrite Z.sub_diag in Hm. simpl in Hm.
      subst m. now apply binary_round_aux_exact.
    + rewrite pos_iter_shl.
      replace (Pos.to_nat d) with (Z.to_nat (E - e))
        by (replace (E - e) with (Zpos d) by lia; apply Z2Nat.inj_pos).
      rewrite <- Hm. now apply binary_round_aux_exact.
  - (* the mantissa is shifted right, exactly *)
    rewrite Z.min_l in Heq by lia. rewrite Z.sub_diag, Z.mul_1_r in Heq.
    assert (HM : M = shl m (Z.to_nat (e - E))).
    { apply shl_inj_value. rewrite Z2Nat.id by lia. lia. }
    assert (HdM : Zpos (digits2_pos M) + E = 53 + e).
    { pose proof (shl_digits m (Z.to_nat (e - E))) as H.
      rewrite <- HM, Hd, Z2Nat.id in H by lia. lia. }
    rewrite HdM.
    replace (fexp prec emax (53 + e)) with e
      by (unfold fexp, emin, prec, emax; lia).
    unfold shl_align.
    destruct (e - E) as [|d|d] eqn:Ed; try lia.
    unfold binary_round_aux.
    assert (Hs : shr_fexp prec emax (Zpos M) E loc_Exact
                 = (Build_shr_record (Zpos m) false false, e)).
    { unfold shr_fexp. cbn [Zdigits2]. rewrite HdM.
      replace (fexp prec emax (53 + e) - E) with (Zpos d)
        by (unfold fexp, emin, prec, emax; lia).
      unfold shr. rewrite iter_pos_nat. cbn [shr_record_of_loc].
      rewrite HM. replace (Z.to_nat (Zpos d)) with (Pos.to_nat d) by reflexivity.
      rewrite shr_shl. f_equal. lia. }
    rewrite Hs. cbn [shr_m loc_of_shr_record round_nearest_even].
    rewrite (shr_fexp_exact m e Hd He). cbn [shr_m]. unfold prec, emax.
    destruct (Z.leb_spec e (1024 - 53)); [reflexivity | lia].
Qed.

Lemma digits2_pos_le (a b : positive) :
  Zpos a <= Zpos b -> Zpos (digits2_pos a) <= Zpos (digits2_pos b).
Proof.
  intros H. pose proof (digits2_pos_bounds a) as [Ha _].
  pose proof (digits2_pos_bounds b) as [_ Hb].
  assert (Hlt : 2 ^ (Zpos (digits2_pos a) - 1) < 2 ^ Zpos (digits2_pos b)) by lia.
  apply Z.pow_lt_mono_r_iff in Hlt; lia.
Qed.

Lemma digits2_pos_small (n : positive) :
  Zpos n < 2 ^ 53 -> Zpos (digits2_pos n) <= 53.
Proof.
  intros H. pose proof (digits2_pos_bounds n) as [Hn _].
  assert (Hlt : 2 ^ (Zpos (digits2_pos n) - 1) < 2 ^ 53) by lia.
  apply Z.pow_lt_mono_r_iff in Hlt; lia.
Qed.

Lemma canon_facts (n : positive) :
  Zpos n < 2 ^ 53 ->
  digits2_pos (canon_m n) = 53%positive
  /\ -52 <= canon_e n <= 0
  /\ Zpos (canon_m n) = Zpos n * 2 ^ (- canon_e n).
Proof.
  intros H. pose proof (digits2_pos_small n H) as Hd.
  unfold canon_m, canon_e. split; [|split].
  - apply Pos2Z.inj. rewrite shl_digits, Z2Nat.id by lia. lia.
  - lia.
  - rewrite shl_value, Z2Nat.id by lia. repeat f_equal; lia.
Qed.

Lemma binary_normalize_canon (n : positive) :
  Zpos n < 2 ^ 53 ->
  binary_normalize prec emax (Zpos n) 0 false
  = S754_finite false (canon_m n) (canon_e n).
Proof.
  intros H. destruct (canon_facts n H) as (Hd & He & Hv).
  cbn [binary_normalize]. apply binary_round_exact; [exact Hd | lia |].
  rewrite Z.min_r by lia. rewrite Z.sub_diag, Z.mul_1_r, Hv. repeat f_equal; lia.
Qed.

Lemma canon_valid (n : positive) :
  Zpos n < 2 ^ 53 ->
  valid_binary (S754_finite false (canon_m n) (canon_e n)) = true.
Proof.
  intros H. destruct (canon_facts n H) as (Hd & He & _).
  unfold SpecFloat.valid_binary, bounded, canonical_mantissa. rewrite Hd.
  apply andb_true_iff. split.
  - apply Z.eqb_eq. unfold fexp, emin, prec, emax. lia.
  - apply Z.leb_le. unfold prec, emax. lia.
Qed.

Lemma shl_align_value (m : positive) (e ez : Z) :
  ez <= e -> Zpos (fst (shl_align m e ez)) = Zpos m * 2 ^ (e - ez).
Proof.
  intros H. unfold shl_align. destruct (ez - e) as [|d|d] eqn:E; try lia.
  - replace (e - ez) with 0 by lia. simpl. lia.
  - cbn [fst]. rewrite pos_iter_shl, shl_value, positive_nat_Z. repeat f_equal; lia.
Qed.

(** Adding two whole numbers whose sum is below 2^53 rounds nothing. *)
Lemma SF64add_exact (a b : positive) :
  Zpos a + Zpos b < 2 ^ 53 ->
  SF64add (binary_normalize prec emax (Zpos a) 0 false)
          (binary_normalize prec emax (Zpos b) 0 false)
  = binary_normalize prec emax (Zpos a + Zpos b) 0 false.
Proof.
  intros H.
  assert (Ha : Zpos a < 2 ^ 53) by lia. assert (Hb : Zpos b < 2 ^ 53) by lia.
  change (Zpos a + Zpos b) with (Zpos (a + b)) in *.
  rewrite !binary_normalize_canon by assumption.
  destruct (canon_facts a Ha) as (_ & Hea & Hva).
  destruct (canon_facts b Hb) as (_ & Heb & Hvb).
  destruct (canon_facts (a + b) H) as (Hds & Hes & Hvs).
  assert (Hda : canon_e a <= canon_e (a + b))
    by (unfold canon_e; pose proof (digits2_pos_le a (a + b)); lia).
  assert (Hdb : canon_e b <= canon_e (a + b))
    by (unfold canon_e; pose proof (digits2_pos_le b (a + b)); lia).
  unfold SF64add, SFadd. cbn [cond_Zopp].
  set (ez := Z.min (canon_e a) (canon_e b)).
  assert (Hez : ez <= canon_e a /\ ez <= canon_e b /\ ez <= canon_e (a + b)
                /\ -52 <= ez) by (subst ez; lia).
  destruct Hez as (Hza & Hzb & Hzs & Hz0).
  change (Zpos ?x + Zpos ?y) with (Zpos (x + y)). cbn [binary_normalize].
  apply binary_round_exact; [exact Hds | lia |].
  rewrite Z.min_l by lia. rewrite Z.sub_diag, Z.mul_1_r.
  rewrite Pos2Z.inj_add, !shl_align_value by assumption.
  rewrite Hva, Hvb, Hvs, Pos2Z.inj_add.
  rewrite <- !Z.mul_assoc, <- !Z.pow_add_r by lia.
  replace (- canon_e a + (canon_e a - ez)) with (- ez) by lia.
  replace (- canon_e b + (canon_e b - ez)) with (- ez) by lia.
  replace (- canon_e (a + b) + (canon_e (a + b) - ez)) with (- ez) by lia.
  lia.
Qed.

Local Open Scope float_scope.

Lemma float_of_int_spec (n : Z) :
  (0 <= n < 2 ^ 53)%Z ->
  Prim2SF (float_of_int n) = binary_normalize prec emax n 0 false.
Proof.
  intros H. unfold float_of_int. apply Prim2SF_SF2Prim.
  destruct n as [|p|p]; [reflexivity | | lia].
  rewrite binary_normalize_canon by lia. apply canon_valid. lia.
Qed.

Lemma float_of_int_add (a b : Z) :
  (0 <= a)%Z -> (0 <= b)%Z -> (a + b < 2 ^ 53)%Z ->
  float_of_int a + float_of_int b = float_of_int (a + b).
Proof.
  intros Ha Hb H. apply Prim2SF_inj.
  rewrite FloatAxioms.add_spec, !float_of_int_spec by lia.
  destruct a as [|p|p], b as [|q|q]; try lia.
  - reflexivity.
  - cbn [Z.add]. rewrite binary_normalize_canon by lia. reflexivity.
  - rewrite Z.add_0_r. rewrite binary_normalize_canon by lia. reflexivity.
  - apply SF64add_exact. exact H.
Qed.

End Binary64Facts.

(* ================================================================== *)
(** ** The grouper in closed form *)

Section GrouperFacts.

Variable T : multipliers.

Lemma find_quant_type_first_key (file_upper : string) (items : multipliers) :
  find_quant_type file_upper (map fst items) =
  option_map (fun kv => (fst kv ++ size_variant_of file_upper)%string)
             (find (fun kv => contains (fst kv) file_upper) items).
Proof.
  induction items as [|[k m] items IH]; simpl; [reflexivity|].
  destruct (contains k file_upper); [reflexivity | exact IH].
Qed.

Lemma find_none_existsb {A} (p : A -> bool) (l : list A) :
  find p l = None <-> existsb p l = false.
Proof.
  induction l as [|x l IH]; simpl; [tauto|].
  destruct (p x); simpl; [split; discriminate | exact IH].
Qed.

(** [find] returns the first element, in list order, that passes. *)
Lemma find_first {A} (p : A -> bool) (l : list A) (x : A) :
  find p l = Some x <->
  exists before after,
    l = before ++ x :: after /\ p x = true /\ forallb (fun y => negb (p y)) before = true.
Proof.
  induction l as [|y l IH]; simpl.
  - split; [discriminate|]. intros (b & a & H & _). destruct b; discriminate.
  - destruct (p y) eqn:Ey.
    + split.
      * intros [= ->]. exists [], l. auto.
      * intros (b & a & H & Hx & Hb). destruct b as [|z b]; simpl in *.
        -- congruence.
        -- injection H as -> _. rewrite Ey in Hb. discriminate.
    + rewrite IH. split.
      * intros (b & a & -> & Hx & Hb). exists (y :: b), a. simpl.
        now rewrite Ey.
      * intros (b & a & H & Hx & Hb). destruct b as [|z b]; simpl in *.
        -- injection H as -> _. congruence.
        -- injection H as -> ->. apply andb_true_iff in Hb. destruct Hb. eauto.
Qed.

Lemma unmatched_no_label (f : RemoteFile) :
  matches_some_key T f = false -> grouped_label T f = None.
Proof.
  unfold matches_some_key, grouped_label, quant_type_of. intros H.
  rewrite find_quant_type_first_key.
  apply find_none_existsb in H. now rewrite H.
Qed.

(** One turn of the grouper's loop, by the label of the file. *)
Lemma group_step_label (grouped : groups) (f : RemoteFile) :
  group_step T grouped f =
  match grouped_label T f with
  | Some l =>
      dict_update l (add_file f)
        (if dict_mem l grouped then grouped else grouped ++ [(l, mkGroup 0 [])])
  | None => grouped
  end.
Proof.
  unfold group_step, grouped_label.
  destruct (quant_type_of T f) as [[|c r]|]; reflexivity.
Qed.

Lemma str_in_In (x : string) (l : list string) : str_in x l = true <-> In x l.
Proof.
  unfold str_in. rewrite existsb_exists. split.
  - intros (y & Hy & E). apply String.eqb_eq in E. now subst.
  - intros H. exists x. split; [exact H | apply String.eqb_refl].
Qed.

Lemma first_occurrences_In (x : string) (l : list string) :
  In x (first_occurrences l) <-> In x l.
Proof.
  induction l as [|y l IH]; simpl; [tauto|].
  rewrite filter_In, IH. destruct (String.eqb_spec x y) as [->|Hne]; simpl.
  - tauto.
  - split; [tauto|]. intros [E|H]; [congruence | right; now split].
Qed.

Lemma first_occurrences_NoDup (l : list string) : NoDup (first_occurrences l).
Proof.
  induction l as [|y l IH]; simpl; constructor.
  - rewrite filter_In. intros [_ H]. now rewrite String.eqb_refl in H.
  - now apply NoDup_filter.
Qed.

Lemma str_in_first_occurrences (x : string) (l : list string) :
  str_in x (first_occurrences l) = str_in x l.
Proof.
  apply eq_true_iff_eq. rewrite !str_in_In. apply first_occurrences_In.
Qed.

Lemma first_occurrences_snoc (l : list string) (x : string) :
  first_occurrences (l ++ [x]) =
  if str_in x l then first_occurrences l else first_occurrences l ++ [x].
Proof.
  induction l as [|y l IH]; simpl; [reflexivity|].
  rewrite IH. unfold str_in in *. simpl.
  destruct (String.eqb_spec x y) as [->|Hne]; simpl.
  - destruct (existsb (String.eqb y) l); [reflexivity|].
    rewrite filter_app. simpl. rewrite String.eqb_refl. simpl.
    now rewrite app_nil_r.
  - destruct (existsb (String.eqb x) l); [reflexivity|].
    rewrite filter_app. simpl.
    destruct (String.eqb_spec x y); [congruence|]. reflexivity.
Qed.

Lemma dict_mem_map (G : string -> Group) (k : string) (keys : list string) :
  dict_mem k (map (fun l => (l, G l)) keys) = str_in k keys.
Proof.
  unfold dict_mem, str_in. induction keys as [|x keys IH]; simpl; [reflexivity|].
  now rewrite IH.
Qed.

Lemma dict_update_map (G : string -> Group) (change : Group -> Group)
      (k : string) (keys : list string) :
  NoDup keys ->
  dict_update k change (map (fun l => (l, G l)) keys) =
  map (fun l => (l, if String.eqb k l then change (G l) else G l)) keys.
Proof.
  induction 1 as [|x keys Hx Hnd IH]; simpl; [reflexivity|].
  destruct (String.eqb_spec k x) as [->|Hne].
  - f_equal. apply map_ext_in. intros l Hl.
    destruct (String.eqb_spec x l); [congruence | reflexivity].
  - now rewrite IH.
Qed.

Lemma dict_update_new (k : string) (change : Group -> Group) (g : Group) (d : groups) :
  dict_mem k d = false ->
  dict_update k change (d ++ [(k, g)]) = d ++ [(k, change g)].
Proof.
  unfold dict_mem. induction d as [|[k' g'] d IH]; simpl.
  - now rewrite String.eqb_refl.
  - intros H. apply orb_false_iff in H. destruct H as [Hk Hd].
    rewrite Hk. now rewrite IH.
Qed.

Lemma labels_of_snoc (files : list RemoteFile) (f : RemoteFile) :
  labels_of T (files ++ [f]) =
  labels_of T files ++ match grouped_label T f with Some l => [l] | None => [] end.
Proof.
  unfold labels_of. rewrite flat_map_app. simpl. now rewrite app_nil_r.
Qed.

Lemma members_snoc (label : string) (files : list RemoteFile) (f : RemoteFile) :
  members T label (files ++ [f]) =
  members T label files ++ (if has_label T label f then [f] else []).
Proof.
  unfold members. rewrite filter_app. simpl.
  destruct (has_label T label f); reflexivity.
Qed.

Lemma members_nil_unless_label (label : string) (files : list RemoteFile) :
  str_in label (labels_of T files) = false -> members T label files = [].
Proof.
  induction files as [|f files IH]; simpl; [reflexivity|].
  unfold labels_of in *. simpl. unfold has_label.
  destruct (grouped_label T f) as [l|]; simpl.
  - unfold str_in in *. simpl. rewrite String.eqb_sym.
    destruct (String.eqb l label); simpl; [discriminate | exact IH].
  - exact IH.
Qed.

Lemma float_sum_snoc (files : list RemoteFile) (f : RemoteFile) :
  float_sum (files ++ [f]) = (float_sum files + float_of_int (size f))%float.
Proof. unfold float_sum. now rewrite fold_left_app. Qed.

(** The dict the grouper returns: one group per label, in the order of
    the labels' first occurrences, each with the files of its label. *)
Lemma group_split_files_closed_form (files : list RemoteFile) :
  group_split_files T files =
  map (group_of T files) (first_occurrences (labels_of T files)).
Proof.
  unfold group_split_files.
  induction files as [|f files IH] using rev_ind; [reflexivity|].
  rewrite fold_left_app. simpl. rewrite IH, group_step_label, labels_of_snoc.
  set (G := fun l => mkGroup (float_sum (members T l files)) (members T l files)).
  change (group_of T files) with (fun l => (l, G l)).
  destruct (grouped_label T f) as [l|] eqn:El.
  - rewrite dict_mem_map, str_in_first_occurrences, first_occurrences_snoc.
    destruct (str_in l (labels_of T files)) eqn:E.
    + rewrite dict_update_map by apply first_occurrences_NoDup.
      apply map_ext. intros l'. unfold group_of, add_file, G. simpl.
      rewrite members_snoc. unfold has_label. rewrite El.
      destruct (String.eqb l l'); [|now rewrite app_nil_r].
      now rewrite float_sum_snoc.
    + rewrite dict_update_new
        by now rewrite dict_mem_map, str_in_first_occurrences.
      rewrite map_app. simpl. f_equal.
      * apply map_ext_in. intros l' Hl'. unfold group_of, G.
        rewrite members_snoc. unfold has_label. rewrite El.
        destruct (String.eqb_spec l l') as [->|Hne]; [|now rewrite app_nil_r].
        apply (proj2 (str_in_In _ _)) in Hl'.
        rewrite str_in_first_occurrences in Hl'. congruence.
      * unfold group_of, add_file, G. simpl.
        rewrite members_snoc, (members_nil_unless_label _ _ E).
        unfold has_label. rewrite El, String.eqb_refl. reflexivity.
  - rewrite app_nil_r. apply map_ext. intros l. unfold group_of, G.
    rewrite members_snoc. unfold has_label. rewrite El. now rewrite app_nil_r.
Qed.

Lemma grouped_label_first_key (f : RemoteFile) (l : string) :
  grouped_label T f = Some l ->
  exists k m, first_key T (upper (rfilename f)) = Some (k, m) /\
              l = (k ++ size_variant_of (upper (rfilename f)))%string.
Proof.
  unfold grouped_label, quant_type_of, first_key.
  rewrite find_quant_type_first_key.
  destruct (find _ T) as [[k m]|]; simpl; [|discriminate].
  intros H. exists k, m. split; [reflexivity|].
  destruct (k ++ size_variant_of _)%string; [discriminate|]. now injection H.
Qed.

Lemma first_key_matches (f : RemoteFile) (k : string) (m : float) :
  first_key T (upper (rfilename f)) = Some (k, m) -> matches_some_key T f = true.
Proof.
  unfold first_key, matches_some_key. intros H.
  destruct (existsb _ T) eqn:E; [reflexivity|].
  apply find_none_existsb in E. congruence.
Qed.

Lemma grouped_matches (f : RemoteFile) :
  is_grouped T f = true -> matches_some_key T f = true.
Proof.
  unfold is_grouped. destruct (grouped_label T f) as [l|] eqn:E; [|discriminate].
  intros _. destruct (grouped_label_first_key _ _ E) as (k & m & H & _).
  eapply first_key_matches; eauto.
Qed.

Lemma labels_of_filter (p : RemoteFile -> bool) (files : list RemoteFile) :
  (forall f, is_grouped T f = true -> p f = true) ->
  labels_of T (filter p files) = labels_of T files.
Proof.
  intros Hp. induction files as [|f files IH]; simpl; [reflexivity|].
  specialize (Hp f). unfold is_grouped in Hp.
  destruct (p f); simpl; rewrite IH; [reflexivity|].
  destruct (grouped_label T f); [discriminate (Hp eq_refl) | reflexivity].
Qed.

Lemma members_filter (p : RemoteFile -> bool) (label : string) (files : list RemoteFile) :
  (forall f, is_grouped T f = true -> p f = true) ->
  members T label (filter p files) = members T label files.
Proof.
  intros Hp. unfold members. induction files as [|f files IH]; simpl; [reflexivity|].
  specialize (Hp f). unfold is_grouped in Hp. unfold has_label at 2.
  destruct (p f); simpl; rewrite IH; [reflexivity|].
  destruct (grouped_label T f); [discriminate (Hp eq_refl) | reflexivity].
Qed.

(** Files without a label leave no mark on the grouper's result. *)
Lemma group_split_files_filter (p : RemoteFile -> bool) (files : list RemoteFile) :
  (forall f, is_grouped T f = true -> p f = true) ->
  group_split_files T (filter p files) = group_split_files T files.
Proof.
  intros Hp. rewrite !group_split_files_closed_form, labels_of_filter by exact Hp.
  apply map_ext. intros l. unfold group_of. now rewrite members_filter.
Qed.

Lemma in_group_split_files (files : list RemoteFile) (l : string) (g : Group) :
  In (l, g) (group_split_files T files) <->
  In l (labels_of T files) /\ g = mkGroup (float_sum (members T l files)) (members T l files).
Proof.
  rewrite group_split_files_closed_form, in_map_iff. unfold group_of. split.
  - intros (l' & [= -> <-] & H). apply (proj1 (first_occurrences_In _ _)) in H. auto.
  - intros [H ->]. exists l. split; [reflexivity|].
    now apply (proj2 (first_occurrences_In _ _)).
Qed.

Lemma in_labels_of (files : list RemoteFile) (l : string) :
  In l (labels_of T files) <-> exists f, In f files /\ grouped_label T f = Some l.
Proof.
  unfold labels_of. rewrite in_flat_map. split.
  - intros (f & Hf & H). exists f. split; [exact Hf|].
    destruct (grouped_label T f); simpl in H; [|contradiction].
    destruct H as [->|[]]. reflexivity.
  - intros (f & Hf & H). exists f. rewrite H. simpl. auto.
Qed.

Lemma in_members (files : list RemoteFile) (l : string) (f : RemoteFile) :
  In f (members T l files) <-> In f files /\ grouped_label T f = Some l.
Proof.
  unfold members, has_label. rewrite filter_In.
  destruct (grouped_label T f) as [l'|]; [|split; intros []; discriminate].
  destruct (String.eqb_spec l' l) as [->|Hne]; split; intros []; split; auto; congruence.
Qed.

Lemma keys_group_split_files (files : list RemoteFile) :
  map fst (group_split_files T files) = first_occurrences (labels_of T files).
Proof.
  rewrite group_split_files_closed_form, map_map. unfold group_of. simpl.
  apply map_id.
Qed.

(** *** The groups partition the filed files *)

Lemma flat_map_split {A B} (a b : A -> list B) (l : list A) :
  Permutation (flat_map (fun x => a x ++ b x) l) (flat_map a l ++ flat_map b l).
Proof.
  induction l as [|x l IH]; simpl; [constructor|].
  rewrite IH, <- !app_assoc. apply Permutation_app_head.
  rewrite !app_assoc. apply Permutation_app_tail, Permutation_app_comm.
Qed.

Lemma flat_map_nil {A B} (h : A -> list B) (l : list A) :
  (forall x, In x l -> h x = []) -> flat_map h l = [].
Proof.
  induction l as [|x l IH]; simpl; intros H; [reflexivity|].
  rewrite (H x) by now left. apply IH. intros y Hy. apply H. now right.
Qed.

Lemma flat_map_pick (f : RemoteFile) (l : string) (keys : list string) :
  NoDup keys -> In l keys ->
  flat_map (fun k => if String.eqb l k then [f] else []) keys = [f].
Proof.
  induction 1 as [|k keys Hk Hnd IH]; simpl; [contradiction|].
  intros [->|Hin].
  - rewrite String.eqb_refl. simpl. f_equal. apply flat_map_nil.
    intros k' Hk'. destruct (String.eqb_spec l k'); [congruence | reflexivity].
  - destruct (String.eqb_spec l k) as [->|Hne]; [contradiction|]. simpl. auto.
Qed.

Lemma members_partition (keys : list string) (files : list RemoteFile) :
  NoDup keys ->
  (forall l, In l (labels_of T files) -> In l keys) ->
  Permutation (flat_map (fun l => members T l files) keys) (filter (is_grouped T) files).
Proof.
  intros Hnd. induction files as [|f files IH]; intros Hkeys.
  - simpl. rewrite flat_map_nil by reflexivity. constructor.
  - assert (Hrest : forall l, In l (labels_of T files) -> In l keys).
    { intros l Hl. apply Hkeys. unfold labels_of in *. simpl.
      apply in_or_app. now right. }
    specialize (IH Hrest).
    transitivity
      (flat_map (fun l => if has_label T l f then [f] else []) keys
       ++ flat_map (fun l => members T l files) keys).
    { rewrite <- flat_map_split.
      rewrite (flat_map_ext (fun l => members T l (f :: files))
                 (fun l => (if has_label T l f then [f] else [])
                           ++ members T l files)); [reflexivity|].
      intros l. unfold members. simpl. destruct (has_label T l f); reflexivity. }
    simpl. unfold is_grouped at 1, has_label.
    destruct (grouped_label T f) as [l|] eqn:El.
    + rewrite flat_map_pick; [simpl; now constructor | exact Hnd |].
      apply Hkeys. unfold labels_of. simpl. rewrite El. now left.
    + rewrite flat_map_nil by reflexivity. exact IH.
Qed.

Lemma all_members_partition (files : list RemoteFile) :
  Permutation (all_members (group_split_files T files)) (filter (is_grouped T) files).
Proof.
  unfold all_members. rewrite group_split_files_closed_form.
  rewrite flat_map_concat_map, map_map, <- flat_map_concat_map. simpl.
  apply members_partition.
  - apply first_occurrences_NoDup.
  - intros l. apply first_occurrences_In.
Qed.

Lemma total_bytes_Permutation (l l' : list RemoteFile) :
  Permutation l l' -> total_bytes l = total_bytes l'.
Proof.
  induction 1; simpl; lia.
Qed.

End GrouperFacts.

(* ================================================================== *)
(** ** Sizes: exact totals and numbers *)

Section SizeFacts.

Import Binary64Facts.

Lemma total_bytes_app (l l' : list RemoteFile) :
  total_bytes (l ++ l') = (total_bytes l + total_bytes l')%Z.
Proof. induction l as [|f l IH]; simpl; lia. Qed.

Lemma total_bytes_nonneg (l : list RemoteFile) :
  sizes_nonneg l -> (0 <= total_bytes l)%Z.
Proof. induction 1; simpl; lia. Qed.

Lemma total_bytes_filter (p : RemoteFile -> bool) (l : list RemoteFile) :
  sizes_nonneg l -> (total_bytes (filter p l) <= total_bytes l)%Z.
Proof.
  induction 1 as [|f l Hf Hl IH]; simpl; [lia|].
  destruct (p f); simpl; lia.
Qed.

Lemma sizes_nonneg_filter (p : RemoteFile -> bool) (l : list RemoteFile) :
  sizes_nonneg l -> sizes_nonneg (filter p l).
Proof.
  unfold sizes_nonneg. rewrite !Forall_forall. intros H f Hf.
  apply filter_In in Hf. apply H, Hf.
Qed.

Lemma float_sum_from (files : list RemoteFile) (acc : Z) :
  sizes_nonneg files -> (0 <= acc)%Z -> (acc + total_bytes files < 2 ^ 53)%Z ->
  fold_left (fun a f => (a + float_of_int (size f))%float) files (float_of_int acc)
  = float_of_int (acc + total_bytes files).
Proof.
  intros Hs. revert acc. induction Hs as [|f files Hf Hs IH]; intros acc Hacc Hlt; simpl.
  - now rewrite Z.add_0_r.
  - pose proof (total_bytes_nonneg files Hs) as Ht. simpl in Hlt.
    rewrite float_of_int_add by lia. rewrite IH by lia. f_equal. lia.
Qed.

(** Below 2^53 bytes the running float sum is the exact sum. *)
Lemma float_sum_exact (files : list RemoteFile) :
  sizes_nonneg files -> (total_bytes files < 2 ^ 53)%Z ->
  float_sum files = float_of_int (total_bytes files).
Proof.
  intros Hs Hlt. unfold float_sum.
  change 0%float with (float_of_int 0). now rewrite float_sum_from.
Qed.

Lemma float_sum_nonneg_from (files : list RemoteFile) (acc : float) :
  sizes_nonneg files -> nonneg acc ->
  nonneg (fold_left (fun a f => (a + float_of_int (size f))%float) files acc).
Proof.
  intros Hs. revert acc. induction Hs as [|f files Hf Hs IH]; intros acc Hacc; simpl.
  - exact Hacc.
  - apply IH, add_nonneg; [exact Hacc | now apply float_of_int_nonneg].
Qed.

Lemma float_sum_nonneg (files : list RemoteFile) :
  sizes_nonneg files -> nonneg (float_sum files).
Proof. intros Hs. now apply float_sum_nonneg_from. Qed.

Lemma div_GiB_nonneg (x : float) : nonneg x -> nonneg (x / float_of_int GiB)%float.
Proof.
  unfold nonneg. rewrite FloatAxioms.div_spec. intros H.
  eapply SFdiv_nonneg; [exact H|]. vm_compute. reflexivity.
Qed.

Variable T : multipliers.

Lemma members_sizes (label : string) (files : list RemoteFile) :
  sizes_nonneg files -> sizes_nonneg (members T label files).
Proof. apply sizes_nonneg_filter. Qed.

(** The sizes in the viable list are numbers. *)
Lemma group_entry_sized (ram_gb vram_gb : float) (files : list RemoteFile)
      (kv : string * Group) :
  sizes_nonneg files -> In kv (group_split_files T files) ->
  sized (group_entry T ram_gb vram_gb kv).
Proof.
  intros Hs Hin. destruct kv as [l g]. apply in_group_split_files in Hin.
  destruct Hin as [_ ->]. unfold sized, group_entry, vq_size. simpl.
  apply nonneg_not_nan, div_GiB_nonneg, float_sum_nonneg, members_sizes, Hs.
Qed.

(** The totals of the groups, summed up. *)
Lemma float_total_groups_from (files : list RemoteFile) (keys : list string) (acc : Z) :
  sizes_nonneg files -> (total_bytes files < 2 ^ 53)%Z -> (0 <= acc)%Z ->
  (acc + total_bytes (flat_map (fun l => members T l files) keys) < 2 ^ 53)%Z ->
  fold_left (fun a x => (a + x)%float)
            (map (fun kv => group_size (snd kv)) (map (group_of T files) keys))
            (float_of_int acc)
  = float_of_int (acc + total_bytes (flat_map (fun l => members T l files) keys)).
Proof.
  intros Hs Hlt. revert acc.
  induction keys as [|k keys IH]; intros acc Hacc Hsum; simpl.
  - now rewrite Z.add_0_r.
  - simpl in Hsum. rewrite total_bytes_app in Hsum.
    pose proof (total_bytes_nonneg _ (members_sizes k files Hs)) as Hk.
    assert (Hrest : (0 <= total_bytes (flat_map (fun l => members T l files) keys))%Z).
    { apply total_bytes_nonneg. unfold sizes_nonneg. apply Forall_forall.
      intros f Hf. apply in_flat_map in Hf. destruct Hf as (l & _ & Hf).
      apply filter_In in Hf. unfold sizes_nonneg in Hs.
      rewrite Forall_forall in Hs. apply Hs, Hf. }
    rewrite float_sum_exact by (try apply members_sizes; auto; lia).
    rewrite float_of_int_add by lia. rewrite IH by lia.
    rewrite total_bytes_app. f_equal. lia.
Qed.

Lemma float_total_groups (files : list RemoteFile) :
  sizes_nonneg files -> (total_bytes files < 2 ^ 53)%Z ->
  float_total (map (fun kv => group_size (snd kv)) (group_split_files T files))
  = float_of_int (total_bytes (filter (is_grouped T) files)).
Proof.
  intros Hs Hlt. unfold float_total. rewrite group_split_files_closed_form.
  assert (Hperm : Permutation
            (flat_map (fun l => members T l files) (first_occurrences (labels_of T files)))
            (filter (is_grouped T) files)).
  { apply members_partition; [apply first_occurrences_NoDup|].
    intros l. apply first_occurrences_In. }
  pose proof (total_bytes_Permutation _ _ Hperm) as Hbytes.
  pose proof (total_bytes_filter (is_grouped T) files Hs) as Hle.
  change 0%float with (float_of_int 0).
  rewrite float_total_groups_from; try assumption; try lia.
  now rewrite Z.add_0_l, Hbytes.
Qed.

Lemma nonempty_keys_grouped (f : RemoteFile) :
  Forall (fun kv => fst kv <> "") T ->
  matches_some_key T f = is_grouped T f.
Proof.
  intros Hk. unfold matches_some_key, is_grouped, grouped_label, quant_type_of.
  rewrite find_quant_type_first_key.
  destruct (find _ T) as [[k m]|] eqn:E.
  - pose proof (find_some _ _ E) as [Hin Hc]. simpl in Hc.
    rewrite Forall_forall in Hk. specialize (Hk _ Hin). simpl in *.
    assert (existsb (fun kv => contains (fst kv) (upper (rfilename f))) T = true).
    { apply existsb_exists. eauto. }
    rewrite H. destruct k; [congruence | reflexivity].
  - apply find_none_existsb in E. now rewrite E.
Qed.

End SizeFacts.

(* ================================================================== *)
(** ** The estimator and the selector as searches of the table *)

Section CheckerFacts.

Local Open Scope float_scope.

Variable T : multipliers.

Lemma scan_multiplier_first_key (file_upper : string) (items : multipliers)
      (default : float) :
  scan_multiplier file_upper items default =
  match find (fun kv => contains (fst kv) file_upper) items with
  | Some (_, mult) => mult
  | None => default
  end.
Proof.
  induction items as [|[k m] items IH]; simpl; [reflexivity|].
  destruct (contains k file_upper); [reflexivity | exact IH].
Qed.

Lemma filtered_quants_filter (items : multipliers) (available_quants : list string) :
  filtered_quants items available_quants =
  filter (fun kv => str_in (fst kv) available_quants) items.
Proof.
  induction items as [|[k v] items IH]; simpl; [reflexivity|].
  destruct (str_in k available_quants); now rewrite IH.
Qed.

Lemma suitable_loop_filter (items : multipliers) (model_size_gb max_memory : float)
      (suitable_quants : list string) :
  suitable_loop items model_size_gb max_memory suitable_quants =
  suitable_quants
  ++ map fst (filter (fun kv => model_size_gb * (snd kv + 0.1) <=? max_memory) items).
Proof.
  revert suitable_quants.
  induction items as [|[q m] items IH]; intros acc; simpl.
  - now rewrite app_nil_r.
  - rewrite IH. destruct (model_size_gb * (m + 0.1) <=? max_memory); simpl.
    + now rewrite <- app_assoc.
    + reflexivity.
Qed.

End CheckerFacts.

(* ================================================================== *)
(** ** Sorting and choosing by size *)

Section ViableFacts.

Local Open Scope float_scope.

Lemma size_le_total (a b : viable_quant) :
  sized a -> sized b -> (vq_size a <? vq_size b) = false -> size_le b a.
Proof. intros Ha Hb H. now apply PyFloatFacts.ltb_false_leb. Qed.

Lemma size_le_trans (a b c : viable_quant) : size_le a b -> size_le b c -> size_le a c.
Proof. apply PyFloatFacts.leb_trans. Qed.

Lemma size_lt_le (a b : viable_quant) : (vq_size a <? vq_size b) = true -> size_le a b.
Proof. apply PyFloatFacts.ltb_leb. Qed.

Lemma size_le_refl (a : viable_quant) : sized a -> size_le a a.
Proof. apply PyFloatFacts.leb_refl. Qed.

(** *** The sort *)

Lemma insert_by_size_perm (x : viable_quant) (l : list viable_quant) :
  Permutation (insert_by_size x l) (x :: l).
Proof.
  induction l as [|y l IH]; simpl; [reflexivity|].
  destruct (vq_size x <? vq_size y); [reflexivity|].
  rewrite IH. apply perm_swap.
Qed.

Lemma sort_by_size_perm (l : list viable_quant) : Permutation (sort_by_size l) l.
Proof.
  unfold sort_by_size. rewrite <- (app_nil_l l) at 2.
  generalize (@nil viable_quant) as acc.
  induction l as [|x l IH]; intros acc; simpl.
  - now rewrite app_nil_r.
  - rewrite IH, insert_by_size_perm. apply (Permutation_middle acc l x).
Qed.

Lemma insert_by_size_sorted (x : viable_quant) (l : list viable_quant) :
  sized x -> Forall sized l ->
  StronglySorted size_le l -> StronglySorted size_le (insert_by_size x l).
Proof.
  intros Hx Hl Hs. induction Hs as [|y l Hs IH Hy]; simpl.
  - repeat constructor.
  - inversion Hl as [|? ? Hsy Hsl]; subst.
    destruct (vq_size x <? vq_size y) eqn:E.
    + constructor; [now constructor|]. constructor.
      * now apply size_lt_le.
      * eapply Forall_impl; [|exact Hy]. intros z Hz.
        eapply size_le_trans; [apply size_lt_le|]; eauto.
    + constructor; [now apply IH|].
      rewrite insert_by_size_perm. constructor; [|exact Hy].
      now apply size_le_total.
Qed.

Lemma sort_by_size_sorted (l : list viable_quant) :
  Forall sized l -> StronglySorted size_le (sort_by_size l).
Proof.
  unfold sort_by_size. intros Hl.
  assert (Hacc : Forall sized [] /\ StronglySorted size_le [])
    by (split; constructor).
  revert Hacc. generalize (@nil viable_quant) as acc.
  induction Hl as [|x l Hx Hl IH]; intros acc [Ha Hs]; simpl; [exact Hs|].
  apply IH. split.
  - rewrite insert_by_size_perm. now constructor.
  - now apply insert_by_size_sorted.
Qed.

(** *** min and max *)

Lemma min_fold (l : list viable_quant) (best : viable_quant) :
  Forall sized l -> sized best ->
  let m := fold_left (fun best y => if vq_size y <? vq_size best then y else best) l best in
  In m (best :: l) /\ size_le m best /\ forall v, In v l -> size_le m v.
Proof.
  intros Hl. revert best. induction Hl as [|y l Hy Hl IH]; intros best Hb; simpl.
  - split; [now left|]. split; [now apply size_le_refl | contradiction].
  - destruct (vq_size y <? vq_size best) eqn:E.
    + destruct (IH y Hy) as (Hin & Hle & Hall).
      split; [destruct Hin; auto|].
      split; [eapply size_le_trans; [exact Hle | now apply size_lt_le]|].
      intros v [<-|Hv]; auto.
    + destruct (IH best Hb) as (Hin & Hle & Hall).
      split; [destruct Hin; auto|].
      split; [exact Hle|].
      intros v [<-|Hv]; auto.
      eapply size_le_trans; [exact Hle | now apply size_le_total].
Qed.

Lemma max_fold (l : list viable_quant) (best : viable_quant) :
  Forall sized l -> sized best ->
  let m := fold_left (fun best y => if vq_size best <? vq_size y then y else best) l best in
  In m (best :: l) /\ size_le best m /\ forall v, In v l -> size_le v m.
Proof.
  intros Hl. revert best. induction Hl as [|y l Hy Hl IH]; intros best Hb; simpl.
  - split; [now left|]. split; [now apply size_le_refl | contradiction].
  - destruct (vq_size best <? vq_size y) eqn:E.
    + destruct (IH y Hy) as (Hin & Hle & Hall).
      split; [destruct Hin; auto|].
      split; [apply (size_le_trans best y _); [now apply size_lt_le | exact Hle]|].
      intros v [<-|Hv]; auto.
    + destruct (IH best Hb) as (Hin & Hle & Hall).
      split; [destruct Hin; auto|].
      split; [exact Hle|].
      intros v [<-|Hv]; auto.
      apply (size_le_trans _ best _); [now apply size_le_total | exact Hle].
Qed.

Lemma min_by_size_smallest (l : list viable_quant) :
  Forall sized l -> l <> [] ->
  exists m, min_by_size l = Some m /\ smallest_of l m.
Proof.
  intros Hl Hne. destruct l as [|x l]; [congruence|].
  inversion Hl as [|? ? Hx Hl']; subst.
  eexists. split; [reflexivity|].
  destruct (min_fold l x Hl' Hx) as (Hin & Hle & Hall).
  split; [exact Hin|]. intros v [<-|Hv]; auto.
Qed.

Lemma max_by_size_largest (l : list viable_quant) :
  Forall sized l -> l <> [] ->
  exists m, max_by_size l = Some m /\ largest_of l m.
Proof.
  intros Hl Hne. destruct l as [|x l]; [congruence|].
  inversion Hl as [|? ? Hx Hl']; subst.
  eexists. split; [reflexivity|].
  destruct (max_fold l x Hl' Hx) as (Hin & Hle & Hall).
  split; [exact Hin|]. intros v [<-|Hv]; auto.
Qed.

(** *** Words of the label *)

Lemma label_words (p : perf_label) :
  label_has "Too large" p = match label_verdict p with Too_large => true | _ => false end
  /\ label_has "GPU-Ready" p = match label_verdict p with GPU_Ready => true | _ => false end
  /\ label_has "Ready" p
     = match label_verdict p with GPU_Ready | Ready => true | _ => false end
  /\ label_has "Will be slow" p
     = match label_verdict p with Will_be_slow => true | _ => false end
  /\ label_has "slow" p = match label_verdict p with Will_be_slow => true | _ => false end.
Proof.
  unfold label_has. destruct (label_verdict p); repeat split; reflexivity.
Qed.

End ViableFacts.

(* ================================================================== *)
(** ** The GGUF branch of the analyzer *)

Section GgufFacts.

Local Open Scope float_scope.

Variable T : multipliers.

Lemma viable_loop_value (items : groups) (ram_gb vram_gb : float)
      (viable_quants : list viable_quant) :
  exists t,
    viable_loop T items ram_gb vram_gb viable_quants =
    (t, Value (viable_quants
               ++ filter (fun v => negb (is_too_large v))
                         (map (group_entry T ram_gb vram_gb) items))).
Proof.
  revert viable_quants.
  induction items as [|[quant_type group] items IH]; intros acc.
  - exists []. simpl. now rewrite app_nil_r.
  - cbn [map filter].
    change (is_too_large (group_entry T ram_gb vram_gb (quant_type, group)))
      with (label_has "Too large"
              (get_performance_label
                 (estimate_ram_requirement T quant_type (Float (group_size group)))
                 ram_gb vram_gb)).
    cbn [viable_loop]. unfold call_estimate, call_label. cbn [bind emit ret app].
    match goal with |- context [viable_loop T items ram_gb vram_gb ?a] =>
      destruct (IH a) as [t Ht]; rewrite Ht end.
    eexists. f_equal. f_equal.
    destruct (label_has "Too large" _); cbn [negb]; [reflexivity|].
    now rewrite <- app_assoc.
Qed.

Lemma gguf_scan_value (repo_id : string) (all_files : list RemoteFile)
      (ram_gb vram_gb : float) (t : list event) (viable : list viable_quant)
      (table : table) :
  contains "GGUF" (upper repo_id) = true ->
  gguf_scan T repo_id all_files ram_gb vram_gb = (t, Value (viable, table)) ->
  viable = sort_by_size
             (filter (fun v => negb (is_too_large v))
                     (map (group_entry T ram_gb vram_gb)
                          (group_split_files T (gguf_files_of all_files))))
  /\ table = [("RAM Available", GB2 ram_gb); ("VRAM Available", GB2 vram_gb)].
Proof.
  unfold gguf_scan, gguf_files_of. intros ->.
  destruct (filter _ all_files) as [|f files] eqn:E; [discriminate|].
  unfold call_group. simpl.
  destruct (viable_loop_value (group_split_files T (f :: files)) ram_gb vram_gb [])
    as [t' Ht'].
  rewrite Ht'. simpl.
  intros [= _ <- <-]. auto.
Qed.

End GgufFacts.

Section RecommendationFacts.

Lemma verdict_eqb_eq (a b : verdict) : verdict_eqb a b = true <-> a = b.
Proof. destruct a, b; simpl; split; congruence. Qed.

Lemma gpu_ready_quants_verdict (l : list viable_quant) :
  filter is_gpu_ready l = with_verdict GPU_Ready l.
Proof.
  apply filter_ext. intros v. unfold is_gpu_ready, label_has, verdict_of.
  destruct (label_verdict (vq_perf v)); reflexivity.
Qed.

Lemma ready_quants_verdict (l : list viable_quant) :
  filter is_plain_ready l = with_verdict Ready l.
Proof.
  apply filter_ext. intros v. unfold is_plain_ready, label_has, verdict_of.
  destruct (label_verdict (vq_perf v)); reflexivity.
Qed.

Lemma slow_quants_verdict (l : list viable_quant) :
  filter is_slow l = with_verdict Will_be_slow l.
Proof.
  apply filter_ext. intros v. unfold is_slow, label_has, verdict_of.
  destruct (label_verdict (vq_perf v)); reflexivity.
Qed.

Lemma too_large_verdict (v : viable_quant) :
  is_too_large v = verdict_eqb (verdict_of v) Too_large.
Proof.
  unfold is_too_large, label_has, verdict_of.
  destruct (label_verdict (vq_perf v)); reflexivity.
Qed.

Lemma all_slow_forallb (l : list viable_quant) :
  forallb is_slow l = true <-> Forall (fun v => verdict_of v = Will_be_slow) l.
Proof.
  rewrite forallb_forall, Forall_forall. split; intros H v Hv; specialize (H v Hv).
  - unfold is_slow, label_has, verdict_of in *.
    destruct (label_verdict (vq_perf v)); try discriminate; reflexivity.
  - unfold is_slow, label_has. unfold verdict_of in H. now rewrite H.
Qed.

Lemma with_verdict_sized (d : verdict) (l : list viable_quant) :
  Forall sized l -> Forall sized (with_verdict d l).
Proof.
  rewrite !Forall_forall. intros H v Hv. apply H.
  unfold with_verdict in Hv. now apply filter_In in Hv.
Qed.

Lemma with_verdict_nil (d : verdict) (l : list viable_quant) :
  with_verdict d l = [] -> forall v, In v l -> verdict_of v <> d.
Proof.
  intros H v Hv E. apply (proj2 (verdict_eqb_eq _ _)) in E.
  assert (In v (with_verdict d l)) by (apply filter_In; auto).
  rewrite H in *. contradiction.
Qed.

(** The recommendation of lines 189-202 exists and follows the rule, for
    a non-empty list of viable quantizations none of which is too large. *)
Lemma recommended_quant_rule (viable : list viable_quant) :
  Forall sized viable -> viable <> [] ->
  (forall v, In v viable -> verdict_of v <> Too_large) ->
  exists r, recommended_quant viable = Some r /\ recommendation_rule viable r.
Proof.
  intros Hs Hne Hv. unfold recommended_quant, recommendation_rule.
  rewrite gpu_ready_quants_verdict, ready_quants_verdict, slow_quants_verdict.
  destruct (forallb is_slow viable) eqn:Eslow.
  - apply all_slow_forallb in Eslow.
    destruct (min_by_size_smallest viable Hs Hne) as (r & Hr & Hsm).
    exists r. split; [exact Hr|].
    split; [intros _; exact Hsm|].
    split; [|split]; intros Hn; contradiction (Hn Eslow).
  - assert (Hnot : ~ Forall (fun v => verdict_of v = Will_be_slow) viable).
    { intros H. apply all_slow_forallb in H. congruence. }
    destruct (with_verdict GPU_Ready viable) as [|g gs] eqn:Eg.
    + destruct (with_verdict Ready viable) as [|p ps] eqn:Ep.
      * exfalso. apply Hnot. apply Forall_forall. intros v Hin.
        pose proof (with_verdict_nil _ _ Eg v Hin).
        pose proof (with_verdict_nil _ _ Ep v Hin).
        pose proof (Hv v Hin).
        destruct (verdict_of v); congruence.
      * destruct (max_by_size_largest (p :: ps)) as (r & Hr & Hl).
        { rewrite <- Ep. now apply with_verdict_sized. }
        { discriminate. }
        exists r. split; [exact Hr|].
        split; [intros Hall; contradiction (Hnot Hall)|].
        split; [intros _ H; contradiction H; reflexivity|].
        split; [intros _ _ _; exact Hl | intros _ _ H; discriminate H].
    + destruct (max_by_size_largest (g :: gs)) as (r & Hr & Hl).
      { rewrite <- Eg. now apply with_verdict_sized. }
      { discriminate. }
      exists r. split; [exact Hr|].
      split; [intros Hall; contradiction (Hnot Hall)|].
      split; [intros _ _; exact Hl|].
      split; intros _ H; discriminate H.
Qed.

End RecommendationFacts.

(* ================================================================== *)
(** ** The URL parser emits nothing *)

Lemma parse_url_silent (repo_url : string) : fst (parse_url repo_url) = [].
Proof.
  unfold parse_url, item, bind, ret, raise.
  destruct (nth_error (split (rstrip "/" repo_url) "huggingface.co/") 1) as [p|];
    [|reflexivity].
  destruct (contains "/tree/main/" p).
  - destruct (nth_error (split p "/tree/main/") 0); reflexivity.
  - destruct (contains "/blob/main/" p); [|reflexivity].
    destruct (nth_error (split p "/blob/main/") 0); reflexivity.
Qed.

(* ================================================================== *)
(** ** The repository analyzer: the single-file branch *)

(** C1, as stated, fails: on a hub whose repository org/m lists only
    model.safetensors, the URL of the absent file missing.bin makes the
    analyzer print no message at all about the missing file; it goes on
    to the analysis of the whole repository, estimates, classifies and
    renders a table. *)
Lemma blob_absent_not_reported_counterexample :
  let run := analyze_huggingface_url Sample.base_keys Sample.world Sample.missing_blob_url in
  find (fun f => String.eqb (rfilename f) "missing.bin")
       (match Sample.hub "org/m" true with Some l => l | None => [] end) = None
  /\ existsb is_print (fst run) = false
  /\ existsb is_analysis_step (fst run) = true
  /\ In (AddTask "Analyzing repository: org/m...") (fst run)
  /\ snd run = Returned.
Proof.
  vm_compute. repeat split; auto 10.
Qed.

(** C1 (amended).  In the single-file branch (the path of the URL contains
    "/blob/main/"), after the first lookup, the memory probe, the
    "Fetching info" task and the lookup of the listing: when the listing
    has an entry whose name is exactly the requested path, the analyzer
    estimates and classifies that file, renders its table and returns;
    when it has none, the analyzer reports nothing about the missing file
    and continues with the analysis of the whole repository (lines
    155-245) for the repository id split off the URL, ending as that
    analysis ends. *)
Theorem blob_absent_falls_through (T : multipliers) (w : World)
        (repo_url path_part repo_id0 repo_id file_path : string)
        (siblings0 all_files : list RemoteFile) :
  contains "huggingface.co/" repo_url = true ->
  snd (parse_url repo_url) = Value (path_part, repo_id0) ->
  model_info w repo_id0 false = Some siblings0 ->
  contains "/blob/main/" path_part = true ->
  split_max path_part "/blob/main/" 1 = [repo_id; file_path] ->
  model_info w repo_id true = Some all_files ->
  let ram_gb := fst (system_memory w) in
  let vram_gb := snd (system_memory w) in
  let prelude :=
    [ModelInfo repo_id0 false;
     AddTask "Analyzing system resources...";
     SystemMemory;
     AddTask ("Fetching info for " ++ file_path ++ "...")%string;
     ModelInfo repo_id true] in
  let rest := finish (repository_analysis T w path_part repo_id ram_gb vram_gb) in
  ((forall f, In f all_files -> rfilename f <> file_path) ->
   analyze_huggingface_url T w repo_url = (prelude ++ fst rest, snd rest))
  /\ (forall target_file,
         find (fun f => String.eqb (rfilename f) file_path) all_files
         = Some target_file ->
         let bytes := Int (size target_file) in
         let need := estimate_ram_requirement T file_path bytes in
         analyze_huggingface_url T w repo_url =
           (prelude ++
            [EstimateRam file_path bytes;
             PerformanceLabel need ram_gb vram_gb;
             PrintPanel [("File", Text file_path);
                         ("Size", GB2 (truediv bytes GiB));
                         ("RAM Available", GB2 ram_gb);
                         ("VRAM Available", GB2 vram_gb);
                         ("Performance",
                          Label (get_performance_label need ram_gb vram_gb))]],
            Returned)).
Proof.
  intros Hurl Hparse Hinfo0 Hblob Hsplit Hinfo.
  assert (Hparse' : parse_url repo_url = ([], Value (path_part, repo_id0))).
  { pose proof (parse_url_silent repo_url) as Hs.
    destruct (parse_url repo_url) as [t r]. simpl in *. congruence. }
  cbv zeta. split.
  - intros Habsent.
    assert (Hfind : find (fun f => String.eqb (rfilename f) file_path) all_files = None).
    { destruct (find _ all_files) as [f|] eqn:E; [|reflexivity].
      apply find_some in E. destruct E as [Hin E]. apply String.eqb_eq in E.
      now destruct (Habsent f Hin). }
    unfold analyze_huggingface_url, analyze.
    rewrite Hurl. simpl. rewrite Hparse'.
    unfold api_model_info at 1. simpl. rewrite Hinfo0. simpl.
    unfold get_system_memory. simpl.
    destruct (system_memory w) as [ram_gb vram_gb]. simpl.
    unfold blob_branch. rewrite Hblob. unfold split_pair. rewrite Hsplit. simpl.
    unfold api_model_info at 1. simpl. rewrite Hinfo. simpl.
    rewrite Hfind. simpl.
    destruct (repository_analysis T w path_part repo_id ram_gb vram_gb)
      as [t [[]|e]]; reflexivity.
  - intros target_file Hfind.
    unfold analyze_huggingface_url, analyze.
    rewrite Hurl. simpl. rewrite Hparse'.
    unfold api_model_info at 1. simpl. rewrite Hinfo0. simpl.
    unfold get_system_memory. simpl.
    destruct (system_memory w) as [ram_gb vram_gb]. simpl.
    unfold blob_branch. rewrite Hblob. unfold split_pair. rewrite Hsplit. simpl.
    unfold api_model_info at 1. simpl. rewrite Hinfo. simpl.
    rewrite Hfind. reflexivity.
Qed.

Lemma blob_absent_falls_through_witness :
  let path_part := "org/m/blob/main/missing.bin" in
  let rest :=
    finish (repository_analysis Sample.base_keys Sample.world path_part "org/m" 64 12) in
  contains "huggingface.co/" Sample.missing_blob_url = true
  /\ snd (parse_url Sample.missing_blob_url) = Value (path_part, "org/m")
  /\ contains "/blob/main/" path_part = true
  /\ split_max path_part "/blob/main/" 1 = ["org/m"; "missing.bin"]
  /\ model_info Sample.world "org/m" true = Some [mkFile "model.safetensors" GiB]
  /\ analyze_huggingface_url Sample.base_keys Sample.world Sample.missing_blob_url =
     ([ModelInfo "org/m" false;
       AddTask "Analyzing system resources...";
       SystemMemory;
       AddTask "Fetching info for missing.bin...";
       ModelInfo "org/m" true] ++ fst rest,
      snd rest).
Proof.
  cbv zeta. repeat (split; [reflexivity|]).
  apply (proj1 (blob_absent_falls_through Sample.base_keys Sample.world
           Sample.missing_blob_url "org/m/blob/main/missing.bin" "org/m" "org/m"
           "missing.bin" [mkFile "model.safetensors" GiB]
           [mkFile "model.safetensors" GiB]
           eq_refl eq_refl eq_refl eq_refl eq_refl eq_refl)).
  intros f [<-|[]]. discriminate.
Defined.

(* ================================================================== *)
(** ** The worked example of the grouper *)

(** C2, as stated, fails: with the table whose keys are "Q4_K_M" and
    "Q8_0" the two Q4 files are filed under "Q4_K_M_M", the key followed
    by the size variant "_M" read off the file name; no group is labelled
    "Q4_K_M". *)
Lemma suffix_key_label_counterexample :
  In "Q4_K_M" (map fst Sample.suffix_keys)
  /\ In "Q8_0" (map fst Sample.suffix_keys)
  /\ map fst (group_split_files Sample.suffix_keys Sample.example_files)
     = ["Q4_K_M_M"; "Q8_0"]
  /\ ~ In "Q4_K_M" (map fst (group_split_files Sample.suffix_keys Sample.example_files)).
Proof.
  vm_compute. repeat split; auto.
  intros [H|[H|[]]]; discriminate.
Qed.

(** C2 (amended).  For every multiplier table in which "Q4_K_M" is the
    first key found in the two upper-cased Q4 file names and "Q8_0" the
    first key found in the third (the table with just these two keys is
    one), grouping the three files gives exactly two groups, in this
    order: "Q4_K_M_M" with total size 8GB and the two Q4 files as members,
    and "Q8_0" with total size 9GB and one member. *)
Theorem example_groups (T : multipliers) (m1 m2 m3 : float) :
  first_key T (upper (rfilename Sample.q4_part1)) = Some ("Q4_K_M", m1) ->
  first_key T (upper (rfilename Sample.q4_part2)) = Some ("Q4_K_M", m2) ->
  first_key T (upper (rfilename Sample.q8_file)) = Some ("Q8_0", m3) ->
  group_split_files T Sample.example_files =
    [("Q4_K_M_M", mkGroup (float_of_int (8 * GiB)) [Sample.q4_part1; Sample.q4_part2]);
     ("Q8_0", mkGroup (float_of_int (9 * GiB)) [Sample.q8_file])].
Proof.
  intros H1 H2 H3.
  unfold group_split_files, Sample.example_files. cbn [fold_left].
  unfold group_step, quant_type_of. rewrite !find_quant_type_first_key.
  unfold first_key in *. rewrite H1, H2, H3.
  vm_compute. reflexivity.
Qed.

Lemma example_groups_witness :
  first_key Sample.suffix_keys (upper (rfilename Sample.q4_part1)) = Some ("Q4_K_M", 1.3%float)
  /\ first_key Sample.suffix_keys (upper (rfilename Sample.q4_part2)) = Some ("Q4_K_M", 1.3%float)
  /\ first_key Sample.suffix_keys (upper (rfilename Sample.q8_file)) = Some ("Q8_0", 2%float)
  /\ group_split_files Sample.suffix_keys Sample.example_files =
     [("Q4_K_M_M", mkGroup (float_of_int (8 * GiB)) [Sample.q4_part1; Sample.q4_part2]);
      ("Q8_0", mkGroup (float_of_int (9 * GiB)) [Sample.q8_file])].
Proof.
  split; [reflexivity|]. split; [reflexivity|]. split; [reflexivity|].
  apply (example_groups Sample.suffix_keys 1.3%float 1.3%float 2%float); reflexivity.
Defined.

(** With base keys, as the grouper expects them, the label is "Q4_K_M". *)
Example example_groups_base_keys :
  map fst (group_split_files Sample.base_keys Sample.example_files) = ["Q4_K_M"; "Q8_0"].
Proof. reflexivity. Qed.

(* ================================================================== *)
(** ** The memory estimator *)

Local Open Scope float_scope.

(** C3, as stated, fails in binary64 arithmetic: the estimator adds the
    two products size_gb * m and size_gb * 0.1, and that sum is not always
    the one product size_gb * (m + 0.1).  For a 3 GiB file with no key in
    its name it returns 7.8 where size_gb * 2.6 is 7.800000000000001; for
    a 7 GiB file matching a key of multiplier 2 it returns 14.7 where
    size_gb * (2 + 0.1) is 14.700000000000001. *)
Lemma estimate_rounding_counterexample :
  (first_key [] (upper "model.bin") = None
   /\ estimate_ram_requirement [] "model.bin" (Int (3 * GiB)) = 7.8
   /\ truediv (Int (3 * GiB)) GiB * (2.5 + 0.1) = 7.800000000000001
   /\ truediv (Int (3 * GiB)) GiB * 2.6 = 7.800000000000001
   /\ 7.8 <> 7.800000000000001)
  /\ (first_key [("Q8_0", 2)] (upper "model-q8_0.gguf") = Some ("Q8_0", 2)
      /\ estimate_ram_requirement [("Q8_0", 2)] "model-q8_0.gguf" (Int (7 * GiB)) = 14.7
      /\ truediv (Int (7 * GiB)) GiB * (2 + 0.1) = 14.700000000000001
      /\ 14.7 <> 14.700000000000001).
Proof.
  repeat split; try (vm_compute; reflexivity);
    apply PyFloatFacts.neq_by_spec; vm_compute; discriminate.
Qed.

(** C3 (amended).  For every label and every size in bytes, the estimator
    converts the size to GB (a division by 1024**3) and returns
    size_gb * m + size_gb * 0.1, the sum of two rounded products, where m
    is the multiplier of the first key of the table, in stored order, that
    occurs in the upper-cased label, and 2.5 when no key occurs. *)
Theorem estimate_sum_of_products (T : multipliers) (file_name : string)
        (file_size_bytes : number) :
  let size_gb := truediv file_size_bytes GiB in
  match first_key T (upper file_name) with
  | Some (_, m) =>
      estimate_ram_requirement T file_name file_size_bytes = size_gb * m + size_gb * 0.1
  | None =>
      estimate_ram_requirement T file_name file_size_bytes = size_gb * 2.5 + size_gb * 0.1
  end.
Proof.
  unfold estimate_ram_requirement, first_key. rewrite scan_multiplier_first_key.
  destruct (find _ T) as [[k m]|]; reflexivity.
Qed.

(* ================================================================== *)
(** ** The quantization selector *)

(** C4.  The selector takes the greater of ram_gb and vram_gb as ceiling,
    keeps of the table, in table order, the items whose key is a
    candidate, of these the items with
    model_size_gb * (multiplier + 0.1) <= ceiling, and returns the key of
    the last item kept; when none is kept it returns the "too large"
    sentinel. *)
Theorem get_best_quantization_last_fitting (T : multipliers)
        (ram_gb vram_gb model_size_gb : float) (candidate_labels : list string) :
  let ceiling_memory := max2 ram_gb vram_gb in
  let candidates := filter (fun kv => str_in (fst kv) candidate_labels) T in
  let surviving :=
    filter (fun kv => model_size_gb * (snd kv + 0.1) <=? ceiling_memory) candidates in
  (ceiling_memory = if vram_gb >? ram_gb then vram_gb else ram_gb)
  /\ (surviving = [] ->
      get_best_quantization T ram_gb vram_gb model_size_gb candidate_labels
      = too_large_msg)
  /\ (forall before quant multiplier,
         surviving = before ++ [(quant, multiplier)] ->
         get_best_quantization T ram_gb vram_gb model_size_gb candidate_labels = quant).
Proof.
  cbv zeta. unfold get_best_quantization.
  rewrite suitable_loop_filter, filtered_quants_filter. simpl.
  split; [reflexivity|]. split.
  - intros ->. reflexivity.
  - intros before quant multiplier ->. rewrite map_app. simpl.
    destruct (map fst before ++ [quant]) eqn:E.
    + destruct (map fst before); discriminate.
    + rewrite <- E. apply last_last.
Qed.

Lemma get_best_quantization_last_fitting_witness :
  get_best_quantization [("Q2_K", 1.1); ("Q4_K", 1.3); ("Q8_0", 2); ("F16", 2.5)]
                        16 0 8 ["Q8_0"; "Q4_K"; "Q2_K"] = "Q4_K"
  /\ get_best_quantization [("Q2_K", 1.1); ("Q4_K", 1.3); ("Q8_0", 2); ("F16", 2.5)]
                           4 0 8 ["Q8_0"; "Q4_K"; "Q2_K"] = too_large_msg.
Proof.
  split.
  - apply (proj2 (proj2 (get_best_quantization_last_fitting
             [("Q2_K", 1.1); ("Q4_K", 1.3); ("Q8_0", 2); ("F16", 2.5)]
             16 0 8 ["Q8_0"; "Q4_K"; "Q2_K"])) [("Q2_K", 1.1)] "Q4_K" 1.3).
    reflexivity.
  - apply (proj1 (proj2 (get_best_quantization_last_fitting
             [("Q2_K", 1.1); ("Q4_K", 1.3); ("Q8_0", 2); ("F16", 2.5)]
             4 0 8 ["Q8_0"; "Q4_K"; "Q2_K"]))).
    reflexivity.
Defined.

(* ================================================================== *)
(** ** The performance classifier *)

(** C5.  The classifier applies its rules in order: GPU-Ready when
    vram_gb >= estimated_ram_gb, whatever ram_gb is; otherwise Too-large
    when estimated_ram_gb > ram_gb; otherwise Will-be-slow when
    estimated_ram_gb > ram_gb * 0.5; otherwise Ready.  The label carries
    the estimate and the figure it was compared with: the VRAM for
    GPU-Ready, the RAM for the others. *)
Theorem get_performance_label_rules (estimated_ram_gb ram_gb vram_gb : float) :
  let label := get_performance_label estimated_ram_gb ram_gb vram_gb in
  label_needs label = estimated_ram_gb
  /\ ((vram_gb >=? estimated_ram_gb) = true ->
      label_verdict label = GPU_Ready /\ label_available label = vram_gb)
  /\ ((vram_gb >=? estimated_ram_gb) = false ->
      label_available label = ram_gb
      /\ ((estimated_ram_gb >? ram_gb) = true -> label_verdict label = Too_large)
      /\ ((estimated_ram_gb >? ram_gb) = false ->
          ((estimated_ram_gb >? ram_gb * 0.5) = true ->
           label_verdict label = Will_be_slow)
          /\ ((estimated_ram_gb >? ram_gb * 0.5) = false ->
              label_verdict label = Ready))).
Proof.
  cbv zeta. unfold get_performance_label.
  destruct (vram_gb >=? estimated_ram_gb), (estimated_ram_gb >? ram_gb),
    (estimated_ram_gb >? ram_gb * 0.5); simpl; repeat split; congruence.
Qed.

Lemma get_performance_label_rules_witness :
  label_verdict (get_performance_label 11.2 16 12) = GPU_Ready
  /\ label_verdict (get_performance_label 18.9 16 12) = Too_large
  /\ label_verdict (get_performance_label 11.2 16 0) = Will_be_slow
  /\ label_verdict (get_performance_label 2.6 16 0) = Ready.
Proof.
  split; [|split; [|split]].
  - apply (proj1 (proj2 (get_performance_label_rules 11.2 16 12))). reflexivity.
  - apply (proj2 (proj2 (get_performance_label_rules 18.9 16 12))); reflexivity.
  - apply (proj2 (proj2 (get_performance_label_rules 11.2 16 0))); reflexivity.
  - apply (proj2 (proj2 (get_performance_label_rules 2.6 16 0))); reflexivity.
Defined.

(* ================================================================== *)
(** ** The GGUF branch: viable quantizations and the recommendation *)

(** C6.  In the GGUF branch the viable list holds the groups of the
    grouper that are not classified Too-large, and no other; it is sorted
    by size, ascending; and when it is not empty a recommendation exists
    and is rendered: the smallest viable group if every viable group is
    Will-be-slow, otherwise the largest GPU-Ready group if there is one,
    otherwise the largest plain-Ready group if there is one, otherwise the
    smallest Will-be-slow group.  (Listings give no negative sizes; that
    is what makes every group size a number that can be compared.) *)
Theorem gguf_viable_and_recommended (T : multipliers) (repo_id : string)
        (all_files : list RemoteFile) (ram_gb vram_gb : float)
        (t : list event) (viable : list viable_quant) (table : table) :
  contains "GGUF" (upper repo_id) = true ->
  gguf_scan T repo_id all_files ram_gb vram_gb = (t, Value (viable, table)) ->
  sizes_nonneg all_files ->
  let entries :=
    map (group_entry T ram_gb vram_gb)
        (group_split_files T (gguf_files_of all_files)) in
  Permutation viable
              (filter (fun v => negb (verdict_eqb (verdict_of v) Too_large)) entries)
  /\ StronglySorted size_le viable
  /\ (viable <> [] ->
      exists r,
        recommended_quant viable = Some r
        /\ recommendation_rule viable r
        /\ viable_report viable table =
           ([PrintPanel
               (table ++
                [("Viable Quantizations", QuantLines (map quant_line viable));
                 ("Recommended Quantization",
                  Text ("[bold blue]" ++ vq_name r ++ "[/bold blue]")%string)])],
            Value tt)).
Proof.
  intros Hgguf Hscan Hsizes entries.
  destruct (gguf_scan_value T _ _ _ _ _ _ _ Hgguf Hscan) as [Hviable Htable].
  assert (Hperm : Permutation viable
            (filter (fun v => negb (verdict_eqb (verdict_of v) Too_large)) entries)).
  { rewrite Hviable, sort_by_size_perm. subst entries.
    erewrite filter_ext; [reflexivity|]. intros v. now rewrite too_large_verdict. }
  assert (Hentries : Forall sized entries).
  { subst entries. apply Forall_forall. intros v Hv.
    apply in_map_iff in Hv. destruct Hv as (kv & <- & Hkv).
    eapply group_entry_sized; [|exact Hkv].
    now apply sizes_nonneg_filter. }
  assert (Hsized : Forall sized viable).
  { apply Forall_forall. intros v Hv.
    eapply Permutation_in in Hv; [|exact Hperm].
    apply filter_In in Hv. rewrite Forall_forall in Hentries. apply Hentries, Hv. }
  split; [exact Hperm|]. split.
  - clear Hperm. rewrite Hviable in *. apply sort_by_size_sorted.
    eapply Permutation_Forall; [apply sort_by_size_perm | exact Hsized].
  - intros Hne.
    destruct (recommended_quant_rule viable Hsized Hne) as (r & Hr & Hrule).
    { intros v Hin E. eapply Permutation_in in Hin; [|exact Hperm].
      apply filter_In in Hin. destruct Hin as [_ Hin].
      rewrite E in Hin. discriminate. }
    exists r. split; [exact Hr|]. split; [exact Hrule|].
    unfold viable_report. rewrite Hr. reflexivity.
Qed.

Lemma gguf_viable_and_recommended_witness :
  let viable :=
    [("Q4_K_M", 8, mkLabel GPU_Ready 11.200000000000001 12);
     ("Q8_0", 9, mkLabel Ready 18.9 64)] in
  contains "GGUF" (upper "org/m-GGUF") = true
  /\ snd (gguf_scan Sample.base_keys "org/m-GGUF" Sample.example_files 64 12)
     = Value (viable, [("RAM Available", GB2 64); ("VRAM Available", GB2 12)])
  /\ sizes_nonneg Sample.example_files
  /\ StronglySorted size_le viable
  /\ (viable <> [] ->
      exists r, recommended_quant viable = Some r /\ recommendation_rule viable r
                /\ vq_name r = "Q4_K_M").
Proof.
  cbv zeta.
  assert (Hsizes : sizes_nonneg Sample.example_files)
    by (repeat constructor; discriminate).
  split; [reflexivity|]. split; [reflexivity|]. split; [exact Hsizes|].
  destruct (gguf_viable_and_recommended Sample.base_keys "org/m-GGUF"
              Sample.example_files 64 12
              (fst (gguf_scan Sample.base_keys "org/m-GGUF" Sample.example_files 64 12))
              [("Q4_K_M", 8, mkLabel GPU_Ready 11.200000000000001 12);
               ("Q8_0", 9, mkLabel Ready 18.9 64)]
              [("RAM Available", GB2 64); ("VRAM Available", GB2 12)])
    as (_ & Hsorted & Hrec).
  - reflexivity.
  - reflexivity.
  - exact Hsizes.
  - split; [exact Hsorted|]. intros Hne.
    destruct (Hrec Hne) as (r & Hr & Hrule & _).
    exists r. split; [exact Hr|]. split; [exact Hrule|].
    vm_compute in Hr. injection Hr as <-. reflexivity.
Defined.

(* ================================================================== *)
(** ** The file grouper *)

Section KeyLabelFacts.

Variable T : multipliers.

Lemma size_variant_first (file_upper : string) :
  size_variant_of file_upper = first_variant file_upper.
Proof.
  unfold size_variant_of, first_variant, size_variants. cbn [find].
  repeat match goal with |- context [contains ?v file_upper] =>
           destruct (contains v file_upper) end; reflexivity.
Qed.

(** The label the code computes is the label by the rule. *)
Lemma grouped_label_key_label (f : RemoteFile) : grouped_label T f = key_label T f.
Proof.
  unfold grouped_label, key_label, quant_type_of, first_key.
  rewrite find_quant_type_first_key, size_variant_first.
  destruct (find _ T) as [[k m]|]; reflexivity.
Qed.

Lemma has_label_key_label (label : string) (f : RemoteFile) :
  has_label T label f = has_key_label T label f.
Proof. unfold has_label, has_key_label. now rewrite grouped_label_key_label. Qed.

Lemma labels_of_key_labels (files : list RemoteFile) :
  labels_of T files = key_labels T files.
Proof.
  unfold labels_of, key_labels. apply flat_map_ext. intros f.
  now rewrite grouped_label_key_label.
Qed.

End KeyLabelFacts.

(** C7.  Whatever the input list: a file whose upper-cased name contains
    no key of the table is a member of no group, and the grouper's result
    (groups, members and totals) is the same as on the list without such
    files.  A file of the input in whose upper-cased name the first key
    of the table, in stored order, is [k] is a member of the group
    labelled [k] followed by the first size variant found in the name,
    and of no group under another label (unless that label is empty);
    conversely the members of a group are exactly the files of the input
    with its label, in input order, and its recorded size is the running
    float sum of their sizes.  The keys of the result are the labels of
    the files of the input in the order of their first occurrences. *)
Theorem grouper_labels (T : multipliers) (files : list RemoteFile) :
  let result := group_split_files T files in
  (forall f label g,
      matches_some_key T f = false ->
      In (label, g) result -> ~ In f (group_files g))
  /\ result = group_split_files T (filter (matches_some_key T) files)
  /\ (forall f k m,
         In f files ->
         first_key T (upper (rfilename f)) = Some (k, m) ->
         let label := (k ++ first_variant (upper (rfilename f)))%string in
         label <> "" ->
         exists g,
           In (label, g) result /\ In f (group_files g)
           /\ forall label' g',
                In (label', g') result -> In f (group_files g') -> label' = label)
  /\ (forall f label g,
         In (label, g) result -> In f (group_files g) ->
         In f files
         /\ exists k m,
              first_key T (upper (rfilename f)) = Some (k, m)
              /\ label = (k ++ first_variant (upper (rfilename f)))%string)
  /\ (forall label g,
         In (label, g) result ->
         group_files g = filter (has_key_label T label) files
         /\ group_size g = float_sum (group_files g))
  /\ map fst result = first_occurrences (key_labels T files).
Proof.
  cbv zeta.
  assert (Hmember : forall f label g,
             In (label, g) (group_split_files T files) -> In f (group_files g) ->
             In f files /\ key_label T f = Some label).
  { intros f label g Hg Hf. apply in_group_split_files in Hg.
    destruct Hg as [_ ->]. simpl in Hf. apply in_members in Hf.
    now rewrite <- grouped_label_key_label. }
  split; [|split; [|split; [|split; [|split]]]].
  - intros f label g Hno Hg Hf.
    destruct (Hmember f label g Hg Hf) as [_ Hl].
    rewrite <- grouped_label_key_label, (unmatched_no_label T f Hno) in Hl.
    discriminate.
  - symmetry. apply group_split_files_filter, grouped_matches.
  - intros f k m Hf Hk Hne.
    assert (Hl : key_label T f
                 = Some (k ++ first_variant (upper (rfilename f)))%string).
    { unfold key_label. rewrite Hk.
      destruct (k ++ first_variant (upper (rfilename f)))%string;
        [congruence | reflexivity]. }
    set (label := (k ++ first_variant (upper (rfilename f)))%string) in *.
    exists (mkGroup (float_sum (members T label files)) (members T label files)).
    split; [|split].
    + apply in_group_split_files. split; [|reflexivity].
      apply in_labels_of. exists f. now rewrite grouped_label_key_label.
    + cbn [group_files]. apply in_members. now rewrite grouped_label_key_label.
    + intros label' g' Hg' Hf'. destruct (Hmember f label' g' Hg' Hf') as [_ Hl'].
      congruence.
  - intros f label g Hg Hf. destruct (Hmember f label g Hg Hf) as [Hin Hl].
    split; [exact Hin|]. unfold key_label in Hl.
    destruct (first_key T (upper (rfilename f))) as [[k m]|]; [|discriminate].
    exists k, m. split; [reflexivity|].
    destruct (k ++ first_variant (upper (rfilename f)))%string;
      [discriminate | congruence].
  - intros label g Hg. apply in_group_split_files in Hg. destruct Hg as [_ ->].
    cbn [group_files group_size]. split; [|reflexivity].
    unfold members. apply filter_ext. intros f. apply has_label_key_label.
  - rewrite keys_group_split_files. now rewrite labels_of_key_labels.
Qed.

Lemma grouper_labels_witness :
  exists g,
    In ("Q4_K_M", g) (group_split_files Sample.base_keys Sample.example_files)
    /\ In Sample.q4_part1 (group_files g).
Proof.
  destruct (proj1 (proj2 (proj2 (grouper_labels Sample.base_keys Sample.example_files)))
              Sample.q4_part1 "Q4_K" 1.3%float
              (or_introl eq_refl) eq_refl ltac:(discriminate))
    as (g & Hg & Hf & _).
  exists g. split; [exact Hg | exact Hf].
Defined.

(** C10, as stated, fails twice.  A file that matches only the empty key
    and has no size variant gets an empty label and is filed nowhere,
    though its name contains a key of the table.  And a recorded total is
    a running float sum: three parts of 2^53, 1 and 1 bytes give the total
    2^53, not the 2^53 + 2 bytes of the members. *)
Lemma grouper_partition_counterexample :
  (matches_some_key Sample.empty_key Sample.plain_file = true
   /\ group_split_files Sample.empty_key [Sample.plain_file] = [])
  /\ (exists g,
         group_split_files Sample.base_keys Sample.huge_files = [("Q8_0", g)]
         /\ group_files g = Sample.huge_files
         /\ group_size g = float_of_int (2 ^ 53)
         /\ total_bytes (group_files g) = (2 ^ 53 + 2)%Z
         /\ float_of_int (2 ^ 53) <> float_of_int (2 ^ 53 + 2)).
Proof.
  split; [split; reflexivity|].
  eexists. split; [vm_compute; reflexivity|].
  repeat split.
  apply PyFloatFacts.neq_by_spec. vm_compute. discriminate.
Qed.

(** C10 (amended).  For a table without an empty key and files of
    non-negative sizes whose total is below 2^53 bytes, the grouper
    partitions the matched files: each file whose upper-cased name
    contains a key is a member of exactly one group, the one keyed by its
    label (first matching key, then size variant), the keys of the groups
    being distinct; each group's recorded total is the sum of the sizes of
    its members; and the groups' totals add up to the total size of the
    matched files. *)
Theorem grouper_partition (T : multipliers) (files : list RemoteFile) :
  Forall (fun kv => fst kv <> "") T ->
  sizes_nonneg files ->
  (total_bytes files < 2 ^ 53)%Z ->
  let result := group_split_files T files in
  (forall f, In f files -> matches_some_key T f = true ->
     exists label g,
       grouped_label T f = Some label
       /\ In (label, g) result /\ In f (group_files g)
       /\ forall label' g',
            In (label', g') result -> In f (group_files g') -> label' = label)
  /\ NoDup (map fst result)
  /\ (forall label g,
         In (label, g) result ->
         group_size g = float_of_int (total_bytes (group_files g)))
  /\ float_total (map (fun kv => group_size (snd kv)) result)
     = float_of_int (total_bytes (filter (matches_some_key T) files)).
Proof.
  intros Hkeys Hsizes Hlt result. subst result.
  split; [|split; [|split]].
  - intros f Hf Hm. rewrite (nonempty_keys_grouped T f Hkeys) in Hm.
    unfold is_grouped in Hm.
    destruct (grouped_label T f) as [label|] eqn:El; [|discriminate].
    exists label. eexists. split; [reflexivity|]. split; [|split].
    + apply in_group_split_files. split; [|reflexivity].
      apply in_labels_of. eauto.
    + simpl. apply in_members. auto.
    + intros label' g' Hg' Hf'. apply in_group_split_files in Hg'.
      destruct Hg' as [_ ->]. simpl in Hf'. apply in_members in Hf'.
      destruct Hf' as [_ Hf']. congruence.
  - rewrite keys_group_split_files. apply first_occurrences_NoDup.
  - intros label g Hg. apply in_group_split_files in Hg. destruct Hg as [_ ->].
    simpl. apply float_sum_exact.
    + now apply members_sizes.
    + pose proof (total_bytes_filter (has_label T label) files Hsizes).
      unfold members. lia.
  - rewrite float_total_groups by assumption. f_equal. f_equal.
    apply filter_ext. intros f. symmetry. now apply nonempty_keys_grouped.
Qed.

Lemma grouper_partition_witness :
  Forall (fun kv => fst kv <> "") Sample.base_keys
  /\ sizes_nonneg Sample.example_files
  /\ (total_bytes Sample.example_files < 2 ^ 53)%Z
  /\ NoDup (map fst (group_split_files Sample.base_keys Sample.example_files))
  /\ float_total (map (fun kv => group_size (snd kv))
                      (group_split_files Sample.base_keys Sample.example_files))
     = float_of_int
         (total_bytes (filter (matches_some_key Sample.base_keys) Sample.example_files)).
Proof.
  assert (Hkeys : Forall (fun kv => fst kv <> "") Sample.base_keys)
    by (repeat constructor; discriminate).
  assert (Hsizes : sizes_nonneg Sample.example_files)
    by (repeat constructor; discriminate).
  assert (Hlt : (total_bytes Sample.example_files < 2 ^ 53)%Z) by reflexivity.
  split; [exact Hkeys|]. split; [exact Hsizes|]. split; [exact Hlt|].
  destruct (grouper_partition Sample.base_keys Sample.example_files Hkeys Hsizes Hlt)
    as (_ & Hnd & _ & Htotal).
  split; [exact Hnd | exact Htotal].
Defined.

(* ================================================================== *)
(** ** Matching of keys *)

(** C8, as stated, fails: only the file name is upper-cased, the key is
    taken as it is written.  The key "q4_k" does not match
    "model-q4_k.gguf" although the upper-cased key occurs in the
    upper-cased name: the estimator falls back to 2.5 and the grouper
    drops the file. *)
Lemma lower_case_key_counterexample :
  contains (upper "q4_k") (upper (rfilename Sample.lower_file)) = true
  /\ first_key Sample.lower_keys (upper (rfilename Sample.lower_file)) = None
  /\ estimate_ram_requirement Sample.lower_keys (rfilename Sample.lower_file)
                              (Int (size Sample.lower_file))
     = truediv (Int (3 * GiB)) GiB * 2.5 + truediv (Int (3 * GiB)) GiB * 0.1
  /\ estimate_ram_requirement Sample.lower_keys (rfilename Sample.lower_file)
                              (Int (size Sample.lower_file))
     <> truediv (Int (3 * GiB)) GiB * 1.3 + truediv (Int (3 * GiB)) GiB * 0.1
  /\ group_split_files Sample.lower_keys [Sample.lower_file] = [].
Proof.
  repeat split; try reflexivity.
  apply PyFloatFacts.neq_by_spec. vm_compute. discriminate.
Qed.

(** C8 (amended).  In the estimator and in the grouper alike a key matches
    a name exactly when the key as written is a substring of the
    upper-cased name: matching ignores the case of the name only.  A key
    without lower-case letters therefore matches when its upper-case form
    occurs in the upper-cased name, and a key with a lower-case letter
    matches no name at all. *)
Theorem key_match_is_verbatim (T : multipliers) :
  (forall name bytes,
      estimate_ram_requirement T name bytes
      = (let size_gb := truediv bytes GiB in
         size_gb * match find (fun kv => contains (fst kv) (upper name)) T with
                   | Some (_, m) => m
                   | None => 2.5
                   end
         + size_gb * 0.1))
  /\ (forall f,
         quant_type_of T f
         = option_map (fun kv => (fst kv ++ size_variant_of (upper (rfilename f)))%string)
                      (find (fun kv => contains (fst kv) (upper (rfilename f))) T))
  /\ (forall k name,
         contains k (upper name) = true <->
         exists before after, upper name = (before ++ k ++ after)%string)
  /\ (forall k name,
         has_lower k = false -> contains k (upper name) = contains (upper k) (upper name))
  /\ (forall k name, has_lower k = true -> contains k (upper name) = false).
Proof.
  split; [|split; [|split; [|split]]].
  - intros name bytes. unfold estimate_ram_requirement.
    rewrite scan_multiplier_first_key.
    destruct (find _ T) as [[k m]|]; reflexivity.
  - intros f. apply find_quant_type_first_key.
  - intros k name. apply PyStrFacts.contains_spec.
  - intros k name H. now rewrite (PyStrFacts.upper_fixed k H).
  - intros k name. apply PyStrFacts.lower_never_in_upper.
Qed.

(* ================================================================== *)
(** ** Further facts: splitting at a separator *)

Local Close Scope float_scope.

Module SplitFacts.

Lemma prefix_nil (s : string) : prefix "" s = true.
Proof. destruct s; reflexivity. Qed.

Lemma contains_step (sep : string) (c : ascii) (s : string) :
  contains sep (String c s) = prefix sep (String c s) || contains sep s.
Proof. cbn [contains]. destruct (prefix sep (String c s)); reflexivity. Qed.

Lemma contains_nil_false (sep : string) : sep <> "" -> contains sep "" = false.
Proof. destruct sep; [congruence | reflexivity]. Qed.

Lemma prefix_weaken (p s r : string) : prefix p s = true -> prefix p (s ++ r) = true.
Proof.
  intros H. apply PyStrFacts.prefix_app in H. destruct H as [q ->].
  rewrite PyStrFacts.str_append_assoc.
  clear. induction p as [|c p IH]; simpl.
  - apply prefix_nil.
  - destruct (ascii_dec c c); [exact IH | congruence].
Qed.

(** A text without the separator is one piece. *)
Lemma split_go_no_sep (sep cur s : string) :
  contains sep s = false -> split_go sep None 0 cur s = [(cur ++ s)%string].
Proof.
  revert cur. induction s as [|c s IH]; intros cur H.
  - simpl. now rewrite PyStrFacts.str_append_nil.
  - rewrite contains_step in H. apply orb_false_iff in H. destruct H as [Hp Hc].
    cbn [split_go]. rewrite Hp, (IH _ Hc), PyStrFacts.str_append_assoc. reflexivity.
Qed.

Lemma split_no_sep (sep s : string) : contains sep s = false -> split s sep = [s].
Proof. intros H. unfold split. now rewrite split_go_no_sep. Qed.

Lemma prefix_self_app (p r : string) : prefix p (p ++ r) = true.
Proof.
  induction p as [|c p IH]; simpl; [apply prefix_nil|].
  destruct (ascii_dec c c); [exact IH | congruence].
Qed.

(** [s.split(sep)] at the first occurrence of [sep]. *)
Lemma split_go_first (sep s : string) :
  sep <> "" -> contains sep s = true ->
  exists a b, s = (a ++ sep ++ b)%string
              /\ contains sep a = false
              /\ (forall maxsplit cur, maxsplit <> Some 0%nat ->
                   split_go sep maxsplit 0 cur s
                   = (cur ++ a)%string
                     :: split_go sep (option_map pred maxsplit) (String.length sep - 1)
                                 "" (skip_chars 1 (sep ++ b)))
              /\ forall a' b', s = (a' ++ sep ++ b')%string ->
                               String.length a <= String.length a'.
Proof.
  intros Hsep. induction s as [|c s IH]; intros Hc.
  - rewrite contains_nil_false in Hc by assumption. discriminate.
  - destruct (prefix sep (String c s)) eqn:E.
    + pose proof E as E'. apply PyStrFacts.prefix_app in E'. destruct E' as [r Hr].
      exists "", r. split; [exact Hr|]. split; [now apply contains_nil_false|].
      split; [|intros a' b' _; simpl; lia].
      intros maxsplit cur Hmax. cbn [split_go]. rewrite E.
      rewrite PyStrFacts.str_append_nil.
      destruct sep as [|d sep]; [congruence|]. simpl in Hr. injection Hr as _ ->.
      destruct maxsplit as [[|n]|]; [congruence| |]; reflexivity.
    + rewrite contains_step, E in Hc. simpl in Hc.
      destruct (IH Hc) as (a & b & H1 & H2 & H3 & H4).
      exists (String c a), b. split; [simpl; now rewrite H1|]. split; [|split].
      * rewrite contains_step. apply orb_false_iff. split; [|exact H2].
        destruct (prefix sep (String c a)) eqn:E2; [|reflexivity].
        apply (prefix_weaken _ _ (sep ++ b)) in E2.
        change (String c a ++ sep ++ b)%string with (String c (a ++ sep ++ b)) in E2.
        rewrite <- H1 in E2. congruence.
      * intros maxsplit cur Hmax. cbn [split_go]. rewrite E.
        destruct maxsplit as [[|n]|]; [congruence| |];
          rewrite H3 by discriminate; rewrite PyStrFacts.str_append_assoc; reflexivity.
      * intros a' b' Hs. destruct a' as [|c' a'].
        -- exfalso. cbn [append] in Hs. rewrite Hs, prefix_self_app in E.
           discriminate.
        -- cbn [append] in Hs. injection Hs as _ Hs.
           specialize (H4 a' b' Hs). simpl. lia.
Qed.

Lemma skip_sep (sep : string) (b : string) :
  sep <> "" ->
  skip_chars (String.length sep - 1) (skip_chars 1 (sep ++ b)) = b.
Proof.
  intros Hsep. destruct sep as [|d sep]; [congruence|]. simpl.
  rewrite Nat.sub_0_r. apply PyStrFacts.skip_chars_app.
Qed.

Lemma split_go_skip (sep : string) (cur s : string) (k : nat) :
  split_go sep None k cur s = split_go sep None 0 cur (skip_chars k s).
Proof.
  revert k. induction s as [|c s IH]; intros k.
  - destruct k; reflexivity.
  - destruct k; [reflexivity|]. cbn [split_go skip_chars]. apply IH.
Qed.

(** [s.split(sep)] and [s.split(sep, 1)] of a text that contains [sep]:
    the part before the first occurrence, and the rest split further or
    left whole. *)
Lemma split_first (sep s : string) :
  sep <> "" -> contains sep s = true ->
  exists a b, s = (a ++ sep ++ b)%string
              /\ contains sep a = false
              /\ split s sep = a :: split b sep
              /\ split_max s sep 1 = [a; b].
Proof.
  intros Hsep Hc.
  destruct (split_go_first sep s Hsep Hc) as (a & b & H1 & H2 & H3 & _).
  exists a, b. split; [exact H1|]. split; [exact H2|]. split.
  - unfold split. rewrite H3 by discriminate.
    change ("" ++ a)%string with a. f_equal. cbn [option_map].
    rewrite split_go_skip, skip_sep by assumption. reflexivity.
  - unfold split_max. rewrite H3 by discriminate.
    change ("" ++ a)%string with a. f_equal. cbn [option_map pred].
    rewrite PyStrFacts.split_go_rest, skip_sep by assumption. reflexivity.
Qed.

Lemma app_same_length (a a' x y : string) :
  (a ++ x = a' ++ y)%string -> String.length a = String.length a' ->
  a = a' /\ x = y.
Proof.
  revert a'. induction a as [|c a IH]; intros [|c' a'] H L; try discriminate L.
  - split; [reflexivity | exact H].
  - cbn [append] in H. injection H as -> H. injection L as L.
    destruct (IH a' H L) as [-> ->]. split; reflexivity.
Qed.

Lemma app_cancel (a x y : string) : (a ++ x = a ++ y)%string -> x = y.
Proof. intros H. now destruct (app_same_length a a x y H eq_refl). Qed.

(** A text has one first occurrence of a separator at most: the two
    parts around it are determined. *)
Lemma first_cut_unique (sep s a b a' b' : string) :
  first_cut sep s a b -> first_cut sep s a' b' -> a = a' /\ b = b'.
Proof.
  intros [H1 M1] [H2 M2].
  assert (L : String.length a = String.length a').
  { specialize (M1 a' b' H2). specialize (M2 a b H1). lia. }
  rewrite H1 in H2. destruct (app_same_length _ _ _ _ H2 L) as [<- E].
  split; [reflexivity|]. now apply app_cancel in E.
Qed.

(** The same, with the first occurrence named as such: [a] is the part
    before it, both for [split] and for [split] with [maxsplit] 1. *)
Lemma split_first_cut (sep s : string) :
  sep <> "" -> contains sep s = true ->
  exists a b, first_cut sep s a b
              /\ split s sep = a :: split b sep
              /\ split_max s sep 1 = [a; b].
Proof.
  intros Hsep Hc.
  destruct (split_go_first sep s Hsep Hc) as (a & b & H1 & _ & H3 & H4).
  exists a, b. split; [split; assumption|]. split.
  - unfold split. rewrite H3 by discriminate.
    change ("" ++ a)%string with a. f_equal. cbn [option_map].
    rewrite split_go_skip, skip_sep by assumption. reflexivity.
  - unfold split_max. rewrite H3 by discriminate.
    change ("" ++ a)%string with a. f_equal. cbn [option_map pred].
    rewrite PyStrFacts.split_go_rest, skip_sep by assumption. reflexivity.
Qed.

End SplitFacts.

(* ================================================================== *)
(** ** Further facts: the analyzer, step by step *)

Section AnalyzerFacts.

Variable T : multipliers.
Variable w : World.

Lemma parse_url_value (repo_url : string) (r : outcome (string * string)) :
  snd (parse_url repo_url) = r -> parse_url repo_url = ([], r).
Proof.
  intros <-. pose proof (parse_url_silent repo_url) as Hs.
  destruct (parse_url repo_url) as [t r]. simpl in *. now subst.
Qed.

(** The repository id of lines 106-108 is the part of the path before its
    first "/tree/main/", else before its first "/blob/main/", else the
    whole path: what [split(sep, 1)] gives first at lines 131 and 157. *)
Lemma parse_url_repo_id (repo_url path_part repo_id : string) :
  snd (parse_url repo_url) = Value (path_part, repo_id) ->
  nth_error (split (rstrip "/" repo_url) "huggingface.co/") 1 = Some path_part
  /\ (contains "/tree/main/" path_part = true ->
      exists subfolder,
        split_max path_part "/tree/main/" 1 = [repo_id; subfolder]
        /\ path_part = (repo_id ++ "/tree/main/" ++ subfolder)%string
        /\ contains "/tree/main/" repo_id = false)
  /\ (contains "/tree/main/" path_part = false ->
      contains "/blob/main/" path_part = true ->
      exists file_path,
        split_max path_part "/blob/main/" 1 = [repo_id; file_path]
        /\ path_part = (repo_id ++ "/blob/main/" ++ file_path)%string
        /\ contains "/blob/main/" repo_id = false)
  /\ (contains "/tree/main/" path_part = false ->
      contains "/blob/main/" path_part = false -> repo_id = path_part).
Proof.
  unfold parse_url, item, bind, ret, raise.
  destruct (nth_error (split (rstrip "/" repo_url) "huggingface.co/") 1) as [p|];
    [|discriminate].
  destruct (contains "/tree/main/" p) eqn:Et.
  - destruct (SplitFacts.split_first "/tree/main/" p ltac:(discriminate) Et)
      as (a & b & H1 & H2 & H3 & H4).
    rewrite H3. simpl. intros [= <- <-]. split; [reflexivity|].
    rewrite Et. split; [|split; discriminate].
    intros _. exists b. auto.
  - destruct (contains "/blob/main/" p) eqn:Eb.
    + destruct (SplitFacts.split_first "/blob/main/" p ltac:(discriminate) Eb)
        as (a & b & H1 & H2 & H3 & H4).
      rewrite H3. simpl. intros [= <- <-]. split; [reflexivity|].
      rewrite Et, Eb. split; [discriminate|]. split; [|discriminate].
      intros _ _. exists b. auto.
    + simpl. intros [= <- <-]. split; [reflexivity|].
      rewrite Et, Eb. split; [discriminate|]. split; [discriminate|]. reflexivity.
Qed.

(** An accepted URL whose repository is found: the first lookup, the task
    and the memory probe, then the single-file branch and the analysis of
    the repository. *)
Lemma analyze_accepted (repo_url path_part repo_id : string)
      (siblings : list RemoteFile) :
  contains "huggingface.co/" repo_url = true ->
  snd (parse_url repo_url) = Value (path_part, repo_id) ->
  model_info w repo_id false = Some siblings ->
  analyze T w repo_url =
  bind ([ModelInfo repo_id false; AddTask "Analyzing system resources..."; SystemMemory],
        Value tt)
       (fun _ =>
          bind (blob_branch T w path_part repo_id
                            (fst (system_memory w)) (snd (system_memory w)))
               (fun r => repository_analysis T w path_part r
                           (fst (system_memory w)) (snd (system_memory w)))).
Proof.
  intros Hurl Hparse Hinfo. apply parse_url_value in Hparse.
  unfold analyze. rewrite Hurl. cbn [negb]. rewrite Hparse.
  unfold api_model_info at 1. cbn [bind emit ret app]. rewrite Hinfo.
  cbn [bind emit ret app try_except].
  unfold get_system_memory. cbn [bind emit ret app].
  destruct (system_memory w) as [ram_gb vram_gb]. cbn [fst snd].
  destruct (bind (blob_branch T w path_part repo_id ram_gb vram_gb) _) as [t r].
  reflexivity.
Qed.

(** Lines 155-161 for a path without "/blob/main/": the repository id is
    the one of the first lookup. *)
Lemma repository_analysis_resolved (repo_url path_part repo_id : string)
      (ram_gb vram_gb : float) :
  snd (parse_url repo_url) = Value (path_part, repo_id) ->
  repository_analysis T w path_part repo_id ram_gb vram_gb =
  bind ([AddTask ("Analyzing repository: " ++ repo_id ++ "...")%string], Value tt)
       (fun _ =>
          bind (api_model_info w repo_id true)
               (fun all_files =>
                  bind (gguf_scan T repo_id all_files ram_gb vram_gb)
                       (fun vt =>
                          match fst vt with
                          | _ :: _ => viable_report (fst vt) (snd vt)
                          | [] => weights_report T repo_id (subfolder_of path_part)
                                                 all_files ram_gb vram_gb
                          end))).
Proof.
  intros Hparse. destruct (parse_url_repo_id _ _ _ Hparse) as (_ & Ht & _ & _).
  unfold repository_analysis, subfolder_of.
  destruct (contains "/tree/main/" path_part) eqn:Et.
  - destruct (Ht eq_refl) as (sub & Hs & _ & _).
    unfold split_pair. rewrite Hs. cbn [bind ret emit app].
    destruct (api_model_info w repo_id true) as [t [files|e]]; cbn [bind]; [|reflexivity].
    destruct (gguf_scan T repo_id files ram_gb vram_gb) as [t' [[v tbl]|e]];
      cbn [bind fst snd]; [|reflexivity].
    destruct (match v with [] => _ | _ :: _ => _ end) as [t3 r3]. reflexivity.
  - cbn [bind ret emit app].
    destruct (api_model_info w repo_id true) as [t [files|e]]; cbn [bind]; [|reflexivity].
    destruct (gguf_scan T repo_id files ram_gb vram_gb) as [t' [[v tbl]|e]];
      cbn [bind fst snd]; [|reflexivity].
    destruct (match v with [] => _ | _ :: _ => _ end) as [t3 r3]. reflexivity.
Qed.

Lemma viable_loop_trace (items : groups) (ram_gb vram_gb : float)
      (viable_quants : list viable_quant) :
  viable_loop T items ram_gb vram_gb viable_quants =
  (scan_events T ram_gb vram_gb items,
   Value (viable_quants
          ++ filter (fun v => negb (is_too_large v))
                    (map (group_entry T ram_gb vram_gb) items))).
Proof.
  revert viable_quants.
  induction items as [|[quant_type group] items IH]; intros acc.
  - simpl. now rewrite app_nil_r.
  - cbn [map filter].
    change (is_too_large (group_entry T ram_gb vram_gb (quant_type, group)))
      with (label_has "Too large"
              (get_performance_label
                 (estimate_ram_requirement T quant_type (Float (group_size group)))
                 ram_gb vram_gb)).
    cbn [viable_loop]. unfold call_estimate, call_label. cbn [bind emit ret app].
    rewrite IH. unfold scan_events. cbn [flat_map fst snd app]. f_equal. f_equal.
    destruct (label_has "Too large" _); cbn [negb]; [reflexivity|].
    now rewrite <- app_assoc.
Qed.

(** The loop of lines 222-226 adds up the sizes of the files it counts. *)
Lemma weights_total (subfolder : option string) (all_files : list RemoteFile) (acc : Z) :
  fold_left (weights_step [".safetensors"; ".bin"] subfolder) all_files acc
  = (acc + total_bytes (filter (counted subfolder) all_files))%Z.
Proof.
  revert acc. induction all_files as [|f files IH]; intros acc.
  - simpl. lia.
  - cbn [fold_left filter]. rewrite IH. unfold weights_step, counted.
    destruct (existsb (endswith (rfilename f)) _); cbn [andb].
    + destruct subfolder as [[|c p]|]; cbn [truthy andb negb].
      * simpl. lia.
      * destruct (startswith (rfilename f) (String c p)); simpl; lia.
      * simpl. lia.
    + lia.
Qed.

End AnalyzerFacts.

Section OutputFacts.

Variable T : multipliers.
Variable w : World.

Lemma outputs_app (a b : list event) : outputs (a ++ b) = outputs a ++ outputs b.
Proof. apply filter_app. Qed.

Lemma bind_step {A B} (m : Run A) (k : A -> Run B) :
  step m -> (forall a, snd m = Value a -> step (k a)) -> step (bind m k).
Proof.
  destruct m as [t [a|e]]; unfold step; cbn [bind fst snd].
  - intros Ht Hk. specialize (Hk a eq_refl). destruct (k a) as [t' r].
    cbn [fst snd] in *. rewrite outputs_app, Ht. exact Hk.
  - intros H _. exact H.
Qed.

Lemma bind_concluded {A B} (m : Run A) (k : A -> Run B) :
  step m -> (forall a, snd m = Value a -> concluded (k a)) -> concluded (bind m k).
Proof.
  destruct m as [t [a|e]]; unfold step, concluded; cbn [bind fst snd].
  - intros Ht Hk. specialize (Hk a eq_refl). destruct (k a) as [t' r].
    cbn [fst snd] in *. rewrite outputs_app, Ht. exact Hk.
  - intros H _. exact H.
Qed.

Lemma step_ret {A} (a : A) : step (ret a).
Proof. reflexivity. Qed.

Lemma step_emit (e : event) : is_output e = false -> step (emit e).
Proof. intros H. unfold step, emit, outputs. simpl. now rewrite H. Qed.

Lemma step_item (l : list string) (i : nat) : step (item l i).
Proof.
  unfold item. destruct (nth_error l i); [apply step_ret|].
  split; [reflexivity | left; reflexivity].
Qed.

Lemma step_parse_url (repo_url : string) : step (parse_url repo_url).
Proof.
  unfold parse_url. apply bind_step; [apply step_item|]. intros p _.
  apply bind_step; [|intros; apply step_ret].
  destruct (contains "/tree/main/" p); [apply step_item|].
  destruct (contains "/blob/main/" p); [apply step_item | apply step_ret].
Qed.

Lemma step_api_model_info (repo_id : string) (files_metadata : bool) :
  step (api_model_info w repo_id files_metadata).
Proof.
  unfold api_model_info. apply bind_step; [now apply step_emit|]. intros _ _.
  destruct (model_info w repo_id files_metadata); [apply step_ret|].
  split; [reflexivity | right; reflexivity].
Qed.

Lemma step_split_pair (s sep : string) :
  sep <> "" -> contains sep s = true -> step (split_pair s sep).
Proof.
  intros Hsep Hc. unfold split_pair.
  destruct (SplitFacts.split_first sep s Hsep Hc) as (a & b & _ & _ & _ & ->).
  apply step_ret.
Qed.

Lemma step_call_estimate (file_name : string) (bytes : number) :
  step (call_estimate T file_name bytes).
Proof. reflexivity. Qed.

Lemma step_call_label (need ram vram : float) : step (call_label need ram vram).
Proof. reflexivity. Qed.

Lemma outputs_scan_events (ram_gb vram_gb : float) (items : groups) :
  outputs (scan_events T ram_gb vram_gb items) = [].
Proof. induction items as [|kv items IH]; [reflexivity | exact IH]. Qed.

Lemma step_blob_branch (path_part repo_id : string) (ram_gb vram_gb : float) :
  step (blob_branch T w path_part repo_id ram_gb vram_gb).
Proof.
  unfold blob_branch. destruct (contains "/blob/main/" path_part) eqn:Eb;
    [|apply step_ret].
  apply bind_step; [apply step_split_pair; [discriminate | exact Eb]|].
  intros [r file_path] _.
  apply bind_step; [now apply step_emit|]. intros _ _.
  apply bind_step; [apply step_api_model_info|]. intros all_files _.
  destruct (find _ all_files) as [target|]; [|apply step_ret].
  unfold step, blob_report, call_estimate, call_label. cbn.
  repeat right. eexists. reflexivity.
Qed.

Lemma min_by_size_some (l : list viable_quant) : l <> [] -> min_by_size l <> None.
Proof. destruct l; [congruence | discriminate]. Qed.

Lemma max_by_size_some (l : list viable_quant) : l <> [] -> max_by_size l <> None.
Proof. destruct l; [congruence | discriminate]. Qed.

(** The fallback of line 202 is never needed: among quantizations none
    of which is too large, one that is not slow is GPU-Ready or Ready. *)
Lemma recommended_quant_some (viable : list viable_quant) :
  viable <> [] -> (forall v, In v viable -> verdict_of v <> Too_large) ->
  recommended_quant viable <> None.
Proof.
  intros Hne Hv. unfold recommended_quant.
  rewrite gpu_ready_quants_verdict, ready_quants_verdict, slow_quants_verdict.
  destruct (forallb is_slow viable) eqn:Eslow; [now apply min_by_size_some|].
  destruct (with_verdict GPU_Ready viable) as [|g gs] eqn:Eg;
    [|apply max_by_size_some; discriminate].
  destruct (with_verdict Ready viable) as [|p ps] eqn:Ep;
    [|apply max_by_size_some; discriminate].
  exfalso.
  assert (H : Forall (fun v => verdict_of v = Will_be_slow) viable).
  { apply Forall_forall. intros v Hin.
    pose proof (with_verdict_nil _ _ Eg v Hin).
    pose proof (with_verdict_nil _ _ Ep v Hin).
    pose proof (Hv v Hin).
    destruct (verdict_of v); congruence. }
  apply all_slow_forallb in H. congruence.
Qed.

Lemma concluded_viable_report (viable : list viable_quant) (tbl : table) :
  viable <> [] -> (forall v, In v viable -> verdict_of v <> Too_large) ->
  concluded (viable_report viable tbl).
Proof.
  intros Hne Hv. unfold viable_report.
  pose proof (recommended_quant_some viable Hne Hv) as H.
  destruct (recommended_quant viable) as [best|]; [|congruence].
  unfold concluded. cbn. repeat right. eexists. reflexivity.
Qed.

Lemma concluded_weights_report (repo_id : string) (subfolder : option string)
      (all_files : list RemoteFile) (ram_gb vram_gb : float) :
  concluded (weights_report T repo_id subfolder all_files ram_gb vram_gb).
Proof.
  unfold weights_report. destruct (_ =? 0)%Z.
  - unfold concluded. cbn. right. right. right. left. reflexivity.
  - unfold concluded, call_estimate, call_label. cbn. repeat right. eexists. reflexivity.
Qed.

Lemma viable_not_too_large (repo_id : string) (all_files : list RemoteFile)
      (ram_gb vram_gb : float) (viable : list viable_quant) (tbl : table) :
  snd (gguf_scan T repo_id all_files ram_gb vram_gb) = Value (viable, tbl) ->
  forall v, In v viable -> verdict_of v <> Too_large.
Proof.
  intros H v Hin.
  destruct (contains "GGUF" (upper repo_id)) eqn:Eg.
  - destruct (gguf_scan T repo_id all_files ram_gb vram_gb) as [t r] eqn:E.
    simpl in H. subst r.
    destruct (gguf_scan_value T _ _ _ _ _ _ _ Eg E) as [-> _].
    apply (Permutation_in _ (sort_by_size_perm _)) in Hin.
    apply filter_In in Hin. destruct Hin as [_ Hn].
    rewrite too_large_verdict in Hn. intros Ev. rewrite Ev in Hn. discriminate.
  - unfold gguf_scan in H. rewrite Eg in H. simpl in H.
    injection H as <- _. contradiction.
Qed.

Lemma step_gguf_scan (repo_id : string) (all_files : list RemoteFile)
      (ram_gb vram_gb : float) :
  step (gguf_scan T repo_id all_files ram_gb vram_gb).
Proof.
  unfold gguf_scan. destruct (contains "GGUF" (upper repo_id)); [|apply step_ret].
  destruct (filter _ all_files) as [|f files].
  - unfold step. cbn. right. right. left. reflexivity.
  - unfold call_group. cbn [bind emit ret app].
    rewrite viable_loop_trace. unfold step. cbn [fst snd bind ret app].
    rewrite app_nil_r. unfold outputs. cbn [filter is_output].
    apply outputs_scan_events.
Qed.

Lemma concluded_repository_analysis (path_part repo_id : string)
      (ram_gb vram_gb : float) :
  concluded (repository_analysis T w path_part repo_id ram_gb vram_gb).
Proof.
  unfold repository_analysis.
  apply bind_concluded.
  { destruct (contains "/tree/main/" path_part) eqn:Et; [|apply step_ret].
    apply bind_step; [apply step_split_pair; [discriminate | exact Et]|].
    intros [r sub] _. apply step_ret. }
  intros [r sub] _.
  apply bind_concluded; [now apply step_emit|]. intros _ _.
  apply bind_concluded; [apply step_api_model_info|]. intros all_files _.
  apply bind_concluded; [apply step_gguf_scan|]. intros [viable tbl] Hv.
  destruct viable as [|v viable]; [apply concluded_weights_report|].
  apply concluded_viable_report; [discriminate|].
  exact (viable_not_too_large _ _ _ _ _ _ Hv).
Qed.

Lemma concluded_analyze (repo_url : string) : concluded (analyze T w repo_url).
Proof.
  unfold analyze. destruct (contains "huggingface.co/" repo_url); cbn [negb].
  2:{ unfold concluded. cbn. left. reflexivity. }
  apply bind_concluded; [apply step_parse_url|]. intros [path_part repo_id] _.
  apply bind_concluded.
  { unfold api_model_info. cbn [bind emit ret app].
    destruct (model_info w repo_id false); cbn.
    - reflexivity.
    - unfold step. cbn. right. left. reflexivity. }
  intros _ _.
  apply bind_concluded; [now apply step_emit|]. intros _ _.
  apply bind_concluded; [reflexivity|]. intros [ram_gb vram_gb] _.
  apply bind_concluded; [apply step_blob_branch|]. intros r _.
  apply concluded_repository_analysis.
Qed.

End OutputFacts.

(* ================================================================== *)
(** ** The URL of the analyzer *)

(** X1.  A URL that contains "huggingface.co/" only so that stripping its
    trailing slashes removes it (the bare host, "https://huggingface.co/")
    has no [parts[1]]: the analyzer ends with an IndexError, before any
    lookup and without a message.  Every other accepted URL is parsed:
    the path is what follows the first "huggingface.co/" of the stripped
    URL, up to the first further "huggingface.co/" if there is one; and
    the repository id is the path up to its first "/tree/main/", else up
    to its first "/blob/main/", else the path itself, which is also what
    the unpackings of lines 157 and 131 split off. *)
Theorem parse_url_path_and_repo_id (T : multipliers) (w : World) (repo_url : string) :
  contains "huggingface.co/" repo_url = true ->
  (contains "huggingface.co/" (rstrip "/" repo_url) = false ->
   analyze_huggingface_url T w repo_url = ([], Raised "IndexError"))
  /\ (contains "huggingface.co/" (rstrip "/" repo_url) = true ->
      exists before rest path_part repo_id,
        first_cut "huggingface.co/" (rstrip "/" repo_url) before rest
        /\ (contains "huggingface.co/" rest = false -> path_part = rest)
        /\ (contains "huggingface.co/" rest = true ->
            exists more, first_cut "huggingface.co/" rest path_part more)
        /\ parse_url repo_url = ([], Value (path_part, repo_id))
        /\ (contains "/tree/main/" path_part = true ->
            exists subfolder,
              first_cut "/tree/main/" path_part repo_id subfolder
              /\ split_max path_part "/tree/main/" 1 = [repo_id; subfolder])
        /\ (contains "/tree/main/" path_part = false ->
            contains "/blob/main/" path_part = true ->
            exists file_path,
              first_cut "/blob/main/" path_part repo_id file_path
              /\ split_max path_part "/blob/main/" 1 = [repo_id; file_path])
        /\ (contains "/tree/main/" path_part = false ->
            contains "/blob/main/" path_part = false -> repo_id = path_part)).
Proof.
  intros Hurl. split.
  - intros Hs. unfold analyze_huggingface_url, analyze. rewrite Hurl. cbn [negb].
    unfold parse_url. rewrite (SplitFacts.split_no_sep _ _ Hs). reflexivity.
  - intros Hs.
    destruct (SplitFacts.split_first_cut "huggingface.co/" _ ltac:(discriminate) Hs)
      as (before & rest & Hcut & Hsplit & _).
    assert (Hpath : exists path_part,
               nth_error (split rest "huggingface.co/") 0 = Some path_part
               /\ (contains "huggingface.co/" rest = false -> path_part = rest)
               /\ (contains "huggingface.co/" rest = true ->
                   exists more, first_cut "huggingface.co/" rest path_part more)).
    { destruct (contains "huggingface.co/" rest) eqn:Er.
      - destruct (SplitFacts.split_first_cut "huggingface.co/" _ ltac:(discriminate) Er)
          as (a & b & Hab & -> & _).
        exists a. split; [reflexivity|]. split; [discriminate|].
        intros _. exists b. exact Hab.
      - rewrite (SplitFacts.split_no_sep _ _ Er). exists rest.
        split; [reflexivity|]. split; [reflexivity | discriminate]. }
    destruct Hpath as (path_part & Hp & Hrest & Hmore).
    assert (Hnth : nth_error (split (rstrip "/" repo_url) "huggingface.co/") 1
                   = Some path_part).
    { rewrite Hsplit. exact Hp. }
    assert (Hv : exists repo_id,
               parse_url repo_url = ([], Value (path_part, repo_id))
               /\ (contains "/tree/main/" path_part = true ->
                   exists subfolder,
                     first_cut "/tree/main/" path_part repo_id subfolder
                     /\ split_max path_part "/tree/main/" 1 = [repo_id; subfolder])
               /\ (contains "/tree/main/" path_part = false ->
                   contains "/blob/main/" path_part = true ->
                   exists file_path,
                     first_cut "/blob/main/" path_part repo_id file_path
                     /\ split_max path_part "/blob/main/" 1 = [repo_id; file_path])
               /\ (contains "/tree/main/" path_part = false ->
                   contains "/blob/main/" path_part = false -> repo_id = path_part)).
    { unfold parse_url, item. rewrite Hnth. cbn [bind ret app].
      destruct (contains "/tree/main/" path_part) eqn:Et.
      - destruct (SplitFacts.split_first_cut "/tree/main/" _ ltac:(discriminate) Et)
          as (a & b & Hab & Hsp & Hmax).
        exists a. rewrite Hsp. split; [reflexivity|].
        split; [intros _; exists b; auto|]. split; discriminate.
      - destruct (contains "/blob/main/" path_part) eqn:Eb.
        + destruct (SplitFacts.split_first_cut "/blob/main/" _ ltac:(discriminate) Eb)
            as (a & b & Hab & Hsp & Hmax).
          exists a. rewrite Hsp. split; [reflexivity|].
          split; [discriminate|]. split; [intros _ _; exists b; auto | discriminate].
        + exists path_part. split; [reflexivity|].
          split; [discriminate|]. split; [discriminate | reflexivity]. }
    destruct Hv as (repo_id & Hv & Ht & Hb & Hn).
    exists before, rest, path_part, repo_id. tauto.
Qed.

Lemma parse_url_path_and_repo_id_witness :
  (contains "huggingface.co/" "https://huggingface.co/" = true
   /\ contains "huggingface.co/" (rstrip "/" "https://huggingface.co/") = false
   /\ analyze_huggingface_url Sample.base_keys Sample.world "https://huggingface.co/"
      = ([], Raised "IndexError"))
  /\ (contains "huggingface.co/" Sample.nested_blob_url = true
      /\ contains "huggingface.co/" (rstrip "/" Sample.nested_blob_url) = true
      /\ exists before rest path_part repo_id,
           first_cut "huggingface.co/" (rstrip "/" Sample.nested_blob_url) before rest
           /\ parse_url Sample.nested_blob_url = ([], Value (path_part, repo_id))).
Proof.
  split.
  - split; [reflexivity|]. split; [reflexivity|].
    apply (proj1 (parse_url_path_and_repo_id Sample.base_keys Sample.world
                    "https://huggingface.co/" eq_refl)).
    reflexivity.
  - split; [reflexivity|]. split; [reflexivity|].
    destruct (proj2 (parse_url_path_and_repo_id Sample.base_keys Sample.world
                       Sample.nested_blob_url eq_refl) eq_refl)
      as (before & rest & path_part & repo_id & H1 & _ & _ & H4 & _).
    exists before, rest, path_part, repo_id. split; assumption.
Defined.

(* ================================================================== *)
(** ** Further facts: endings of file names, and the listing *)

Module SuffixFacts.

Lemma endswith_refl (s : string) : endswith s s = true.
Proof. destruct s as [|c s]; simpl; [reflexivity|]. now rewrite Ascii.eqb_refl, String.eqb_refl. Qed.

(** Of two endings of one text, one is an ending of the other. *)
Lemma endswith_chain (s x y : string) :
  endswith s x = true -> endswith s y = true ->
  endswith x y = true \/ endswith y x = true.
Proof.
  induction s as [|c s IH]; intros Hx Hy.
  - cbn [endswith] in Hx, Hy.
    destruct (String.eqb "" x) eqn:Ex; [|discriminate].
    apply String.eqb_eq in Ex. subst x.
    destruct (String.eqb "" y) eqn:Ey; [|discriminate].
    apply String.eqb_eq in Ey. subst y. left. reflexivity.
  - cbn [endswith] in Hx, Hy.
    destruct (String.eqb (String c s) x) eqn:Ex.
    + apply String.eqb_eq in Ex. subst x. left.
      cbn [endswith]. exact Hy.
    + destruct (String.eqb (String c s) y) eqn:Ey.
      * apply String.eqb_eq in Ey. subst y. right.
        cbn [endswith]. rewrite Ex. exact Hx.
      * apply IH; assumption.
Qed.

Lemma gguf_not_counted (subfolder : option string) (f : RemoteFile) :
  endswith (rfilename f) ".gguf" = true -> counted subfolder f = false.
Proof.
  intros H. unfold counted. cbn [existsb].
  destruct (endswith (rfilename f) ".safetensors") eqn:E1.
  { destruct (endswith_chain _ _ _ H E1) as [C|C]; vm_compute in C; discriminate. }
  destruct (endswith (rfilename f) ".bin") eqn:E2.
  { destruct (endswith_chain _ _ _ H E2) as [C|C]; vm_compute in C; discriminate. }
  reflexivity.
Qed.

End SuffixFacts.

Section RepositoryFacts.

Local Open Scope float_scope.

Variable T : multipliers.
Variable w : World.

(** A URL without "/blob/main/" whose repository is found, up to the
    listing of its files. *)
Lemma analyze_repository (repo_url path_part repo_id : string)
      (siblings : list RemoteFile) :
  contains "huggingface.co/" repo_url = true ->
  snd (parse_url repo_url) = Value (path_part, repo_id) ->
  model_info w repo_id false = Some siblings ->
  contains "/blob/main/" path_part = false ->
  let ram_gb := fst (system_memory w) in
  let vram_gb := snd (system_memory w) in
  analyze T w repo_url =
  bind ([ModelInfo repo_id false; AddTask "Analyzing system resources..."; SystemMemory;
         AddTask ("Analyzing repository: " ++ repo_id ++ "...")%string;
         ModelInfo repo_id true],
        match model_info w repo_id true with
        | Some all_files => Value all_files
        | None => Exit (Raised "Exception")
        end)
       (fun all_files =>
          bind (gguf_scan T repo_id all_files ram_gb vram_gb)
               (fun vt =>
                  match fst vt with
                  | _ :: _ => viable_report (fst vt) (snd vt)
                  | [] => weights_report T repo_id (subfolder_of path_part)
                                         all_files ram_gb vram_gb
                  end)).
Proof.
  intros Hurl Hparse Hinfo Hblob. cbv zeta.
  rewrite (analyze_accepted T w _ _ _ _ Hurl Hparse Hinfo).
  unfold blob_branch. rewrite Hblob. cbn [bind ret app].
  rewrite (repository_analysis_resolved T w _ _ _ _ _ Hparse).
  unfold api_model_info. cbn [bind emit ret app].
  destruct (model_info w repo_id true) as [all_files|]; cbn [bind ret raise app];
    [|reflexivity].
  destruct (bind (gguf_scan T repo_id all_files _ _) _) as [t r]. reflexivity.
Qed.

End RepositoryFacts.

(* ================================================================== *)
(** ** The repository analyzer: rejected URLs and failed lookups *)

Section SilentFacts.

Local Open Scope float_scope.

Variable T : multipliers.
Variable w : World.












Lemma viable_loop_no_exception (items : groups) (ram_gb vram_gb : float)
      (viable_quants : list viable_quant) :
  no_lookup_exception (viable_loop T items ram_gb vram_gb viable_quants).
Proof. rewrite viable_loop_trace. discriminate. Qed.






End SilentFacts.





(* ================================================================== *)
(** ** What the analyzer tells the user *)

Local Open Scope float_scope.

(** X2.  Whatever the table, the hub, the machine and the URL: a call of
    the analyzer that returns has told the user exactly one thing, the
    invalid-URL message, the two lines of the not-found message, the
    no-GGUF-files message, the no-model-files message or one panel; and a
    call that ends with an exception has told nothing, the exception being
    the IndexError of [parts[1]] or the one raised by a lookup.  (The
    unpackings of lines 131 and 157 and the [min] and [max] of lines
    195-202 never raise.) *)
Theorem analyze_tells_once (T : multipliers) (w : World) (repo_url : string) :
  let run := analyze_huggingface_url T w repo_url in
  (snd run = Returned -> is_report (outputs (fst run)))
  /\ (forall exc, snd run = Raised exc ->
        outputs (fst run) = [] /\ (exc = "IndexError" \/ exc = "Exception")).
Proof.
  cbv zeta. unfold analyze_huggingface_url.
  pose proof (concluded_analyze T w repo_url) as H. unfold concluded in H.
  destruct (analyze T w repo_url) as [t [[]|[|exc]]]; cbn [finish fst snd] in *.
  - split; [intros _; exact H | discriminate].
  - split; [intros _; exact H | discriminate].
  - split; [discriminate|]. intros exc' [= <-]. exact H.
Qed.



(** X4.  A repository whose id contains "GGUF" (in any case) and whose
    listing has no file ending in ".gguf": the analyzer prints the
    no-GGUF-files message and returns; it does not go on to the plain
    weight files, whatever else the listing holds. *)
Theorem gguf_repository_without_gguf_files (T : multipliers) (w : World)
        (repo_url path_part repo_id : string) (siblings all_files : list RemoteFile) :
  contains "huggingface.co/" repo_url = true ->
  snd (parse_url repo_url) = Value (path_part, repo_id) ->
  model_info w repo_id false = Some siblings ->
  contains "/blob/main/" path_part = false ->
  model_info w repo_id true = Some all_files ->
  contains "GGUF" (upper repo_id) = true ->
  gguf_files_of all_files = [] ->
  analyze_huggingface_url T w repo_url =
  ([ModelInfo repo_id false; AddTask "Analyzing system resources..."; SystemMemory;
    AddTask ("Analyzing repository: " ++ repo_id ++ "...")%string;
    ModelInfo repo_id true;
    Print "[red]No GGUF files found in repository[/red]"],
   Returned).
Proof.
  intros Hurl Hparse Hinfo Hblob Hmeta Hgguf Hnone.
  unfold analyze_huggingface_url.
  rewrite (analyze_repository T w _ _ _ _ Hurl Hparse Hinfo Hblob), Hmeta.
  cbn [bind]. unfold gguf_scan. rewrite Hgguf. unfold gguf_files_of in Hnone. rewrite Hnone.
  reflexivity.
Qed.

Lemma gguf_repository_without_gguf_files_witness :
  analyze_huggingface_url Sample.base_keys
    (mkWorld Sample.docs_hub (16, 0)) "https://huggingface.co/org/docs-GGUF" =
  ([ModelInfo "org/docs-GGUF" false; AddTask "Analyzing system resources...";
    SystemMemory; AddTask "Analyzing repository: org/docs-GGUF...";
    ModelInfo "org/docs-GGUF" true;
    Print "[red]No GGUF files found in repository[/red]"],
   Returned).
Proof.
  cbv zeta.
  apply (gguf_repository_without_gguf_files Sample.base_keys
           (mkWorld Sample.docs_hub (16, 0))
           "https://huggingface.co/org/docs-GGUF" "org/docs-GGUF" "org/docs-GGUF"
           [mkFile "README.md" 1024] [mkFile "README.md" 1024]);
    reflexivity.
Defined.

(** X5.  A GGUF repository that has GGUF files none of whose groups is
    viable (every group is too large, or no file matches a key): after
    grouping, estimating and classifying, the analyzer prints no panel of
    quantizations; it goes on to the report on plain weight files and
    ends as that report ends.  When all files of the listing are GGUF
    files, the user is told that no model files (.safetensors, .bin)
    were found. *)
Theorem gguf_none_viable_reports_weights (T : multipliers) (w : World)
        (repo_url path_part repo_id : string) (siblings all_files : list RemoteFile) :
  contains "huggingface.co/" repo_url = true ->
  snd (parse_url repo_url) = Value (path_part, repo_id) ->
  model_info w repo_id false = Some siblings ->
  contains "/blob/main/" path_part = false ->
  model_info w repo_id true = Some all_files ->
  contains "GGUF" (upper repo_id) = true ->
  gguf_files_of all_files <> [] ->
  let ram_gb := fst (system_memory w) in
  let vram_gb := snd (system_memory w) in
  let grouped_files := group_split_files T (gguf_files_of all_files) in
  Forall (fun kv => is_too_large (group_entry T ram_gb vram_gb kv) = true)
         grouped_files ->
  let weights :=
    finish (weights_report T repo_id (subfolder_of path_part) all_files ram_gb vram_gb) in
  let run := analyze_huggingface_url T w repo_url in
  run =
  ([ModelInfo repo_id false; AddTask "Analyzing system resources..."; SystemMemory;
    AddTask ("Analyzing repository: " ++ repo_id ++ "...")%string;
    ModelInfo repo_id true;
    GroupSplitFiles (gguf_files_of all_files)]
   ++ scan_events T ram_gb vram_gb grouped_files ++ fst weights,
   snd weights)
  /\ (Forall (fun f => endswith (rfilename f) ".gguf" = true) all_files ->
      outputs (fst run)
      = [Print "[red]No model files (.safetensors, .bin) found in the specified repo/subfolder.[/red]"]
      /\ snd run = Returned).
Proof.
  intros Hurl Hparse Hinfo Hblob Hmeta Hgguf Hsome. cbv zeta. intros Hall.
  assert (Hrun :
    analyze_huggingface_url T w repo_url =
    ([ModelInfo repo_id false; AddTask "Analyzing system resources..."; SystemMemory;
      AddTask ("Analyzing repository: " ++ repo_id ++ "...")%string;
      ModelInfo repo_id true;
      GroupSplitFiles (gguf_files_of all_files)]
     ++ scan_events T (fst (system_memory w)) (snd (system_memory w))
          (group_split_files T (gguf_files_of all_files))
     ++ fst (finish (weights_report T repo_id (subfolder_of path_part) all_files
                       (fst (system_memory w)) (snd (system_memory w)))),
     snd (finish (weights_report T repo_id (subfolder_of path_part) all_files
                    (fst (system_memory w)) (snd (system_memory w)))))).
  { unfold analyze_huggingface_url.
    rewrite (analyze_repository T w _ _ _ _ Hurl Hparse Hinfo Hblob), Hmeta.
    cbn [bind]. unfold gguf_scan. rewrite Hgguf. fold (gguf_files_of all_files).
    destruct (gguf_files_of all_files) as [|f files] eqn:E; [congruence|].
    unfold call_group. cbn [bind emit ret app]. rewrite viable_loop_trace.
    assert (Hnil : filter (fun v => negb (is_too_large v))
                     (map (group_entry T (fst (system_memory w)) (snd (system_memory w)))
                          (group_split_files T (f :: files))) = []).
    { clear - Hall. induction Hall as [|kv l Hkv _ IH]; [reflexivity|].
      cbn [map filter]. rewrite Hkv. exact IH. }
    rewrite Hnil. cbn [bind ret app fst snd sort_by_size fold_left].
    destruct (weights_report T repo_id _ _ _ _) as [t [[]|e]];
      cbn [finish fst snd]; rewrite ?app_nil_r; reflexivity. }
  split; [exact Hrun|].
  intros Hfiles. rewrite Hrun. cbn [fst snd].
  assert (Hw : weights_report T repo_id (subfolder_of path_part) all_files
                 (fst (system_memory w)) (snd (system_memory w))
               = ([Print (no_model_files_msg [".safetensors"; ".bin"])], Exit Returned)).
  { unfold weights_report. rewrite weights_total.
    assert (Hnone : filter (counted (subfolder_of path_part)) all_files = []).
    { clear - Hfiles. induction Hfiles as [|f l Hf _ IH]; [reflexivity|].
      cbn [filter]. now rewrite (SuffixFacts.gguf_not_counted _ _ Hf). }
    rewrite Hnone. reflexivity. }
  rewrite Hw. cbn [finish fst snd]. split; [|reflexivity].
  rewrite outputs_app. cbn [outputs filter is_output app].
  rewrite outputs_app, outputs_scan_events. reflexivity.
Qed.

Lemma gguf_none_viable_reports_weights_witness :
  let run := analyze_huggingface_url Sample.base_keys Sample.small_world
               "https://huggingface.co/org/m-GGUF" in
  gguf_files_of Sample.example_files <> []
  /\ Forall (fun kv => is_too_large (group_entry Sample.base_keys 4 0 kv) = true)
            (group_split_files Sample.base_keys (gguf_files_of Sample.example_files))
  /\ Forall (fun f => endswith (rfilename f) ".gguf" = true) Sample.example_files
  /\ outputs (fst run)
     = [Print "[red]No model files (.safetensors, .bin) found in the specified repo/subfolder.[/red]"]
  /\ snd run = Returned.
Proof.
  cbv zeta.
  assert (H1 : gguf_files_of Sample.example_files <> []) by discriminate.
  assert (H2 : Forall (fun kv => is_too_large (group_entry Sample.base_keys 4 0 kv) = true)
                 (group_split_files Sample.base_keys
                    (gguf_files_of Sample.example_files))).
  { apply Forall_forall. intros kv Hin. vm_compute in Hin.
    destruct Hin as [<-|[<-|[]]]; vm_compute; reflexivity. }
  assert (H3 : Forall (fun f => endswith (rfilename f) ".gguf" = true)
                      Sample.example_files).
  { repeat constructor. }
  split; [exact H1|]. split; [exact H2|]. split; [exact H3|].
  exact (proj2 (gguf_none_viable_reports_weights Sample.base_keys Sample.small_world
                  "https://huggingface.co/org/m-GGUF" "org/m-GGUF" "org/m-GGUF"
                  Sample.example_files Sample.example_files
                  eq_refl eq_refl eq_refl eq_refl eq_refl eq_refl H1 H2) H3).
Defined.

(** X6.  A repository whose id does not contain "GGUF", reached by a URL
    without "/blob/main/": the analyzer adds up the sizes of the files
    whose names end in ".safetensors" or ".bin" and, when the URL names a
    non-empty subfolder, start with that subfolder.  A total of zero gives
    the no-model-files message; any other total is estimated under the
    repository id as label, classified, and shown in one panel. *)
Theorem plain_weights_report (T : multipliers) (w : World)
        (repo_url path_part repo_id : string) (siblings all_files : list RemoteFile) :
  contains "huggingface.co/" repo_url = true ->
  snd (parse_url repo_url) = Value (path_part, repo_id) ->
  model_info w repo_id false = Some siblings ->
  contains "/blob/main/" path_part = false ->
  model_info w repo_id true = Some all_files ->
  contains "GGUF" (upper repo_id) = false ->
  let ram_gb := fst (system_memory w) in
  let vram_gb := snd (system_memory w) in
  let total_size_bytes :=
    total_bytes (filter (counted (subfolder_of path_part)) all_files) in
  let need := estimate_ram_requirement T repo_id (Int total_size_bytes) in
  analyze_huggingface_url T w repo_url =
  ([ModelInfo repo_id false; AddTask "Analyzing system resources..."; SystemMemory;
    AddTask ("Analyzing repository: " ++ repo_id ++ "...")%string;
    ModelInfo repo_id true]
   ++ (if (total_size_bytes =? 0)%Z
       then [Print "[red]No model files (.safetensors, .bin) found in the specified repo/subfolder.[/red]"]
       else [EstimateRam repo_id (Int total_size_bytes);
             PerformanceLabel need ram_gb vram_gb;
             PrintPanel [("Model Size", GB2 (truediv (Int total_size_bytes) GiB));
                         ("RAM Available", GB2 ram_gb);
                         ("VRAM Available", GB2 vram_gb);
                         ("Performance",
                          Label (get_performance_label need ram_gb vram_gb))]]),
   Returned).
Proof.
  intros Hurl Hparse Hinfo Hblob Hmeta Hgguf. cbv zeta.
  unfold analyze_huggingface_url.
  rewrite (analyze_repository T w _ _ _ _ Hurl Hparse Hinfo Hblob), Hmeta.
  cbn [bind]. unfold gguf_scan. rewrite Hgguf. cbn [bind ret app fst snd].
  unfold weights_report. rewrite weights_total. cbn [Z.add].
  destruct (total_bytes _ =? 0)%Z; reflexivity.
Qed.

Lemma plain_weights_report_witness :
  analyze_huggingface_url Sample.base_keys Sample.world "https://huggingface.co/org/m" =
  ([ModelInfo "org/m" false; AddTask "Analyzing system resources..."; SystemMemory;
    AddTask "Analyzing repository: org/m..."; ModelInfo "org/m" true;
    EstimateRam "org/m" (Int GiB); PerformanceLabel 2.6 64 12;
    PrintPanel [("Model Size", GB2 1); ("RAM Available", GB2 64);
                ("VRAM Available", GB2 12);
                ("Performance", Label (mkLabel GPU_Ready 2.6 12))]],
   Returned).
Proof.
  apply (plain_weights_report Sample.base_keys Sample.world
           "https://huggingface.co/org/m" "org/m" "org/m"
           [mkFile "model.safetensors" GiB] [mkFile "model.safetensors" GiB]);
    reflexivity.
Defined.

(* ================================================================== *)
(** ** Further facts: order and products of binary64 numbers *)

Module FloatOrderFacts.

Local Open Scope float_scope.

Lemma SFltb_not_leb (x y : spec_float) : SFltb x y = true -> SFleb y x = false.
Proof.
  unfold SFleb, SFltb, SFcompare.
  destruct x as [[]|[]| |[] mx ex], y as [[]|[]| |[] my ey];
    simpl; intros H; try reflexivity; try discriminate; sf_cases.
Qed.

Lemma ltb_not_leb (x y : float) : (x <? y) = true -> (y <=? x) = false.
Proof. rewrite ltb_spec, leb_spec. apply SFltb_not_leb. Qed.

Lemma leb_not_nan (x y : float) :
  (x <=? y) = true -> is_nan x = false /\ is_nan y = false.
Proof.
  rewrite !PyFloatFacts.is_nan_spec, leb_spec. unfold SFleb, SFcompare.
  destruct (Prim2SF x) as [[]|[]| |[] mx ex], (Prim2SF y) as [[]|[]| |[] my ey];
    simpl; intros H; try discriminate; split; reflexivity.
Qed.

Lemma ltb_not_nan (x y : float) :
  (x <? y) = true -> is_nan x = false /\ is_nan y = false.
Proof. intros H. apply leb_not_nan. now apply PyFloatFacts.ltb_leb. Qed.

Lemma nan_leb (x y : float) : is_nan x = true \/ is_nan y = true -> (x <=? y) = false.
Proof.
  intros H. destruct (x <=? y) eqn:E; [|reflexivity].
  apply leb_not_nan in E. destruct E, H; congruence.
Qed.

Lemma nan_ltb (x y : float) : is_nan x = true \/ is_nan y = true -> (x <? y) = false.
Proof.
  intros H. destruct (x <? y) eqn:E; [|reflexivity].
  apply ltb_not_nan in E. destruct E, H; congruence.
Qed.

(** The ceiling [max(a, b)] of the selector: what is no greater than it
    stays so when [a] grows. *)
Lemma leb_max2_grow (x a a' b : float) :
  (a <=? a') = true -> (x <=? max2 a b) = true -> (x <=? max2 a' b) = true.
Proof.
  intros Ha. destruct (leb_not_nan _ _ Ha) as [Na Na'].
  unfold max2, gt.
  destruct (a <? b) eqn:E1, (a' <? b) eqn:E2; intros Hx.
  - exact Hx.
  - apply (PyFloatFacts.leb_trans _ _ _ Hx).
    apply PyFloatFacts.ltb_false_leb; [exact Na' | | exact E2].
    now destruct (ltb_not_nan _ _ E1).
  - apply (PyFloatFacts.leb_trans _ a').
    + now apply (PyFloatFacts.leb_trans _ a).
    + now apply PyFloatFacts.ltb_leb.
  - now apply (PyFloatFacts.leb_trans _ a).
Qed.

End FloatOrderFacts.

Module Binary64MulFacts.

Import Binary64Facts.

Lemma SFmul_nonneg (x y : spec_float) :
  sf_nonneg x = true -> sf_positive y = true ->
  sf_nonneg (SFmul prec emax x y) = true.
Proof.
  destruct x as [sx|[]| |[] mx ex], y as [sy|[]| |[] my ey]; simpl;
    try discriminate; try reflexivity; intros _ _.
  apply binary_round_aux_nonneg. lia.
Qed.

Lemma SFmul_zero (s : bool) (y : spec_float) :
  sf_finite y = true -> exists s', SFmul prec emax (S754_zero s) y = S754_zero s'.
Proof.
  destruct y as [sy|[]| |sy my ey]; simpl; try discriminate; intros _; eexists; reflexivity.
Qed.

Local Open Scope float_scope.

Lemma mul_nonneg (x y : float) : nonneg x -> positive_finite y -> nonneg (x * y).
Proof. unfold nonneg, positive_finite. rewrite mul_spec. apply SFmul_nonneg. Qed.

Lemma positive_is_finite (x : float) : positive_finite x -> finite x.
Proof.
  unfold positive_finite, finite.
  destruct (Prim2SF x) as [s|s| |[] m e]; simpl; congruence.
Qed.

End Binary64MulFacts.

Section EstimateFacts.

Local Open Scope float_scope.

Variable T : multipliers.

Lemma scan_multiplier_all (P : float -> Prop) (file_upper : string)
      (items : multipliers) (default : float) :
  Forall (fun kv => P (snd kv)) items -> P default ->
  P (scan_multiplier file_upper items default).
Proof.
  intros H Hd. induction H as [|[k m] items Hk _ IH]; simpl; [exact Hd|].
  destruct (contains k file_upper); [exact Hk | exact IH].
Qed.

Lemma last_in (l : list string) (d : string) : l <> [] -> In (last l d) l.
Proof.
  induction l as [|a l IH]; [congruence|]. intros _.
  destruct l as [|b l]; [left; reflexivity|].
  right. apply IH. discriminate.
Qed.

(** The selector answers with a key exactly when some candidate key of
    the table fits. *)
Lemma best_quantization_found (ram_gb vram_gb model_size_gb : float)
      (available_quants : list string) :
  ~ In too_large_msg (map fst T) ->
  get_best_quantization T ram_gb vram_gb model_size_gb available_quants
  <> too_large_msg
  <-> exists kv, In kv T /\ str_in (fst kv) available_quants = true
                 /\ (model_size_gb * (snd kv + 0.1) <=? max2 ram_gb vram_gb) = true.
Proof.
  intros Hkey. unfold get_best_quantization.
  rewrite suitable_loop_filter, filtered_quants_filter. cbn [app].
  remember (filter _ (filter _ T)) as F eqn:EF.
  assert (HF : forall kv, In kv F <->
                 In kv T /\ str_in (fst kv) available_quants = true
                 /\ (model_size_gb * (snd kv + 0.1) <=? max2 ram_gb vram_gb) = true).
  { intros kv. subst F. rewrite !filter_In. tauto. }
  clear EF. split.
  - intros H. destruct F as [|kv F]; [simpl in H; congruence|].
    exists kv. apply HF. left. reflexivity.
  - intros (kv & Hkv). apply HF in Hkv.
    destruct (map fst F) as [|q qs] eqn:E.
    { destruct F; [contradiction | discriminate]. }
    intros Hlast. apply Hkey. rewrite <- Hlast.
    assert (Hl : In (last (q :: qs) too_large_msg) (map fst F)).
    { rewrite E. apply last_in. discriminate. }
    apply in_map_iff in Hl. destruct Hl as (kv' & <- & Hkv').
    apply in_map. now apply HF in Hkv'.
Qed.

End EstimateFacts.

Section ClassifierFacts.

Local Open Scope float_scope.

Lemma estimate_nonneg_number (T : multipliers) (file_name : string) (bytes : number) :
  Forall (fun kv => positive_finite (snd kv)) T ->
  nonneg (to_float bytes) ->
  nonneg (estimate_ram_requirement T file_name bytes).
Proof.
  intros HT Hb. unfold estimate_ram_requirement, truediv.
  pose proof (div_GiB_nonneg _ Hb) as Hgb.
  apply Binary64Facts.add_nonneg.
  - apply Binary64MulFacts.mul_nonneg; [exact Hgb|].
    apply scan_multiplier_all; [exact HT | reflexivity].
  - apply Binary64MulFacts.mul_nonneg; [exact Hgb | reflexivity].
Qed.

(** Without NaNs the classifier says "Too large" exactly above the
    ceiling [max(ram, vram)]. *)
Lemma too_large_ceiling (need ram_gb vram_gb : float) :
  is_nan need = false -> is_nan ram_gb = false -> is_nan vram_gb = false ->
  (label_verdict (get_performance_label need ram_gb vram_gb) = Too_large
   <-> (need <=? max2 ram_gb vram_gb) = false).
Proof.
  intros Nn Nr Nv. unfold get_performance_label, max2, ge, gt.
  destruct (need <=? vram_gb) eqn:E1.
  + cbn [label_verdict]. split; [discriminate|].
    destruct (ram_gb <? vram_gb) eqn:E2; [intros H; congruence|].
    apply (PyFloatFacts.ltb_false_leb _ _ Nr Nv) in E2.
    rewrite (PyFloatFacts.leb_trans _ _ _ E1 E2). discriminate.
  + destruct (ram_gb <? need) eqn:E3.
    * cbn [label_verdict]. split; [intros _|reflexivity].
      destruct (ram_gb <? vram_gb); [exact E1|].
      now apply FloatOrderFacts.ltb_not_leb.
    * apply (PyFloatFacts.ltb_false_leb _ _ Nr Nn) in E3.
      assert (Hfit : (need <=? (if ram_gb <? vram_gb then vram_gb else ram_gb)) = true).
      { destruct (ram_gb <? vram_gb) eqn:E2; [|exact E3].
        apply (PyFloatFacts.leb_trans _ _ _ E3). now apply PyFloatFacts.ltb_leb. }
      rewrite Hfit.
      destruct (ram_gb * 0.5 <? need); cbn [label_verdict]; split; discriminate.
Qed.

End ClassifierFacts.

(* ================================================================== *)
(** ** Estimates and verdicts as numbers *)

Local Open Scope float_scope.

(** X7.  With a table all of whose multipliers are finite and greater than
    zero, the estimate of a size that is not negative is a number that is
    not negative: it is never a NaN, for an int of bytes and for a float
    of bytes alike. *)
Theorem estimate_nonneg (T : multipliers) (file_name : string) :
  Forall (fun kv => positive_finite (snd kv)) T ->
  (forall z, (0 <= z)%Z ->
     nonneg (estimate_ram_requirement T file_name (Int z))
     /\ is_nan (estimate_ram_requirement T file_name (Int z)) = false)
  /\ (forall x, nonneg x ->
        nonneg (estimate_ram_requirement T file_name (Float x))
        /\ is_nan (estimate_ram_requirement T file_name (Float x)) = false).
Proof.
  intros HT.
  pose proof (fun bytes => estimate_nonneg_number T file_name bytes HT) as H.
  split.
  - intros z Hz.
    assert (Hn := H (Int z) (Binary64Facts.float_of_int_nonneg z Hz)).
    split; [exact Hn | now apply Binary64Facts.nonneg_not_nan].
  - intros x Hx. assert (Hn := H (Float x) Hx).
    split; [exact Hn | now apply Binary64Facts.nonneg_not_nan].
Qed.

Lemma estimate_nonneg_witness :
  is_nan (estimate_ram_requirement Sample.base_keys "model-Q8_0.gguf" (Int (9 * GiB)))
  = false.
Proof.
  apply (proj1 (estimate_nonneg Sample.base_keys "model-Q8_0.gguf"
                  ltac:(repeat constructor))); vm_compute; discriminate.
Defined.

(** X8.  A file of zero bytes: with a table of finite multipliers its
    estimate is 0.0 whatever its name, and the classifier calls an
    estimate of 0.0 GPU-Ready on every machine whose VRAM figure is not
    negative, also on one without a GPU (0.0 GB of VRAM). *)
Theorem zero_bytes_gpu_ready (T : multipliers) (file_name : string)
        (ram_gb vram_gb : float) :
  Forall (fun kv => finite (snd kv)) T ->
  nonneg vram_gb ->
  estimate_ram_requirement T file_name (Int 0) = 0
  /\ get_performance_label (estimate_ram_requirement T file_name (Int 0)) ram_gb vram_gb
     = mkLabel GPU_Ready 0 vram_gb.
Proof.
  intros HT Hv.
  assert (H0 : estimate_ram_requirement T file_name (Int 0) = 0).
  { apply Prim2SF_inj. unfold estimate_ram_requirement, truediv.
    change (to_float (Int 0) / float_of_int GiB) with 0.
    rewrite FloatAxioms.add_spec, !mul_spec.
    assert (Hm : finite (scan_multiplier (upper file_name) T 2.5)).
    { apply scan_multiplier_all; [exact HT | reflexivity]. }
    change (Prim2SF 0) with (S754_zero false).
    destruct (Binary64MulFacts.SFmul_zero false _ Hm) as [s Hs].
    unfold SF64mul. rewrite Hs.
    change (SFmul prec emax (S754_zero false) (Prim2SF 0.1)) with (S754_zero false).
    destruct s; reflexivity. }
  split; [exact H0|]. rewrite H0. unfold get_performance_label, ge.
  assert (Hle : (0 <=? vram_gb) = true).
  { rewrite leb_spec. unfold nonneg in Hv.
    change (Prim2SF 0) with (S754_zero false).
    destruct (Prim2SF vram_gb) as [[]|[]| |[] m e]; simpl in *;
      try discriminate; reflexivity. }
  now rewrite Hle.
Qed.

Lemma zero_bytes_gpu_ready_witness :
  get_performance_label
    (estimate_ram_requirement Sample.base_keys "empty.bin" (Int 0)) 16 0
  = mkLabel GPU_Ready 0 0.
Proof.
  apply (proj2 (zero_bytes_gpu_ready Sample.base_keys "empty.bin" 16 0
                  ltac:(repeat constructor) ltac:(reflexivity))).
Defined.

(** X9.  For figures none of which is a NaN the classifier answers
    "Too large" exactly when the need exceeds [max(ram, vram)], the
    ceiling the selector compares with; and a need that is a NaN is
    classified Ready whatever the machine. *)
Theorem too_large_iff_above_ceiling (need ram_gb vram_gb : float) :
  (is_nan need = false -> is_nan ram_gb = false -> is_nan vram_gb = false ->
   (label_verdict (get_performance_label need ram_gb vram_gb) = Too_large
    <-> (need <=? max2 ram_gb vram_gb) = false))
  /\ (is_nan need = true ->
      get_performance_label need ram_gb vram_gb = mkLabel Ready need ram_gb).
Proof.
  split.
  - apply too_large_ceiling.
  - intros Nn. unfold get_performance_label, ge, gt.
    rewrite (FloatOrderFacts.nan_leb need vram_gb) by auto.
    rewrite (FloatOrderFacts.nan_ltb ram_gb need) by auto.
    rewrite (FloatOrderFacts.nan_ltb (ram_gb * 0.5) need) by auto.
    reflexivity.
Qed.

Lemma too_large_iff_above_ceiling_witness :
  label_verdict (get_performance_label 18.9 16 0) = Too_large
  /\ get_performance_label nan 16 0 = mkLabel Ready nan 16.
Proof.
  split.
  - apply (proj1 (too_large_iff_above_ceiling 18.9 16 0)); reflexivity.
  - apply (proj2 (too_large_iff_above_ceiling nan 16 0)). reflexivity.
Defined.

(** X10.  More RAM never costs the selector its answer: when no key of the
    table is the sentinel text, an answer other than the sentinel stays
    other than the sentinel when the RAM figure grows. *)
Theorem get_best_quantization_more_ram (T : multipliers)
        (ram_gb ram_gb' vram_gb model_size_gb : float) (available_quants : list string) :
  ~ In too_large_msg (map fst T) ->
  (ram_gb <=? ram_gb') = true ->
  get_best_quantization T ram_gb vram_gb model_size_gb available_quants
  <> too_large_msg ->
  get_best_quantization T ram_gb' vram_gb model_size_gb available_quants
  <> too_large_msg.
Proof.
  intros Hkey Hram H1.
  apply (best_quantization_found T _ _ _ _ Hkey) in H1.
  apply (best_quantization_found T _ _ _ _ Hkey).
  destruct H1 as (kv & Hin & Hsel & Hfit).
  exists kv. split; [exact Hin|]. split; [exact Hsel|].
  now apply (FloatOrderFacts.leb_max2_grow _ ram_gb).
Qed.

Lemma get_best_quantization_more_ram_witness :
  get_best_quantization Sample.base_keys 32 0 8 ["Q4_K"; "Q8_0"] <> too_large_msg.
Proof.
  apply (get_best_quantization_more_ram Sample.base_keys 16 32 0 8 ["Q4_K"; "Q8_0"]).
  - simpl. intros [H|[H|[]]]; discriminate H.
  - reflexivity.
  - vm_compute. discriminate.
Defined.

(* ================================================================== *)
(** ** Further facts: labels and the order of the input *)

Section GrouperOrderFacts.

Local Open Scope float_scope.

Variable T : multipliers.

Lemma size_variant_upper (s : string) : upper (size_variant_of s) = size_variant_of s.
Proof.
  unfold size_variant_of.
  repeat match goal with |- context [if ?b then _ else _] => destruct b end;
    reflexivity.
Qed.

Lemma key_found_is_upper (k s : string) : contains k (upper s) = true -> upper k = k.
Proof.
  intros H. apply PyStrFacts.upper_fixed.
  destruct (has_lower k) eqn:E; [|reflexivity].
  rewrite (PyStrFacts.lower_never_in_upper k s E) in H. discriminate.
Qed.

Lemma contains_prefix (k r : string) : contains k (k ++ r) = true.
Proof.
  apply PyStrFacts.contains_spec. exists "", r. reflexivity.
Qed.

Lemma first_key_found (file_upper k : string) (m : float) :
  first_key T file_upper = Some (k, m) -> In (k, m) T /\ contains k file_upper = true.
Proof.
  unfold first_key. intros H. apply find_some in H. exact H.
Qed.

Lemma filter_Permutation {A} (p : A -> bool) (l l' : list A) :
  Permutation l l' -> Permutation (filter p l) (filter p l').
Proof.
  induction 1 as [|x l l' _ IH|x y l|l l' l'' _ IH1 _ IH2]; simpl.
  - constructor.
  - destruct (p x); [now constructor | exact IH].
  - destruct (p x), (p y); try apply Permutation_refl; constructor.
  - now transitivity (filter p l').
Qed.

Lemma labels_of_Permutation (files files' : list RemoteFile) (l : string) :
  Permutation files files' -> In l (labels_of T files) -> In l (labels_of T files').
Proof.
  intros Hp Hl. apply in_labels_of in Hl. destruct Hl as (f & Hf & Hl).
  apply in_labels_of. exists f. split; [|exact Hl].
  now apply (Permutation_in _ Hp).
Qed.

End GrouperOrderFacts.

(* ================================================================== *)
(** ** The groups of the grouper *)

Local Open Scope float_scope.

(** X11.  Whatever the table and the input: the keys of the grouper's result
    are distinct and not empty; no group is empty; the members of a
    group are the files of its label in the order (and with the
    repetitions) of the input; and the recorded size of a group is the
    running float sum, from 0.0, of the sizes of its members in that
    order. *)
Theorem groups_hold_members_in_order (T : multipliers) (files : list RemoteFile) :
  let result := group_split_files T files in
  NoDup (map fst result)
  /\ forall label g,
       In (label, g) result ->
       label <> ""
       /\ group_files g <> []
       /\ group_files g = filter (has_label T label) files
       /\ group_size g = float_sum (group_files g).
Proof.
  cbv zeta. split.
  - rewrite keys_group_split_files. apply first_occurrences_NoDup.
  - intros label g Hin. apply in_group_split_files in Hin. destruct Hin as [Hl ->].
    cbn [group_files group_size]. apply in_labels_of in Hl.
    destruct Hl as (f & Hf & Hlabel).
    split; [|split; [|split; reflexivity]].
    + unfold grouped_label in Hlabel.
      destruct (quant_type_of T f) as [[|c r]|]; congruence.
    + intros E. assert (Hm : In f (members T label files)) by (apply in_members; auto).
      rewrite E in Hm. contradiction.
Qed.

(** X12.  The label of every group is recognized by the estimator: it is in
    upper case already, the scan of the estimator finds a key of the
    table in it, and the estimate of the group (line 173) is made with
    the multiplier of that key, never with the default 2.5. *)
Theorem group_label_recognized (T : multipliers) (files : list RemoteFile)
        (label : string) (g : Group) :
  In (label, g) (group_split_files T files) ->
  upper label = label
  /\ exists k m,
       first_key T label = Some (k, m)
       /\ forall bytes,
            estimate_ram_requirement T label bytes
            = truediv bytes GiB * m + truediv bytes GiB * 0.1.
Proof.
  intros Hin. apply in_group_split_files in Hin. destruct Hin as [Hl _].
  apply in_labels_of in Hl. destruct Hl as (f & _ & Hlabel).
  destruct (grouped_label_first_key T _ _ Hlabel) as (k0 & m0 & Hk0 & ->).
  destruct (first_key_found T _ _ _ Hk0) as [HinT Hc].
  assert (Hup : upper (k0 ++ size_variant_of (upper (rfilename f)))
                = (k0 ++ size_variant_of (upper (rfilename f)))%string).
  { rewrite PyStrFacts.upper_app, size_variant_upper.
    now rewrite (key_found_is_upper _ _ Hc). }
  split; [exact Hup|].
  destruct (first_key T (k0 ++ size_variant_of (upper (rfilename f)))) as [[k m]|] eqn:E.
  - exists k, m. split; [reflexivity|]. intros bytes.
    unfold estimate_ram_requirement. rewrite Hup, scan_multiplier_first_key.
    unfold first_key in E. rewrite E. reflexivity.
  - exfalso. unfold first_key in E.
    apply (find_none _ _ E) in HinT. cbn [fst] in HinT.
    now rewrite contains_prefix in HinT.
Qed.

Lemma group_label_recognized_witness :
  exists k m,
    first_key Sample.base_keys "Q4_K_M" = Some (k, m)
    /\ forall bytes,
         estimate_ram_requirement Sample.base_keys "Q4_K_M" bytes
         = truediv bytes GiB * m + truediv bytes GiB * 0.1.
Proof.
  apply (group_label_recognized Sample.base_keys Sample.example_files "Q4_K_M"
           (mkGroup (float_of_int (8 * GiB)) [Sample.q4_part1; Sample.q4_part2])).
  vm_compute. left. reflexivity.
Defined.

(** X13.  The order of the input matters only for the order of the groups
    and of their members: for two lists of the same files in different
    orders the grouper gives the same labels, and under each label the
    same files; and when the sizes are not negative and their total is
    below 2^53 bytes, the same recorded size. *)
Theorem grouping_up_to_order (T : multipliers) (files files' : list RemoteFile) :
  Permutation files files' ->
  Permutation (map fst (group_split_files T files))
              (map fst (group_split_files T files'))
  /\ forall label g g',
       In (label, g) (group_split_files T files) ->
       In (label, g') (group_split_files T files') ->
       Permutation (group_files g) (group_files g')
       /\ (sizes_nonneg files -> (total_bytes files < 2 ^ 53)%Z ->
           group_size g = group_size g').
Proof.
  intros Hp. split.
  - rewrite !keys_group_split_files.
    apply NoDup_Permutation; try apply first_occurrences_NoDup.
    intros l. rewrite !first_occurrences_In. split.
    + now apply labels_of_Permutation.
    + apply labels_of_Permutation. now symmetry.
  - intros label g g' Hg Hg'.
    apply in_group_split_files in Hg, Hg'.
    destruct Hg as [_ ->], Hg' as [_ ->]. cbn [group_files group_size].
    assert (Hm : Permutation (members T label files) (members T label files')).
    { unfold members. now apply filter_Permutation. }
    split; [exact Hm|]. intros Hs Hlt.
    assert (Hs' : sizes_nonneg files').
    { unfold sizes_nonneg in *. rewrite Forall_forall in *. intros f Hf.
      apply Hs. apply (Permutation_in _ (Permutation_sym Hp)). exact Hf. }
    assert (Hlt' : (total_bytes files' < 2 ^ 53)%Z).
    { now rewrite <- (total_bytes_Permutation _ _ Hp). }
    rewrite !float_sum_exact.
    + f_equal. now apply total_bytes_Permutation.
    + now apply sizes_nonneg_filter.
    + unfold members. pose proof (total_bytes_filter (has_label T label) files' Hs').
      lia.
    + now apply sizes_nonneg_filter.
    + unfold members. pose proof (total_bytes_filter (has_label T label) files Hs).
      lia.
Qed.

Lemma grouping_up_to_order_witness :
  Permutation (map fst (group_split_files Sample.base_keys Sample.example_files))
              (map fst (group_split_files Sample.base_keys
                          [Sample.q8_file; Sample.q4_part2; Sample.q4_part1])).
Proof.
  apply (proj1 (grouping_up_to_order Sample.base_keys Sample.example_files
                  [Sample.q8_file; Sample.q4_part2; Sample.q4_part1]
                  ltac:(unfold Sample.example_files;
                        apply Permutation_sym, Permutation_cons_app with (l1 := [_; _]);
                        apply perm_swap))).
Defined.

(* ================================================================== *)
(** ** Further facts: white space and letter case *)

Local Close Scope float_scope.

Module StripFacts.

Lemma lstrip_spaces (ws s : string) :
  all_chars is_space ws = true -> lstrip_space (ws ++ s) = lstrip_space s.
Proof.
  induction ws as [|c ws IH]; simpl; [reflexivity|].
  intros H. apply andb_true_iff in H. destruct H as [Hc Hws].
  rewrite Hc. now apply IH.
Qed.

Lemma rstrip_all_spaces (ws : string) :
  all_chars is_space ws = true -> rstrip_space ws = "".
Proof.
  induction ws as [|c ws IH]; simpl; [reflexivity|].
  intros H. apply andb_true_iff in H. destruct H as [Hc Hws].
  now rewrite (IH Hws), Hc.
Qed.

Lemma rstrip_spaces (s ws : string) :
  all_chars is_space ws = true -> rstrip_space (s ++ ws) = rstrip_space s.
Proof.
  intros H. induction s as [|c s IH]; simpl.
  - now apply rstrip_all_spaces.
  - now rewrite IH.
Qed.

Lemma lstrip_all_spaces (ws : string) :
  all_chars is_space ws = true -> lstrip_space ws = "".
Proof.
  intros H. rewrite <- (PyStrFacts.str_append_nil ws). now rewrite lstrip_spaces.
Qed.

(** White space has no lower-case form of its own. *)
Lemma space_lower (c : ascii) : is_space c = true -> lower_char c = c.
Proof.
  destruct c as [[] [] [] [] [] [] [] []]; vm_compute; intros H;
    try reflexivity; discriminate H.
Qed.

Lemma lower_length (s : string) : String.length (lower s) = String.length s.
Proof. induction s as [|c s IH]; simpl; congruence. Qed.

Lemma length_app (a b : string) :
  String.length (a ++ b) = String.length a + String.length b.
Proof. induction a as [|c a IH]; simpl; congruence. Qed.

Lemma contains_length (needle hay : string) :
  contains needle hay = true -> String.length needle <= String.length hay.
Proof.
  intros H. apply PyStrFacts.contains_spec in H. destruct H as (a & b & ->).
  rewrite !length_app. lia.
Qed.

(** The four letters of the exit command, in either case. *)
Lemma exit_word (w : string) :
  lower w = "exit" ->
  exists c1 c2 c3 c4,
    w = String c1 (String c2 (String c3 (String c4 "")))
    /\ is_space c1 = false /\ is_space c4 = false.
Proof.
  destruct w as [|c1 [|c2 [|c3 [|c4 [|c5 w]]]]]; try discriminate.
  simpl. intros [= H1 _ _ H4]. exists c1, c2, c3, c4.
  split; [reflexivity|]. split.
  - destruct (is_space c1) eqn:E; [|reflexivity].
    rewrite (space_lower _ E) in H1. subst c1. discriminate E.
  - destruct (is_space c4) eqn:E; [|reflexivity].
    rewrite (space_lower _ E) in H4. subst c4. discriminate E.
Qed.

Lemma strip_padded_exit (before w after : string) :
  all_chars is_space before = true -> all_chars is_space after = true ->
  lower w = "exit" -> strip (before ++ w ++ after) = w.
Proof.
  intros Hb Ha Hw. destruct (exit_word w Hw) as (c1 & c2 & c3 & c4 & -> & H1 & H4).
  unfold strip. rewrite lstrip_spaces by exact Hb.
  cbn [append lstrip_space]. rewrite H1.
  change (String c1 (String c2 (String c3 (String c4 after))))
    with (String c1 (String c2 (String c3 (String c4 ""))) ++ after)%string.
  rewrite rstrip_spaces by exact Ha.
  cbn [rstrip_space]. rewrite H4. reflexivity.
Qed.

End StripFacts.

(* ================================================================== *)
(** ** The script *)

(** X14.  When the table is loaded and the line read is the word exit, in
    any mix of upper and lower case and with any white space around it,
    the script leaves by [sys.exit()] after the prompt; when the line is
    empty or all white space, the script ends after the prompt.  In both
    cases nothing is analyzed: no lookup, no other output. *)
Theorem script_exit_and_blank_line (T : multipliers) (w : World) :
  (forall before word after,
      all_chars is_space before = true -> all_chars is_space after = true ->
      lower word = "exit" ->
      script (Some T) w (Some (before ++ word ++ after)%string)
      = ([Print prompt_msg], SysExit 0))
  /\ (forall line,
         all_chars is_space line = true ->
         script (Some T) w (Some line) = ([Print prompt_msg], Finished)).
Proof.
  split.
  - intros before word after Hb Ha Hw. unfold script.
    rewrite (StripFacts.strip_padded_exit _ _ _ Hb Ha Hw), Hw. reflexivity.
  - intros line H. unfold script, strip.
    rewrite (StripFacts.lstrip_all_spaces _ H). reflexivity.
Qed.

Lemma script_exit_and_blank_line_witness :
  script (Some Sample.base_keys) Sample.world (Some "  Exit ")
  = ([Print prompt_msg], SysExit 0)
  /\ script (Some Sample.base_keys) Sample.world (Some "   ")
     = ([Print prompt_msg], Finished).
Proof.
  split.
  - apply (proj1 (script_exit_and_blank_line Sample.base_keys Sample.world)
             "  " "Exit" " "); reflexivity.
  - apply (proj2 (script_exit_and_blank_line Sample.base_keys Sample.world) "   ").
    reflexivity.
Defined.

(** X15.  When the table is loaded and the line read, stripped of white
    space, is a URL that contains "huggingface.co/" but loses it with its
    trailing slashes (as "https://huggingface.co/" does), the script
    prints the prompt and the Analyzing line and ends with the IndexError
    of the analyzer, which nothing catches: no message about the URL and
    no closing empty line. *)
Theorem script_crashes_on_bare_host (T : multipliers) (w : World) (line : string) :
  contains "huggingface.co/" (strip line) = true ->
  contains "huggingface.co/" (rstrip "/" (strip line)) = false ->
  script (Some T) w (Some line)
  = ([Print prompt_msg; Print (analyzing_msg (strip line))], Uncaught "IndexError").
Proof.
  intros Hc Hs. unfold script.
  assert (Hlen : 15 <= String.length (strip line)).
  { apply (StripFacts.contains_length "huggingface.co/"). exact Hc. }
  destruct (String.eqb_spec (lower (strip line)) "exit") as [E|_].
  { apply (f_equal String.length) in E. rewrite StripFacts.lower_length in E.
    simpl in E. lia. }
  destruct (strip line) as [|c url] eqn:Eu; [simpl in Hlen; lia|].
  unfold analyze_huggingface_url, analyze. rewrite Hc. cbn [negb].
  unfold parse_url. rewrite (SplitFacts.split_no_sep _ _ Hs). reflexivity.
Qed.

Lemma script_crashes_on_bare_host_witness :
  script (Some Sample.base_keys) Sample.world (Some " https://huggingface.co/ ")
  = ([Print prompt_msg; Print (analyzing_msg "https://huggingface.co/")],
     Uncaught "IndexError").
Proof.
  apply (script_crashes_on_bare_host Sample.base_keys Sample.world
           " https://huggingface.co/ "); reflexivity.
Defined.

(* ================================================================== *)
(** ** The memory probe *)

Local Open Scope float_scope.

(** X16.  On a machine whose byte counts are not negative both figures of
    [get_system_memory] are numbers that are not negative, the VRAM
    figure being 0.0 without a CUDA device; and with a table of finite
    multipliers greater than zero, a file of a size that is not negative
    is classified "Too large" on that machine exactly when its estimate
    exceeds the greater of the two figures. *)
Theorem verdict_on_machine (T : multipliers) (m : Machine) (file_name : string)
        (file_size_bytes : Z) :
  (0 <= ram_bytes m)%Z ->
  (forall total_memory, cuda_bytes m = Some total_memory -> (0 <= total_memory)%Z) ->
  Forall (fun kv => positive_finite (snd kv)) T ->
  (0 <= file_size_bytes)%Z ->
  let ram_gb := fst (system_memory_of m) in
  let vram_gb := snd (system_memory_of m) in
  let need := estimate_ram_requirement T file_name (Int file_size_bytes) in
  nonneg ram_gb /\ nonneg vram_gb
  /\ (cuda_bytes m = None -> vram_gb = 0)
  /\ (label_verdict (get_performance_label need ram_gb vram_gb) = Too_large
      <-> (need <=? max2 ram_gb vram_gb) = false).
Proof.
  intros Hram Hcuda HT Hsize. cbv zeta.
  assert (Hr : nonneg (fst (system_memory_of m))).
  { unfold system_memory_of, truediv. cbn [fst to_float].
    apply div_GiB_nonneg. now apply Binary64Facts.float_of_int_nonneg. }
  assert (Hv : nonneg (snd (system_memory_of m))).
  { unfold system_memory_of, truediv. cbn [snd to_float].
    destruct (cuda_bytes m) as [b|]; [|reflexivity].
    apply div_GiB_nonneg. apply Binary64Facts.float_of_int_nonneg. now apply Hcuda. }
  split; [exact Hr|]. split; [exact Hv|]. split.
  - intros E. unfold system_memory_of. now rewrite E.
  - apply too_large_ceiling; apply Binary64Facts.nonneg_not_nan; try assumption.
    apply estimate_nonneg_number; [exact HT|].
    now apply Binary64Facts.float_of_int_nonneg.
Qed.

Lemma verdict_on_machine_witness :
  let m := mkMachine (16 * GiB) None in
  snd (system_memory_of m) = 0
  /\ label_verdict
       (get_performance_label
          (estimate_ram_requirement Sample.base_keys "model-Q8_0.gguf" (Int (9 * GiB)))
          (fst (system_memory_of m)) (snd (system_memory_of m))) = Too_large.
Proof.
  cbv zeta.
  destruct (verdict_on_machine Sample.base_keys (mkMachine (16 * GiB) None)
              "model-Q8_0.gguf" (9 * GiB)
              ltac:(vm_compute; discriminate) ltac:(discriminate)
              ltac:(repeat constructor) ltac:(vm_compute; discriminate))
    as (_ & _ & Hz & Hv).
  split; [exact (Hz eq_refl)|]. apply (proj2 Hv). reflexivity.
Defined.
